(* Verification development for SEFS (Semantic Entropy File System),
   backend/app: embedder, extractor, clusterer, db, pipeline, sync and the
   recluster scheduler of main.py.

   Modelling conventions.
   - Python [str] is [String.string]; one Rocq [ascii] is one code point
     (code points 0..255).
   - numpy float vectors are [list Q]: exact rationals stand for the
     floating-point values.  A vector operation that numpy rejects
     (inhomogeneous shapes) returns [None].
   - A Python exception escaping a function is [None] (or an explicit
     error constructor); [try/except] is a [match] on that result.
   - External SDKs and libraries (ollama, openai, hashlib, chardet, PyMuPDF,
     python-docx, pandas, markdown, hdbscan, umap) are Section variables:
     the repository calls them but does not contain them.
   - The SQLite store is a list of rows in ascending [id] order (the
     order of [ORDER BY id] and of a plain table scan). *)

From Stdlib Require Import ZArith QArith List String Ascii Bool Lia Qround.
From Stdlib Require Import Strings.Byte Lqa Sorting.Sorted.
Import ListNotations.

Set Warnings "-abstract-large-number".

Open Scope Z_scope.

(* ------------------------------------------------------------------ *)
(** * Python string helpers *)

Definition char_code (c : ascii) : nat := nat_of_ascii c.

(** [str.isspace] restricted to code points 0..255. *)
Definition isspace (c : ascii) : bool :=
  match char_code c with
  | 9 | 10 | 11 | 12 | 13 | 28 | 29 | 30 | 31 | 32 | 133 | 160 => true
  | _ => false
  end%nat.

Fixpoint drop_space (l : list ascii) : list ascii :=
  match l with
  | c :: r => if isspace c then drop_space r else l
  | [] => []
  end.

(** [str.strip()] *)
Definition strip (s : string) : string :=
  string_of_list_ascii
    (rev (drop_space (rev (drop_space (list_ascii_of_string s))))).

(** [str.split()] with no argument: maximal runs of non-space characters. *)
Fixpoint split_words_aux (l : list ascii) (cur : list ascii)
  : list (list ascii) :=
  match l with
  | [] => match cur with [] => [] | _ => [rev cur] end
  | c :: r =>
      if isspace c then
        match cur with
        | [] => split_words_aux r []
        | _ => rev cur :: split_words_aux r []
        end
      else split_words_aux r (c :: cur)
  end.

Definition split_words (s : string) : list string :=
  map string_of_list_ascii (split_words_aux (list_ascii_of_string s) []).

(** Python slice [s[:n]] *)
Definition take (n : nat) (s : string) : string := substring 0 n s.

(** Python slice [s[-n:]] (for [n <= len s]) *)
Definition take_last (n : nat) (s : string) : string :=
  substring (String.length s - n) n s.

Definition nl : string := String "010"%char EmptyString.

(** [s.startswith(".")] *)
Definition starts_with_dot (s : string) : bool :=
  match s with String c _ => Ascii.eqb c "."%char | EmptyString => false end.

(** [str.lower()] on ASCII letters. *)
Definition lower_char (c : ascii) : ascii :=
  let n := nat_of_ascii c in
  if (65 <=? n)%nat && (n <=? 90)%nat then ascii_of_nat (n + 32) else c.

Definition lower (s : string) : string :=
  string_of_list_ascii (map lower_char (list_ascii_of_string s)).

(** Decimal rendering of a natural number, as [f"{n}"]. *)
Fixpoint digits_aux (fuel n : nat) (acc : string) : string :=
  match fuel with
  | O => acc
  | S f =>
      let d := ascii_of_nat (48 + Nat.modulo n 10) in
      let q := Nat.div n 10 in
      if (q =? 0)%nat then String d acc else digits_aux f q (String d acc)
  end.

Definition nat_to_string (n : nat) : string := digits_aux (S n) n EmptyString.

(* ------------------------------------------------------------------ *)
(** * Vectors (numpy arrays of floats) *)

Definition vec := list Q.

Definition zeros (n : Z) : vec := repeat 0%Q (Z.to_nat n).

Fixpoint dot (a b : vec) : Q :=
  match a, b with
  | x :: a', y :: b' => (x * y + dot a' b')%Q
  | _, _ => 0%Q
  end.

(** Square root on [Q]: [sqrt (n/d) = sqrt (n*d) / d] with the integer
    square root [Z.sqrt], which rounds down.  It is exact, and then equal
    to the correctly rounded floating-point square root, exactly when
    [n*d] is a perfect square (in particular on squares of rationals);
    elsewhere it is below the true root.  It is only evaluated on the
    concrete inputs below, which take roots of perfect squares only; the
    clusterer takes its square root as a parameter instead. *)
Definition Qsqrt (q : Q) : Q :=
  Qmake (Z.sqrt (Qnum q * Zpos (Qden q))) (Qden q).

(** [np.linalg.norm] *)
Definition norm (a : vec) : Q := Qsqrt (dot a a).

(** [np.any(v)] *)
Definition any_nonzero (a : vec) : bool :=
  existsb (fun x => negb (Qeq_bool x 0)) a.

(** Componentwise sum of two vectors of one length. *)
Fixpoint vadd (a b : vec) : vec :=
  match a, b with
  | x :: a', y :: b' => (x + y)%Q :: vadd a' b'
  | _, _ => []
  end.

Definition vscale (k : Q) (a : vec) : vec := map (fun x => (k * x)%Q) a.

(** [np.mean(rows, axis=0)]: numpy raises on a ragged list of rows
    (inhomogeneous shape); the mean of an empty list (NaN) is never taken
    by the code below and is [None] here. *)
Definition vmean (rows : list vec) : option vec :=
  match rows with
  | [] => None
  | r :: rest =>
      if forallb (fun r' => Nat.eqb (List.length r') (List.length r)) rest
      then Some (vscale (1 # Pos.of_nat (List.length rows))
                        (fold_left vadd rest r))
      else None
  end.

Close Scope Z_scope.
Open Scope string_scope.

(* ------------------------------------------------------------------ *)
(** * embedder.py *)

Module Embedder.

Record Settings := mkSettings {
  selected_provider : string;
  openai_api_key : string;
  openai_embed_model : string
}.

(** Module globals [_provider_available] and [_last_embed_dims]
    (dicts keyed by provider name, as association lists). *)
Record State := mkState {
  provider_available : list (string * option bool);
  last_embed_dims : list (string * Z)
}.

Fixpoint assoc {A} (k : string) (l : list (string * A)) : option A :=
  match l with
  | [] => None
  | (k', v) :: r => if String.eqb k k' then Some v else assoc k r
  end.

Fixpoint assoc_set {A} (k : string) (v : A) (l : list (string * A))
  : list (string * A) :=
  match l with
  | [] => [(k, v)]
  | (k', v') :: r =>
      if String.eqb k k' then (k', v) :: r else (k', v') :: assoc_set k v r
  end.

Definition MAX_CHARS : nat := 20000.

Definition OPENAI_EMBED_DIMS : list (string * Z) :=
  [("text-embedding-3-small", 1536); ("text-embedding-3-large", 3072);
   ("text-embedding-ada-002", 1536)]%Z.

Section WithProviders.

(** SDK calls: [ol.embed] / [client.embeddings.create] already converted
    by [np.array(vec, dtype=np.float32)]; [None] when the call raises. *)
Variable ollama_embed : string -> option vec.
Variable openai_embed : string -> option vec.
(** [ol.chat] / [client.chat.completions.create]: [None] when the call
    raises, [Some None] when the message content is [None]. *)
Variable ollama_chat : string -> option (option string).
Variable openai_chat : string -> option (option string).

Variable settings : Settings.

Definition _preferred_provider : string := selected_provider settings.

Definition get_expected_embedding_dim (st : State) : Z :=
  if String.eqb _preferred_provider "openai" then
    match assoc (openai_embed_model settings) OPENAI_EMBED_DIMS with
    | Some d => d | None => 1536%Z end
  else
    let dim := match assoc "ollama" (last_embed_dims st) with
               | Some d => d | None => 768%Z end in
    if (dim >? 0)%Z then dim else 768%Z.

Definition _truncate_text (text : string) : string :=
  if (String.length text <=? MAX_CHARS)%nat then text
  else
    let half := Nat.div MAX_CHARS 2 in
    take half text ++ nl ++ "..." ++ nl ++ take_last half text.

Definition _fallback_summary (text : string) : string :=
  let clean := strip text in
  if String.eqb clean "" then ""
  else
    let snippet := take 200 clean in
    if (String.length clean <=? 200)%nat then snippet else snippet ++ "...".

(** [_embed_ollama] / [_embed_openai]: the SDK call, then
    [_set_last_embed_dim(provider, len(arr))]. *)
Definition _embed_ollama (st : State) (text : string) : option (vec * State) :=
  match ollama_embed text with
  | Some arr =>
      Some (arr, mkState (provider_available st)
                   (assoc_set "ollama" (Z.of_nat (List.length arr)) (last_embed_dims st)))
  | None => None
  end.

Definition _embed_openai (st : State) (text : string) : option (vec * State) :=
  if String.eqb (openai_api_key settings) "" then None
  else
    match openai_embed text with
    | Some arr =>
        Some (arr, mkState (provider_available st)
                     (assoc_set "openai" (Z.of_nat (List.length arr)) (last_embed_dims st)))
    | None => None
    end.

Definition set_available (provider : string) (b : bool) (st : State) : State :=
  mkState (assoc_set provider (Some b) (provider_available st))
          (last_embed_dims st).

Definition get_embedding (st : State) (text : string) : vec * State :=
  let provider := _preferred_provider in
  if String.eqb text "" || String.eqb (strip text) "" then
    (zeros (get_expected_embedding_dim st), st)
  else
    let text := _truncate_text text in
    let r := if String.eqb provider "openai" then _embed_openai st text
             else _embed_ollama st text in
    match r with
    | Some (emb, st') => (emb, set_available provider true st')
    | None => (zeros (get_expected_embedding_dim st),
               set_available provider false st)
    end.

Definition summary_prompt (snippet : string) : string :=
  "Summarize this document in 1-2 sentences:" ++ nl ++ nl ++ snippet.

Definition content_or_empty (c : option string) : string :=
  match c with Some s => s | None => "" end.

Definition generate_summary (text : string) : string :=
  if String.eqb text "" || (String.length (strip text) <? 50)%nat then
    _fallback_summary text
  else
    let snippet := take 3000 text in
    let provider := _preferred_provider in
    if String.eqb provider "openai" then
      if String.eqb (openai_api_key settings) "" then _fallback_summary text
      else
        match openai_chat (summary_prompt snippet) with
        | Some content => take 300 (content_or_empty content)
        | None => _fallback_summary text
        end
    else
      match ollama_chat (summary_prompt snippet) with
      | Some content => take 300 (content_or_empty content)
      | None => _fallback_summary text
      end.

End WithProviders.

End Embedder.

(* ------------------------------------------------------------------ *)
(** * Paths and the file system *)

Module Fs.

(** Index just after the last occurrence of [c] in [l] (0 if none),
    scanning from position [i]. *)
Fixpoint after_last (c : ascii) (l : list ascii) (i acc : nat) : nat :=
  match l with
  | [] => acc
  | x :: r => after_last c r (S i) (if Ascii.eqb x c then S i else acc)
  end.

(** [Path(p).name]: the last component of a normalised path. *)
Definition name (p : string) : string :=
  let k := after_last "/"%char (list_ascii_of_string p) 0 0 in
  substring k (String.length p - k) p.

(** [Path(p).parent] as a string (paths are absolute and normalised). *)
Definition parent (p : string) : string :=
  let k := after_last "/"%char (list_ascii_of_string p) 0 0 in
  substring 0 (k - 1) p.

(** [root / name] *)
Definition join (root n : string) : string := root ++ "/" ++ n.

(** pathlib: [i = name.rfind('.')]; the suffix is [name[i:]] when
    [0 < i < len(name) - 1], else [""]. *)
Definition rfind_dot (n : string) : option nat :=
  match after_last "."%char (list_ascii_of_string n) 0 0 with
  | O => None
  | S i => Some i
  end.

Definition suffix (p : string) : string :=
  let n := name p in
  match rfind_dot n with
  | Some i => if (0 <? i)%nat && (i <? String.length n - 1)%nat
              then substring i (String.length n - i) n else ""
  | None => ""
  end.

Definition stem (p : string) : string :=
  let n := name p in
  let sfx := suffix p in
  substring 0 (String.length n - String.length sfx) n.

(** The file system: regular files with their bytes, directories, and
    the paths whose move is refused by the OS (permission errors). *)
Record FS := mkFS {
  fs_files : list (string * list byte);
  fs_dirs : list string;
  fs_locked : list string
}.

Definition lookup_file (fs : FS) (p : string) : option (list byte) :=
  match find (fun e => String.eqb (fst e) p) (fs_files fs) with
  | Some (_, b) => Some b
  | None => None
  end.

Definition is_file (fs : FS) (p : string) : bool :=
  existsb (fun e => String.eqb (fst e) p) (fs_files fs).

Definition is_dir (fs : FS) (p : string) : bool :=
  existsb (String.eqb p) (fs_dirs fs).

(** [Path(p).exists()]; [Path("")] is [Path(".")], which exists. *)
Definition exists_ (fs : FS) (p : string) : bool :=
  String.eqb p "" || is_file fs p || is_dir fs p.

(** [Path(p).mkdir(parents=True, exist_ok=True)]: raises when [p] is an
    existing regular file. *)
Definition mkdir (fs : FS) (p : string) : option FS :=
  if is_file fs p then None
  else if is_dir fs p then Some fs
  else Some (mkFS (fs_files fs) (fs_dirs fs ++ [p]) (fs_locked fs)).

(** [prefix ++ rest] renamed to [dst ++ rest] when [p] is [src] or lies
    under [src]. *)
Definition rebase (src dst p : string) : string :=
  if String.eqb p src then dst
  else if String.prefix (src ++ "/") p then
    dst ++ substring (String.length src) (String.length p - String.length src) p
  else p.

(** [shutil.move(src, dst)] for a destination that does not exist: a
    rename of the file or of the directory tree at [src]; raises when
    [src] does not exist or is locked, and when a directory would be
    moved into itself. *)
Definition move (fs : FS) (src dst : string) : option FS :=
  if existsb (String.eqb src) (fs_locked fs) then None
  else if String.prefix (src ++ "/") dst then None
  else if is_file fs src || is_dir fs src then
    Some (mkFS (map (fun e => (rebase src dst (fst e), snd e)) (fs_files fs))
               (map (rebase src dst) (fs_dirs fs))
               (fs_locked fs))
  else None.

(** Entries whose parent is [d] ([any(d.iterdir())]). *)
Definition has_children (fs : FS) (d : string) : bool :=
  existsb (fun e => String.eqb (parent (fst e)) d) (fs_files fs)
  || existsb (fun e => String.eqb (parent e) d) (fs_dirs fs).

(** [d.rmdir()]: raises unless [d] is an empty directory. *)
Definition rmdir (fs : FS) (d : string) : option FS :=
  if is_dir fs d && negb (has_children fs d) then
    Some (mkFS (fs_files fs) (filter (fun e => negb (String.eqb e d)) (fs_dirs fs))
               (fs_locked fs))
  else None.

End Fs.

(* ------------------------------------------------------------------ *)
(** * extractor.py *)

Module Extractor.

Definition _DOCUMENT_EXTENSIONS : list string :=
  [".pdf"; ".txt"; ".md"; ".markdown"; ".docx"; ".csv"; ".text"; ".rst"].

Definition _CODE_EXTENSIONS : list string :=
  [".py"; ".pyi"; ".pyw"; ".js"; ".mjs"; ".cjs"; ".jsx"; ".ts"; ".mts";
   ".cts"; ".tsx"; ".swift"; ".java"; ".kt"; ".kts"; ".c"; ".h"; ".cpp";
   ".cc"; ".cxx"; ".hpp"; ".hxx"; ".hh"; ".cs"; ".go"; ".rs"; ".rb"; ".erb";
   ".php"; ".scala"; ".sbt"; ".r"; ".R"; ".m"; ".lua"; ".pl"; ".pm"; ".dart";
   ".zig"; ".v"; ".nim"; ".ex"; ".exs"; ".clj"; ".cljs"; ".cljc"; ".edn";
   ".hs"; ".lhs"; ".erl"; ".hrl"; ".fs"; ".fsx"; ".fsi"; ".ml"; ".mli";
   ".jl"; ".groovy"; ".gradle"; ".pas"; ".pp"; ".vb"; ".vbs"; ".d"; ".f90";
   ".f95"; ".f03"; ".lisp"; ".cl"; ".el"; ".rkt"; ".tcl"; ".awk"; ".coffee";
   ".vue"; ".svelte"; ".html"; ".htm"; ".xhtml"; ".css"; ".scss"; ".sass";
   ".less"; ".xml"; ".xsl"; ".xsd"; ".svg"; ".json"; ".jsonc"; ".json5";
   ".yaml"; ".yml"; ".toml"; ".ini"; ".cfg"; ".env"; ".env.example";
   ".properties"; ".plist"; ".editorconfig"; ".sh"; ".bash"; ".zsh"; ".fish";
   ".ps1"; ".psm1"; ".bat"; ".cmd"; ".sql"; ".graphql"; ".gql"; ".proto";
   ".tex"; ".bib"; ".log"; ".org"; ".adoc"; ".asciidoc"; ".diff"; ".patch";
   ".cmake"; ".makefile"; ".dockerfile"; ".tf"; ".tfvars"; ".hcl"; ".prisma";
   ".sol"; ".move"; ".wgsl"; ".glsl"; ".hlsl"].

Definition _PLAIN_TEXT_NAMES : list string :=
  ["makefile"; "dockerfile"; "vagrantfile"; "gemfile"; "rakefile";
   "procfile"; "justfile"; "cmakelists.txt"; ".gitignore"; ".gitattributes";
   ".dockerignore"; ".editorconfig"; ".eslintrc"; ".prettierrc"; ".babelrc"].

Definition SUPPORTED_EXTENSIONS : list string :=
  _DOCUMENT_EXTENSIONS ++ _CODE_EXTENSIONS.

Definition mem (s : string) (l : list string) : bool := existsb (String.eqb s) l.

Record ExtractionResult := mkResult {
  text : string;
  word_count : Z;
  page_count : Z;
  file_type : string;
  content_hash : string;
  size_bytes : Z
}.

Definition is_supported (path : string) : bool :=
  let n := Fs.name path in
  if starts_with_dot n then mem (lower n) _PLAIN_TEXT_NAMES
  else if mem (lower (Fs.suffix path)) SUPPORTED_EXTENSIONS then true
  else mem (lower n) _PLAIN_TEXT_NAMES.

(** The text after a tag [<[^>]+>] opened just before [m]: [None] when
    no such tag starts here. *)
Fixpoint close_tag (m : list ascii) (seen : bool) : option (list ascii) :=
  match m with
  | [] => None
  | d :: m' =>
      if Ascii.eqb d ">"%char then (if seen then Some m' else None)
      else close_tag m' true
  end.

(** [re.sub(r"<[^>]+>", "", html)]; every step consumes at least one
    character, so [length l] is enough fuel. *)
Fixpoint strip_tags_aux (fuel : nat) (l : list ascii) : list ascii :=
  match fuel with
  | O => l
  | S f =>
      match l with
      | [] => []
      | c :: r =>
          if Ascii.eqb c "<"%char then
            match close_tag r false with
            | Some rest => strip_tags_aux f rest
            | None => c :: strip_tags_aux f r
            end
          else c :: strip_tags_aux f r
      end
  end.

Definition strip_tags (s : string) : string :=
  let l := list_ascii_of_string s in
  string_of_list_ascii (strip_tags_aux (List.length l) l).

Fixpoint join_str (sep : string) (l : list string) : string :=
  match l with
  | [] => ""
  | [x] => x
  | x :: r => x ++ sep ++ join_str sep r
  end.

(** [suffix.lstrip(".")] *)
Fixpoint lstrip_dots (s : string) : string :=
  match s with
  | String c r => if Ascii.eqb c "."%char then lstrip_dots r else s
  | EmptyString => EmptyString
  end.

Section WithLibraries.

(** [hashlib.sha256(...).hexdigest()] over the byte stream. *)
Variable sha256_hexdigest : list byte -> string.
(** [chardet.detect] followed by [raw.decode(encoding, errors="replace")];
    [None] when it raises. *)
Variable chardet_decode : list byte -> option string.
(** PyMuPDF: the text of each page; [None] when opening or reading raises. *)
Variable pdf_pages : list byte -> option (list string).
(** [markdown.markdown]; [None] when it raises. *)
Variable markdown_html : string -> option string.
(** python-docx: the text of each paragraph; [None] when it raises. *)
Variable docx_paragraphs : list byte -> option (list string).
(** pandas [read_csv(nrows=200)]: the column names, the row count, the
    rendering of [head(10)] and of [describe(include="all")];
    [None] when reading or rendering raises. *)
Variable read_csv : list byte -> option (list string * nat * string * string).

Definition compute_hash (fs : Fs.FS) (path : string) : option string :=
  match Fs.lookup_file fs path with
  | Some b => Some (sha256_hexdigest b)
  | None => None
  end.

Definition _extract_text (fs : Fs.FS) (path : string) : string :=
  match Fs.lookup_file fs path with
  | Some raw => match chardet_decode raw with Some t => t | None => "" end
  | None => ""
  end.

Definition _extract_pdf (fs : Fs.FS) (path : string) : string * Z :=
  match Fs.lookup_file fs path with
  | Some b =>
      match pdf_pages b with
      | Some parts => (join_str nl parts, Z.of_nat (List.length parts))
      | None => ("", 0%Z)
      end
  | None => ("", 0%Z)
  end.

Definition _extract_markdown (fs : Fs.FS) (path : string) : string :=
  let raw := _extract_text fs path in
  match markdown_html raw with
  | Some html => strip_tags html
  | None => _extract_text fs path
  end.

Definition _extract_docx (fs : Fs.FS) (path : string) : string * Z :=
  match Fs.lookup_file fs path with
  | Some b =>
      match docx_paragraphs b with
      | Some ps =>
          let paragraphs := filter (fun p => negb (String.eqb (strip p) "")) ps in
          let total_chars := fold_left (fun acc p => acc + String.length p)%nat
                               paragraphs 0%nat in
          (join_str nl paragraphs, Z.max 1 (Z.of_nat total_chars / 3000))
      | None => ("", 0%Z)
      end
  | None => ("", 0%Z)
  end.

Definition _extract_csv (fs : Fs.FS) (path : string) : string :=
  match Fs.lookup_file fs path with
  | Some b =>
      match read_csv b with
      | Some (cols, rows, head, desc) =>
          join_str nl
            ["Columns: " ++ join_str ", " cols;
             "Rows: " ++ nat_to_string rows;
             "Sample data:" ++ nl ++ head;
             "Statistics:" ++ nl ++ desc]
      | None => ""
      end
  | None => ""
  end.

(** [extract(path)]: [path.stat()] and [compute_hash] run first and are
    not guarded, so a path that is not a readable regular file raises
    ([None]). *)
Definition extract (fs : Fs.FS) (path : string) : option ExtractionResult :=
  let sfx := lower (Fs.suffix path) in
  if negb (Fs.exists_ fs path) then None else
  match compute_hash fs path, Fs.lookup_file fs path with
  | Some content_hash, Some bytes =>
      let size := Z.of_nat (List.length bytes) in
      let '(text, pages) :=
        if String.eqb sfx ".pdf" then _extract_pdf fs path
        else if mem sfx [".txt"; ".text"; ".rst"] then (_extract_text fs path, 1%Z)
        else if mem sfx [".md"; ".markdown"] then (_extract_markdown fs path, 1%Z)
        else if String.eqb sfx ".docx" then _extract_docx fs path
        else if String.eqb sfx ".csv" then (_extract_csv fs path, 1%Z)
        else if mem sfx _CODE_EXTENSIONS || mem (lower (Fs.name path)) _PLAIN_TEXT_NAMES
        then (_extract_text fs path, 1%Z)
        else ("", 0%Z) in
      let word_count := if String.eqb text "" then 0%Z
                        else Z.of_nat (List.length (split_words text)) in
      Some (mkResult text word_count pages (lstrip_dots sfx) content_hash size)
  | _, _ => None
  end.

End WithLibraries.

End Extractor.

(* ------------------------------------------------------------------ *)
(** * db.py: the per-root SQLite store *)

Module Db.

Record FileRecord := mkFile {
  id : Z;
  filename : string;
  original_path : string;
  current_path : string;
  content_hash : string;
  embedding : option vec;
  umap_x : Q;
  umap_y : Q;
  cluster_id : Z;
  summary : string;
  file_type : string;
  size_bytes : Z;
  word_count : Z;
  page_count : Z;
  created_at : string;
  modified_at : string
}.

(** [ClusterRecord]; [id] and [created_at] are prefixed to keep them apart
    from the fields of [FileRecord]. *)
Record ClusterRecord := mkCluster {
  cl_id : Z;
  name : string;
  description : string;
  folder_path : string;
  centroid : option vec;
  file_count : Z;
  cl_created_at : string
}.

Record Event := mkEvent {
  ev_file_id : Z;
  event_type : string;
  detail : string
}.

(** Table [files] in ascending [id], table [clusters] in ascending [id],
    the event log in insertion order, and the AUTOINCREMENT counter. *)
Record Store := mkStore {
  files : list FileRecord;
  clusters : list ClusterRecord;
  events : list Event;
  next_id : Z
}.

Definition set_files (st : Store) (fs : list FileRecord) : Store :=
  mkStore fs (clusters st) (events st) (next_id st).

Definition map_file (st : Store) (file_id : Z) (g : FileRecord -> FileRecord)
  : Store :=
  set_files st (map (fun f => if (id f =? file_id)%Z then g f else f) (files st)).

(** [SELECT * FROM files WHERE original_path=? OR current_path=?] *)
Definition get_file_by_path (st : Store) (path : string) : option FileRecord :=
  find (fun f => String.eqb (original_path f) path
                 || String.eqb (current_path f) path) (files st).

Definition get_file_by_id (st : Store) (file_id : Z) : option FileRecord :=
  find (fun f => (id f =? file_id)%Z) (files st).

(** [... WHERE content_hash=? ORDER BY id DESC LIMIT 1] *)
Definition get_file_by_hash (st : Store) (h : string) : option FileRecord :=
  find (fun f => String.eqb (content_hash f) h) (rev (files st)).

Definition delete_file_by_path (st : Store) (path : string) : Store :=
  set_files st (filter (fun f => negb (String.eqb (original_path f) path
                                       || String.eqb (current_path f) path))
                       (files st)).

Definition delete_file_by_id (st : Store) (file_id : Z) : Store :=
  set_files st (filter (fun f => negb (id f =? file_id)%Z) (files st)).

Definition with_cluster_id (c : Z) (f : FileRecord) : FileRecord :=
  mkFile (id f) (filename f) (original_path f) (current_path f) (content_hash f)
    (embedding f) (umap_x f) (umap_y f) c (summary f) (file_type f)
    (size_bytes f) (word_count f) (page_count f) (created_at f) (modified_at f).

Definition with_umap (x y : Q) (f : FileRecord) : FileRecord :=
  mkFile (id f) (filename f) (original_path f) (current_path f) (content_hash f)
    (embedding f) x y (cluster_id f) (summary f) (file_type f)
    (size_bytes f) (word_count f) (page_count f) (created_at f) (modified_at f).

Definition with_current_path (p : string) (f : FileRecord) : FileRecord :=
  mkFile (id f) (filename f) (original_path f) p (content_hash f)
    (embedding f) (umap_x f) (umap_y f) (cluster_id f) (summary f) (file_type f)
    (size_bytes f) (word_count f) (page_count f) (created_at f) (modified_at f).

Definition with_filename (n : string) (f : FileRecord) : FileRecord :=
  mkFile (id f) n (original_path f) (current_path f) (content_hash f)
    (embedding f) (umap_x f) (umap_y f) (cluster_id f) (summary f) (file_type f)
    (size_bytes f) (word_count f) (page_count f) (created_at f) (modified_at f).

Definition update_file_cluster (st : Store) (file_id c : Z) : Store :=
  map_file st file_id (with_cluster_id c).

Definition update_file_umap (st : Store) (file_id : Z) (x y : Q) : Store :=
  map_file st file_id (with_umap x y).

Definition update_file_current_path (st : Store) (file_id : Z) (p : string) : Store :=
  map_file st file_id (with_current_path p).

Definition update_file_filename (st : Store) (file_id : Z) (n : string) : Store :=
  map_file st file_id (with_filename n).

Definition update_file_paths (st : Store) (file_id : Z)
    (orig cur fname modified : string) : Store :=
  map_file st file_id (fun f =>
    mkFile (id f) fname orig cur (content_hash f)
      (embedding f) (umap_x f) (umap_y f) (cluster_id f) (summary f) (file_type f)
      (size_bytes f) (word_count f) (page_count f) (created_at f) modified).

(** [INSERT ... ON CONFLICT(original_path) DO UPDATE SET ...] followed by
    [SELECT id FROM files WHERE original_path=?]. *)
Definition upsert_file (st : Store) (f : FileRecord) : Z * Store :=
  match find (fun g => String.eqb (original_path g) (original_path f)) (files st) with
  | Some g =>
      (id g,
       map_file st (id g) (fun g =>
         mkFile (id g) (filename f) (original_path g) (current_path f)
           (content_hash f) (embedding f) (umap_x f) (umap_y f) (cluster_id f)
           (summary f) (file_type f) (size_bytes f) (word_count f)
           (page_count f) (created_at g) (modified_at f)))
  | None =>
      let i := next_id st in
      (i, mkStore (files st ++
                   [mkFile i (filename f) (original_path f) (current_path f)
                      (content_hash f) (embedding f) (umap_x f) (umap_y f)
                      (cluster_id f) (summary f) (file_type f) (size_bytes f)
                      (word_count f) (page_count f) (created_at f) (modified_at f)])
                  (clusters st) (events st) (i + 1)%Z)
  end.

Fixpoint insert_cluster (c : ClusterRecord) (l : list ClusterRecord)
  : list ClusterRecord :=
  match l with
  | [] => [c]
  | d :: r =>
      if (cl_id c =? cl_id d)%Z then c :: r
      else if (cl_id c <? cl_id d)%Z then c :: l
      else d :: insert_cluster c r
  end.

(** [INSERT OR REPLACE INTO clusters ...] *)
Definition upsert_cluster (st : Store) (c : ClusterRecord) : Store :=
  mkStore (files st) (insert_cluster c (clusters st)) (events st) (next_id st).

Definition add_event (st : Store) (file_id : Z) (event_type detail : string) : Store :=
  mkStore (files st) (clusters st) (events st ++ [mkEvent file_id event_type detail])
          (next_id st).

End Db.

(* ------------------------------------------------------------------ *)
(** * sync.py *)

Module Sync.

(** Module globals [_sync_lock] and [_recently_synced_paths].  The TTL
    timers that later discard synced paths run on other threads and are
    not modelled; neither is [asyncio.sleep]. *)
Record SyncState := mkSync {
  sync_lock : bool;
  recently_synced : list string
}.

Definition set_sync_lock (locked : bool) (ss : SyncState) : SyncState :=
  mkSync locked (recently_synced ss).

Definition _add_synced_paths (paths : list string) (ss : SyncState) : SyncState :=
  mkSync (sync_lock ss)
    (fold_left (fun acc p => if existsb (String.eqb p) acc then acc else app acc [p])
               paths (recently_synced ss)).

(** One value of [file_cluster_map]; a missing or empty path is [""]. *)
Record PlanEntry := mkEntry {
  e_current_path : string;
  e_original_path : string;
  e_filename : string;
  e_cluster_id : Z
}.

(** [{"file_id": fid, "from": src, "to": dst}] *)
Definition Move : Type := (Z * string * string)%type.

Fixpoint lookup_name (cid : Z) (l : list (Z * string)) : option string :=
  match l with
  | [] => None
  | (k, v) :: r => if (k =? cid)%Z then Some v else lookup_name cid r
  end.

(** The source resolution of the loop body: [current], then [original]
    (each only when the string is non-empty), then [root / filename]. *)
Definition resolve_source (fs : Fs.FS) (root : string) (info : PlanEntry)
  : option string :=
  let current := e_current_path info in
  let original := e_original_path info in
  if negb (String.eqb current "") && Fs.exists_ fs current then Some current
  else if negb (String.eqb original "") && Fs.exists_ fs original then Some original
  else
    let fallback := Fs.join root (e_filename info) in
    if Fs.exists_ fs fallback then Some fallback else None.

(** [while target_path.exists(): target_path = folder / f"{stem}_{counter}{suffix}"].
    The fuel (one more than the number of entries of the file system)
    is never exhausted: distinct candidates cannot all exist. *)
Fixpoint next_free (fuel : nat) (fs : Fs.FS) (folder stem sfx : string)
    (counter : nat) : string :=
  let cand := Fs.join folder (stem ++ "_" ++ nat_to_string counter ++ sfx) in
  match fuel with
  | O => cand
  | S f => if Fs.exists_ fs cand then next_free f fs folder stem sfx (S counter)
           else cand
  end.

Definition collision_free (fs : Fs.FS) (folder target : string) : string :=
  if Fs.exists_ fs target then
    next_free (S (List.length (Fs.fs_files fs) + List.length (Fs.fs_dirs fs)))
      fs folder (Fs.stem target) (Fs.suffix target) 1
  else target.

(** Body of the [for fid, info in file_cluster_map.items()] loop.
    [None] is an exception escaping the loop ([target_folder.mkdir]);
    the exception of [shutil.move] is caught. *)
Definition sync_entry (root : string) (cluster_names : list (Z * string))
    (acc : Fs.FS * SyncState * list Move) (item : Z * PlanEntry)
  : option (Fs.FS * SyncState * list Move) :=
  let '(fs, ss, moves) := acc in
  let '(fid, info) := item in
  let target_folder_name :=
    match lookup_name (e_cluster_id info) cluster_names with
    | Some n => n
    | None => "Uncategorised"
    end in
  let target_folder := Fs.join root target_folder_name in
  match Fs.mkdir fs target_folder with
  | None => None
  | Some fs =>
      let target_path := Fs.join target_folder (e_filename info) in
      match resolve_source fs root info with
      | None => Some (fs, ss, moves)
      | Some source =>
          if String.eqb source target_path then Some (fs, ss, moves)
          else
            let target_path := collision_free fs target_folder target_path in
            let ss := _add_synced_paths [source; target_path] ss in
            match Fs.move fs source target_path with
            | Some fs' => Some (fs', ss, app moves [(fid, source, target_path)])
            | None => Some (fs, ss, moves)
            end
      end
  end.

Fixpoint sync_loop (root : string) (cluster_names : list (Z * string))
    (acc : Fs.FS * SyncState * list Move) (plan : list (Z * PlanEntry))
  : (Fs.FS * SyncState * list Move) + (Fs.FS * SyncState) :=
  match plan with
  | [] => inl acc
  | item :: rest =>
      match sync_entry root cluster_names acc item with
      | Some acc' => sync_loop root cluster_names acc' rest
      | None => let '(fs, ss, _) := acc in inr (fs, ss)
      end
  end.

Fixpoint mkdir_all (fs : Fs.FS) (folders : list string) : Fs.FS + Fs.FS :=
  match folders with
  | [] => inl fs
  | d :: r => match Fs.mkdir fs d with
              | Some fs' => mkdir_all fs' r
              | None => inr fs
              end
  end.

(** Path ordering of pathlib: lexicographic on the components. *)
Fixpoint split_on_slash_aux (l : list ascii) (cur : list ascii) : list string :=
  match l with
  | [] => [string_of_list_ascii (rev cur)]
  | c :: r => if Ascii.eqb c "/"%char
              then string_of_list_ascii (rev cur) :: split_on_slash_aux r []
              else split_on_slash_aux r (c :: cur)
  end.

Definition parts (p : string) : list string :=
  split_on_slash_aux (list_ascii_of_string p) [].

Fixpoint parts_le (a b : list string) : bool :=
  match a, b with
  | [], _ => true
  | _ :: _, [] => false
  | x :: a', y :: b' =>
      match String.compare x y with
      | Lt => true
      | Gt => false
      | Eq => parts_le a' b'
      end
  end.

Fixpoint insert_sorted (p : string) (l : list string) : list string :=
  match l with
  | [] => [p]
  | q :: r => if parts_le (parts p) (parts q) then p :: l else q :: insert_sorted p r
  end.

Definition sort_paths (l : list string) : list string :=
  fold_right insert_sorted [] l.

(** [sorted(root.rglob("*"), reverse=True)] *)
Definition rglob_reversed (fs : Fs.FS) (root : string) : list string :=
  rev (sort_paths (filter (String.prefix (root ++ "/"))
                          (app (map fst (Fs.fs_files fs)) (Fs.fs_dirs fs)))).

Definition _cleanup_empty_dirs (fs : Fs.FS) (root : string) (keep_names : list string)
  : Fs.FS :=
  fold_left (fun fs d =>
      if Fs.is_dir fs d && negb (String.eqb d root) then
        if existsb (String.eqb (Fs.name d)) keep_names && String.eqb (Fs.parent d) root
        then fs
        else if negb (Fs.has_children fs d) then
          match Fs.rmdir fs d with Some fs' => fs' | None => fs end
        else fs
      else fs)
    (rglob_reversed fs root) fs.

(** [sync_files_to_folders(file_cluster_map, cluster_names, root)]:
    [inl moves] is a normal return, [inr tt] an exception; the final file
    system and sync state are returned in both cases ([finally] releases
    the lock). *)
Definition sync_files_to_folders (fs : Fs.FS) (ss : SyncState)
    (file_cluster_map : list (Z * PlanEntry)) (cluster_names : list (Z * string))
    (root : string) : (list Move + unit) * Fs.FS * SyncState :=
  let ss := set_sync_lock true ss in
  match mkdir_all fs (map (fun e => Fs.join root (snd e)) cluster_names) with
  | inr fs => (inr tt, fs, set_sync_lock false ss)
  | inl fs =>
      match sync_loop root cluster_names (fs, ss, []) file_cluster_map with
      | inr (fs, ss) => (inr tt, fs, set_sync_lock false ss)
      | inl (fs, ss, moves) =>
          let fs := _cleanup_empty_dirs fs root (map snd cluster_names) in
          (inl moves, fs, set_sync_lock false ss)
      end
  end.

End Sync.

(* ------------------------------------------------------------------ *)
(** * clusterer.py *)

Module Clusterer.

Definition MIN_FILES_FOR_CLUSTERING : nat := 3.
Definition NOISE_SIMILARITY_THRESHOLD : Q := 40 # 100.
Definition SMALL_COLLECTION_THRESHOLD : nat := 25.

(** Python [sorted(set(l))] on integers. *)
Fixpoint insert_Z (x : Z) (l : list Z) : list Z :=
  match l with
  | [] => [x]
  | y :: r => if (x =? y)%Z then l
              else if (x <? y)%Z then x :: l else y :: insert_Z x r
  end.

Definition sorted_unique (l : list Z) : list Z := fold_right insert_Z [] l.

Definition count (x : Z) (l : list Z) : nat :=
  List.length (filter (Z.eqb x) l).

Fixpoint index_of (x : Z) (l : list Z) : Z :=
  match l with
  | [] => (-1)%Z
  | y :: r => if (x =? y)%Z then 0%Z else (1 + index_of x r)%Z
  end.

Section WithSqrt.

(** The floating-point square root behind [np.linalg.norm] and the row
    norms of scikit-learn, left abstract: every statement about the
    clusterer holds for any square-root function, the one of the
    floats included. *)
Variable np_sqrt : Q -> Q.

(** [np.linalg.norm] *)
Definition norm (a : vec) : Q := np_sqrt (dot a a).

(** [sklearn.preprocessing.normalize]: rows of norm 0 are kept. *)
Definition l2_normalize (a : vec) : vec :=
  let n := norm a in
  if Qeq_bool n 0 then a else vscale (/ n) a.

(** [cosine_distances(X)]: [clip(1 - cos, 0, 2)], diagonal set to 0. *)
Definition cosine_distances (X : list vec) : list (list Q) :=
  let Xn := map l2_normalize X in
  map (fun i =>
         map (fun j =>
                if Nat.eqb i j then 0%Q
                else
                  let d := (1 - dot (nth i Xn []) (nth j Xn []))%Q in
                  if Qlt_le_dec d 0 then 0%Q
                  else if Qlt_le_dec 2 d then 2%Q else d)
             (seq 0 (List.length X)))
      (seq 0 (List.length X)).

(** Singleton clusters demoted to [-1], then the remaining labels
    renumbered [0, 1, ...] in increasing order of the old label. *)
Definition demote_and_renumber (labels : list Z) : list Z :=
  let labels := map (fun l => if Nat.eqb (count l labels) 1 then (-1)%Z else l) labels in
  let unique_labels := sorted_unique (filter (fun l => negb (l =? -1)%Z) labels) in
  map (fun l => if (l =? -1)%Z then (-1)%Z else index_of l unique_labels) labels.

(** [np.where(norms == 0, 1, norms)] then [embeddings / norms]. *)
Definition normalize_rows (E : list vec) : list vec := map l2_normalize E.

(** Cosine similarity of [_assign_noise_smart]. *)
Definition smart_sim (e c : vec) : Q :=
  (dot e c / (norm e * norm c + (1 # 10000000000)))%Q.

(** Column mean of the rows of a matrix (rows of one length). *)
Definition row_mean (rows : list vec) : vec :=
  match vmean rows with Some m => m | None => [] end.

Definition centroids_of (labels : list Z) (E : list vec) : list (Z * vec) :=
  map (fun cid =>
         (cid, row_mean (map snd (filter (fun p => (fst p =? cid)%Z) (combine labels E)))))
      (sorted_unique (filter (fun l => negb (l =? -1)%Z) labels)).

(** The loop over [centroids.items()]: strict improvement from [-1]. *)
Definition best_cluster (centroids : list (Z * vec)) (emb : vec) : Q * Z :=
  fold_left (fun acc cc =>
               let sim := smart_sim emb (snd cc) in
               if Qlt_le_dec (fst acc) sim then (sim, fst cc) else acc)
            centroids ((-1)%Q, (-1)%Z).

Definition _assign_noise_smart (labels : list Z) (E : list vec) : list Z :=
  if forallb (fun l => negb (l =? -1)%Z) labels then labels
  else if forallb (fun l => (l =? -1)%Z) labels then map (fun _ => 0%Z) labels
  else
    let centroids := centroids_of labels E in
    map (fun p =>
           let '(l, emb) := p in
           if (l =? -1)%Z then
             let '(best_sim, best_cid) := best_cluster centroids emb in
             if Qle_bool NOISE_SIMILARITY_THRESHOLD best_sim then best_cid else l
           else l)
        (combine labels E).

Section WithLibraries.

(** [AgglomerativeClustering(metric="precomputed", linkage="average",
    distance_threshold=0.52).fit_predict] on a distance matrix. *)
Variable agglomerative_fit_predict : list (list Q) -> option (list Z).
(** [hdbscan.HDBSCAN(min_cluster_size, min_samples, ...).fit_predict]. *)
Variable hdbscan_fit_predict : nat -> nat -> list vec -> option (list Z).
(** [umap.UMAP(n_neighbors=..., ...).fit_transform] and the PCA fallback. *)
Variable umap_fit_transform : nat -> list vec -> option (list (Q * Q)).
Variable pca_fit_transform : list vec -> option (list (Q * Q)).
(** [np.cos], [np.sin] and [np.pi]. *)
Variable np_cos np_sin : Q -> Q.
Variable np_pi : Q.

Definition _agglomerative_fallback (E : list vec) : list Z :=
  match agglomerative_fit_predict (cosine_distances E) with
  | Some labels => demote_and_renumber labels
  | None => map (fun _ => 0%Z) E
  end.

Definition _run_hdbscan (E : list vec) (min_cluster_size min_samples : nat) : list Z :=
  match hdbscan_fit_predict (Nat.max min_cluster_size 2) (Nat.max min_samples 2)
                            (normalize_rows E) with
  | Some labels => labels
  | None => _agglomerative_fallback E
  end.

Definition _umap_2d (E : list vec) (n : nat) : option (list (Q * Q)) :=
  let n_neighbors := if (2 <? n)%nat then Nat.min 15 (n - 1) else 2%nat in
  match umap_fit_transform n_neighbors E with
  | Some c => Some c
  | None => pca_fit_transform E
  end.

Definition _simple_2d (E : list vec) : list (Q * Q) :=
  let n := List.length E in
  if (n <=? 1)%nat then [(0%Q, 0%Q)]
  else if Nat.eqb n 2 then [(0%Q, 0%Q); (1%Q, 0%Q)]
  else map (fun k => let a := (2 * np_pi * inject_Z (Z.of_nat k) / inject_Z (Z.of_nat n))%Q in
                     (np_cos a, np_sin a))
           (seq 0 n).

(** [cluster_embeddings(embeddings, min_cluster_size, min_samples)] on an
    N x D matrix given by its rows; [None] is an exception (of the PCA
    fallback). *)
Definition cluster_embeddings (E : list vec) (min_cluster_size min_samples : nat)
  : option (list Z * list (Q * Q)) :=
  let n := List.length E in
  if (n <? MIN_FILES_FOR_CLUSTERING)%nat then
    Some (map (fun _ => 0%Z) E, _simple_2d E)
  else
    let labels :=
      if (n <=? SMALL_COLLECTION_THRESHOLD)%nat then _agglomerative_fallback E
      else
        let labels := _run_hdbscan E min_cluster_size min_samples in
        let labels := if forallb (fun l => (l =? -1)%Z) labels
                      then _agglomerative_fallback E else labels in
        _assign_noise_smart labels E in
    match _umap_2d E n with
    | Some coords => Some (labels, coords)
    | None => None
    end.

End WithLibraries.

End WithSqrt.

End Clusterer.

(* ------------------------------------------------------------------ *)
(** * pipeline.py: [process_file], [remove_file], [try_incremental_assign] *)

Module Pipeline.

Import Db.

(** [existing.embedding is not None and len(existing.embedding) > 0
    and np.any(existing.embedding)] *)
Definition has_valid_embedding (e : option vec) : bool :=
  match e with
  | Some v => (0 <? List.length v)%nat && any_nonzero v
  | None => false
  end.

(** [remove_file(path)]; the file-system checks use [Path(..).exists()]. *)
Definition remove_file (fs : Fs.FS) (st : Store) (path : string) : Store :=
  match get_file_by_path st path with
  | None => st
  | Some existing =>
      let moved_by_hash :=
        match get_file_by_hash st (content_hash existing) with
        | Some hash_record =>
            negb (id hash_record =? id existing)%Z
            && Fs.exists_ fs (if String.eqb (current_path hash_record) ""
                              then original_path hash_record
                              else current_path hash_record)
        | None => false
        end in
      if moved_by_hash then st
      else if negb (String.eqb (current_path existing) "")
              && negb (String.eqb (current_path existing) path)
              && Fs.exists_ fs (current_path existing)
      then st
      else add_event (delete_file_by_path st path) (id existing) "file_removed"
                     (Fs.name path)
  end.

Section WithServices.

Variables sha256_hexdigest : list byte -> string.
Variable chardet_decode : list byte -> option string.
Variable pdf_pages : list byte -> option (list string).
Variable markdown_html : string -> option string.
Variable docx_paragraphs : list byte -> option (list string).
Variable read_csv : list byte -> option (list string * nat * string * string).
Variables ollama_embed openai_embed : string -> option vec.
Variables ollama_chat openai_chat : string -> option (option string).
Variable settings : Embedder.Settings.
(** [datetime.utcnow().isoformat()] *)
Variable now : string.

Definition extract (fs : Fs.FS) (path : string) : option Extractor.ExtractionResult :=
  Extractor.extract sha256_hexdigest chardet_decode pdf_pages markdown_html
    docx_paragraphs read_csv fs path.

(** Embedding, summary, [upsert_file] and the event of [process_file]. *)
Definition store_new (st : Store) (est : Embedder.State) (path : string)
    (result : Extractor.ExtractionResult) (existing : option FileRecord)
  : option Z * Store * Embedder.State :=
  let '(embedding, est) :=
    Embedder.get_embedding ollama_embed openai_embed settings est
      (Extractor.text result) in
  let summary := Embedder.generate_summary ollama_chat openai_chat settings
                   (Extractor.text result) in
  let record :=
    mkFile 0 (Fs.name path) path path (Extractor.content_hash result)
      (Some embedding) 0 0 (-1) summary (Extractor.file_type result)
      (Extractor.size_bytes result) (Extractor.word_count result)
      (Extractor.page_count result)
      (match existing with Some e => created_at e | None => now end) now in
  let '(file_id, st) := upsert_file st record in
  let event_type := match existing with
                    | Some _ => "file_modified" | None => "file_added" end in
  (Some file_id, add_event st file_id event_type (Fs.name path), est).

(** [process_file(path)]: [None] as first component is the Python [None]
    (also returned by the [except Exception] handler). *)
Definition process_file (fs : Fs.FS) (st : Store) (est : Embedder.State)
    (path : string) : option Z * Store * Embedder.State :=
  if negb (Fs.exists_ fs path) || negb (Extractor.is_supported path) then
    (None, st, est)
  else
    match extract fs path with
    | None => (None, st, est)
    | Some result =>
        if String.eqb (strip (Extractor.text result)) "" then (None, st, est)
        else
          match get_file_by_path st path with
          | Some existing =>
              if String.eqb (content_hash existing) (Extractor.content_hash result)
              then
                let path_changed := negb (String.eqb (current_path existing) path) in
                let name_changed := negb (String.eqb (filename existing) (Fs.name path)) in
                let st := if path_changed
                          then update_file_current_path st (id existing) path else st in
                let st := if name_changed
                          then update_file_filename st (id existing) (Fs.name path) else st in
                if has_valid_embedding (embedding existing)
                then (Some (id existing), st, est)
                else store_new st est path result (Some existing)
              else store_new st est path result (Some existing)
          | None =>
              match get_file_by_hash st (Extractor.content_hash result) with
              | Some hash_existing =>
                  let st := update_file_paths st (id hash_existing) path path
                              (Fs.name path) now in
                  (Some (id hash_existing),
                   add_event st (id hash_existing) "file_modified" (Fs.name path), est)
              | None => store_new st est path result None
              end
          end
    end.

End WithServices.

(** The state [try_incremental_assign] acts on. *)
Record World := mkWorld {
  w_fs : Fs.FS;
  w_db : Store;
  w_sync : Sync.SyncState
}.

(** The live centroid of one cluster: the mean of the non-zero member
    embeddings other than [file_id], else the stored non-zero centroid. *)
Definition live_centroid (all_files : list FileRecord) (file_id : Z)
    (c : ClusterRecord) : option (option vec) :=
  let members :=
    filter (fun ff => (cluster_id ff =? cl_id c)%Z && negb (id ff =? file_id)%Z
                      && has_valid_embedding (embedding ff)) all_files in
  match members with
  | _ :: _ =>
      match vmean (map (fun ff => match embedding ff with Some e => e | None => [] end)
                       members) with
      | Some m => Some (Some m)
      | None => None
      end
  | [] =>
      match centroid c with
      | Some v => if any_nonzero v then Some (Some v) else Some None
      | None => Some None
      end
  end.

(** [cluster_centroids] in dict order; [None] when [np.mean] raises. *)
Fixpoint cluster_centroids (all_files : list FileRecord) (file_id : Z)
    (clusters : list ClusterRecord) : option (list (Z * vec)) :=
  match clusters with
  | [] => Some []
  | c :: rest =>
      match live_centroid all_files file_id c, cluster_centroids all_files file_id rest with
      | Some (Some m), Some r => Some ((cl_id c, m) :: r)
      | Some None, Some r => Some r
      | _, _ => None
      end
  end.

(** [np.pad(cent, (0, k))] or [cent[:len(emb)]]. *)
Definition reconcile (emb cent : vec) : vec :=
  if Nat.eqb (List.length cent) (List.length emb) then cent
  else if (List.length cent <? List.length emb)%nat
  then app cent (repeat 0%Q (List.length emb - List.length cent))
  else firstn (List.length emb) cent.

(** The loop for the closest cluster: pairs with a zero norm product are
    skipped, a strictly larger similarity replaces the best. *)
Definition best_match (emb : vec) (centroids : list (Z * vec)) : Q * Z :=
  fold_left (fun acc cc =>
               let cent := reconcile emb (snd cc) in
               let nrm := (norm emb * norm cent)%Q in
               if Qeq_bool nrm 0 then acc
               else
                 let sim := (dot emb cent / nrm)%Q in
                 if Qlt_le_dec (fst acc) sim then (sim, fst cc) else acc)
            centroids ((-1)%Q, (-1)%Z).

Section Incremental.

(** [settings.root_path] and the two draws of [random.uniform(-20, 20)]. *)
Variable root : string.
Variables offset_x offset_y : Q.

Definition avg (l : list Q) : Q :=
  (fold_left Qplus l 0 / inject_Z (Z.of_nat (List.length l)))%Q.

(** The move of the file into its cluster folder (inside [try/finally];
    a failing [shutil.move] is logged). *)
Definition incremental_move (w : World) (f : FileRecord) (cluster_name : string)
  : option World :=
  let target_folder := Fs.join root cluster_name in
  match Fs.mkdir (w_fs w) target_folder with
  | None => None
  | Some fs =>
      let target_path := Fs.join target_folder (filename f) in
      let source :=
        if negb (String.eqb (current_path f) "") && Fs.exists_ fs (current_path f)
        then Some (current_path f)
        else if negb (String.eqb (original_path f) "") && Fs.exists_ fs (original_path f)
        then Some (original_path f) else None in
      match source with
      | Some source =>
          if String.eqb source target_path then Some (mkWorld fs (w_db w) (w_sync w))
          else
            let ss := Sync.set_sync_lock true (w_sync w) in
            let target_path := Sync.collision_free fs target_folder target_path in
            let ss := Sync._add_synced_paths [source; target_path] ss in
            let ss' := Sync.set_sync_lock false ss in
            match Fs.move fs source target_path with
            | Some fs' =>
                let st := update_file_current_path (w_db w) (id f) target_path in
                let st := update_file_filename st (id f) (Fs.name target_path) in
                Some (mkWorld fs' st ss')
            | None => Some (mkWorld fs (w_db w) ss')
            end
      | None => Some (mkWorld fs (w_db w) (w_sync w))
      end
  end.

(** [try_incremental_assign(file_id)]: [Some b] is the returned boolean,
    [None] an exception; the world reached is returned in both cases. *)
Definition try_incremental_assign (w : World) (file_id : Z) : option bool * World :=
  let clusters := clusters (w_db w) in
  match clusters with
  | [] => (Some false, w)
  | _ :: _ =>
  match get_file_by_id (w_db w) file_id with
  | None => (Some false, w)
  | Some f =>
  match embedding f with
  | None => (Some false, w)
  | Some emb =>
  if negb (any_nonzero emb) then (Some false, w) else
  match cluster_centroids (files (w_db w)) file_id clusters with
  | None => (None, w)
  | Some [] => (Some false, w)
  | Some cents =>
  let '(best_sim, best_cid) := best_match emb cents in
  if Qlt_le_dec best_sim Clusterer.NOISE_SIMILARITY_THRESHOLD then (Some false, w)
  else
    let st := update_file_cluster (w_db w) (id f) best_cid in
    let same_cluster :=
      filter (fun ff => (cluster_id ff =? best_cid)%Z && negb (id ff =? id f)%Z)
             (files st) in
    let '(avg_x, avg_y) :=
      match same_cluster with
      | [] => (0%Q, 0%Q)
      | _ => (avg (map umap_x same_cluster), avg (map umap_y same_cluster))
      end in
    let st := update_file_umap st (id f) (avg_x + offset_x)%Q (avg_y + offset_y)%Q in
    let w := mkWorld (w_fs w) st (w_sync w) in
    match find (fun c => (cl_id c =? best_cid)%Z) clusters with
    | None => (Some true, w)
    | Some cluster_rec =>
        match incremental_move w f (name cluster_rec) with
        | None => (None, w)
        | Some w =>
            let updated_count := (Z.of_nat (List.length same_cluster) + 1)%Z in
            let all_member_embs :=
              app (map (fun ff => match embedding ff with Some e => e | None => [] end)
                       (filter (fun ff => has_valid_embedding (embedding ff)) same_cluster))
                  [emb] in
            match vmean all_member_embs with
            | None => (None, w)
            | Some new_centroid =>
                let st := upsert_cluster (w_db w)
                            (mkCluster (cl_id cluster_rec) (name cluster_rec)
                               (description cluster_rec) (folder_path cluster_rec)
                               (Some new_centroid) updated_count
                               (cl_created_at cluster_rec)) in
                (Some true, mkWorld (w_fs w) st (w_sync w))
            end
        end
    end
  end end end end.

End Incremental.

End Pipeline.

(* ------------------------------------------------------------------ *)
(** * main.py: [ReclusterScheduler] on the asyncio event loop *)

Module Scheduler.

Definition COOLDOWN_SECONDS : Q := 5.
(** [ReclusterScheduler()] uses the default [delay = 2.0]. *)
Definition _delay : Q := 2.

(** Where a task created by [request()] stands: in
    [asyncio.sleep(self._delay)] until a wake-up time, waiting for
    [self._lock], or inside [await pipeline.run_clustering()]. *)
Inductive Phase := Sleeping (wake : Q) | Waiting | Running.

(** The scheduler's fields, the clock ([time.monotonic()]) and the live
    tasks it created (a done or cancelled task is removed). *)
Record Sched := mkSched {
  now : Q;
  _pending : bool;
  _lock : option nat;
  _timer_task : option nat;
  _last_completed : Q;
  tasks : list (nat * Phase);
  next_task : nat
}.

Definition init (t0 : Q) : Sched := mkSched t0 false None None 0 [] 0.

Definition is_task (t : nat) (tp : nat * Phase) : bool := Nat.eqb (fst tp) t.

(** [request()]: set [_pending]; cancel the timer task if it is not done
    (a cancelled task holding the lock releases it when [async with]
    exits); start a new timer task. *)
Definition request (s : Sched) : Sched :=
  let live := match _timer_task s with
              | Some t => filter (fun tp => negb (is_task t tp)) (tasks s)
              | None => tasks s
              end in
  let lock := match _timer_task s, _lock s with
              | Some t, Some l => if Nat.eqb t l then None else _lock s
              | _, _ => _lock s
              end in
  mkSched (now s) true lock (Some (next_task s)) (_last_completed s)
    (app live [(next_task s, Sleeping (now s + _delay)%Q)]) (S (next_task s)).

Definition set_phase (s : Sched) (t : nat) (p : Phase) : Sched :=
  mkSched (now s) (_pending s) (_lock s) (_timer_task s) (_last_completed s)
    (map (fun tp => if is_task t tp then (t, p) else tp) (tasks s)) (next_task s).

(** [self._last_completed > 0 and elapsed < self.COOLDOWN_SECONDS] *)
Definition in_cooldown (s : Sched) : bool :=
  negb (Qle_bool (_last_completed s) 0)
  && negb (Qle_bool COOLDOWN_SECONDS (now s - _last_completed s)).

(** Leaving [async with self._lock]: the task is done. *)
Definition exit_task (s : Sched) (t : nat) : Sched :=
  mkSched (now s) (_pending s) None (_timer_task s) (_last_completed s)
    (filter (fun tp => negb (is_task t tp)) (tasks s)) (next_task s).

Definition clear_pending (s : Sched) : Sched :=
  mkSched (now s) false (_lock s) (_timer_task s) (_last_completed s) (tasks s)
    (next_task s).

(** One pass of [while self._pending:] run by task [t] holding the lock:
    either it leaves the loop, or it starts [run_clustering]. *)
Definition loop_starts (s : Sched) : bool := _pending s && negb (in_cooldown s).

Definition exec_loop (s : Sched) (t : nat) : Sched :=
  if _pending s then
    let s := clear_pending s in
    if in_cooldown s then exit_task s t
    else set_phase (mkSched (now s) (_pending s) (Some t) (_timer_task s)
                      (_last_completed s) (tasks s) (next_task s)) t Running
  else exit_task s t.

(** [self._last_completed = _time.monotonic()] *)
Definition complete (s : Sched) : Sched :=
  mkSched (now s) (_pending s) (_lock s) (_timer_task s) (now s) (tasks s) (next_task s).

Definition advance (s : Sched) (d : Q) : Sched :=
  mkSched (now s + d)%Q (_pending s) (_lock s) (_timer_task s) (_last_completed s)
    (tasks s) (next_task s).

(** What an observer sees of a step: a [request()] at its time, the
    entry into the loop ([LGrant]) or the end of [run_clustering]
    ([LFinish]), each with whether a new [run_clustering] starts. *)
Inductive label := LTick | LReq (t : Q) | LWake | LGrant (starts : bool) | LFinish (starts : bool).

Inductive step : Sched -> label -> Sched -> Prop :=
| st_tick s d : (0 <= d)%Q -> step s LTick (advance s d)
| st_request s : step s (LReq (now s)) (request s)
| st_wake s t w : In (t, Sleeping w) (tasks s) -> (w <= now s)%Q ->
    step s LWake (set_phase s t Waiting)
| st_grant s t : In (t, Waiting) (tasks s) -> _lock s = None ->
    step s (LGrant (loop_starts s)) (exec_loop s t)
| st_finish s t : In (t, Running) (tasks s) ->
    step s (LFinish (loop_starts (complete s))) (exec_loop (complete s) t).

Inductive steps : Sched -> list label -> Sched -> Prop :=
| steps_nil s : steps s [] s
| steps_cons s l s1 tr s2 : step s l s1 -> steps s1 tr s2 -> steps s (l :: tr) s2.

Definition reachable (s : Sched) : Prop := exists t0 tr, steps (init t0) tr s.

(** Number of [run_clustering] calls started along a trace. *)
Definition starts_of (l : label) : nat :=
  match l with LGrant true | LFinish true => 1 | _ => 0 end.

Definition count_starts (tr : list label) : nat := fold_right (fun l n => (starts_of l + n)%nat) 0%nat tr.

Definition completes (l : label) : bool := match l with LFinish _ => true | _ => false end.

Definition running_count (s : Sched) : nat :=
  List.length (filter (fun tp => match snd tp with Running => true | _ => false end) (tasks s)).

End Scheduler.

(* ------------------------------------------------------------------ *)
(** * The documented behaviour of [sync_files_to_folders], entry by entry *)

Module SyncSpec.

(** [root / cluster_names.get(cid, "Uncategorised")] *)
Definition target_folder (root : string) (names : list (Z * string))
    (info : Sync.PlanEntry) : string :=
  Fs.join root (match Sync.lookup_name (Sync.e_cluster_id info) names with
                | Some n => n
                | None => "Uncategorised"
                end).

(** The source candidates in their documented order. *)
Definition candidates (root : string) (info : Sync.PlanEntry) : list string :=
  [Sync.e_current_path info; Sync.e_original_path info;
   Fs.join root (Sync.e_filename info)].

(** The first candidate that is a non-empty existing path. *)
Definition first_existing (fs : Fs.FS) (cands : list string) : option string :=
  find (fun p => negb (String.eqb p "") && Fs.exists_ fs p) cands.

(** What one plan entry does to the file system and which move it
    reports, once its target folder exists. *)
Inductive entry_effect (root : string) (names : list (Z * string)) (fs : Fs.FS)
    (item : Z * Sync.PlanEntry) : Fs.FS -> list Sync.Move -> Prop :=
| ee_skip fs1 :
    Fs.mkdir fs (target_folder root names (snd item)) = Some fs1 ->
    first_existing fs1 (candidates root (snd item)) = None ->
    entry_effect root names fs item fs1 []
| ee_in_place fs1 src :
    Fs.mkdir fs (target_folder root names (snd item)) = Some fs1 ->
    first_existing fs1 (candidates root (snd item)) = Some src ->
    src = Fs.join (target_folder root names (snd item)) (Sync.e_filename (snd item)) ->
    entry_effect root names fs item fs1 []
| ee_moved fs1 src fs2 :
    Fs.mkdir fs (target_folder root names (snd item)) = Some fs1 ->
    first_existing fs1 (candidates root (snd item)) = Some src ->
    src <> Fs.join (target_folder root names (snd item)) (Sync.e_filename (snd item)) ->
    let dst := Sync.collision_free fs1 (target_folder root names (snd item))
                 (Fs.join (target_folder root names (snd item)) (Sync.e_filename (snd item))) in
    Fs.move fs1 src dst = Some fs2 ->
    entry_effect root names fs item fs2 [(fst item, src, dst)]
| ee_failed fs1 src :
    Fs.mkdir fs (target_folder root names (snd item)) = Some fs1 ->
    first_existing fs1 (candidates root (snd item)) = Some src ->
    src <> Fs.join (target_folder root names (snd item)) (Sync.e_filename (snd item)) ->
    Fs.move fs1 src (Sync.collision_free fs1 (target_folder root names (snd item))
                       (Fs.join (target_folder root names (snd item))
                                (Sync.e_filename (snd item)))) = None ->
    entry_effect root names fs item fs1 [].

(** The entries of a plan, one after the other; the reported moves are
    concatenated. *)
Inductive runs (root : string) (names : list (Z * string))
  : Fs.FS -> list (Z * Sync.PlanEntry) -> Fs.FS -> list Sync.Move -> Prop :=
| runs_nil fs : runs root names fs [] fs []
| runs_cons fs item rest fs1 out fs2 ms :
    entry_effect root names fs item fs1 out ->
    runs root names fs1 rest fs2 ms ->
    runs root names fs (item :: rest) fs2 (app out ms).

End SyncSpec.

(* ------------------------------------------------------------------ *)
(** * Concrete inputs used by the examples and counterexamples *)

Module Inputs.

(** A string of [n] letters ['a']. *)
Definition a_text (n : nat) : string := string_of_list_ascii (repeat "a"%char n).

Definition ollama_settings : Embedder.Settings :=
  Embedder.mkSettings "ollama" "" "nomic-embed-text".

Definition embedder_init : Embedder.State :=
  Embedder.mkState [("ollama", None); ("openai", None)]
                   [("ollama", 768%Z); ("openai", 1536%Z)].

(** Library stand-ins for the extractor: a fixed digest, and every
    format library raising. *)
Definition sha_stub (b : list byte) : string := "digest".
Definition fail_bytes {A} (b : list byte) : option A := None.
Definition fail_md (s : string) : option string := None.

Definition fs_empty : Fs.FS := Fs.mkFS [] [] [].
Definition fs_csv : Fs.FS :=
  Fs.mkFS [("/root/data.csv", [x61; x2c; x62])] ["/root"] [].

(** [remove_file]: two records with one content hash; the older one
    lives at an existing path, the newer one at a deleted path. *)
Definition rec_A : Db.FileRecord :=
  Db.mkFile 1 "x.txt" "/root/A/x.txt" "/root/A/x.txt" "h" None 0 0 (-1) ""
    "txt" 1 1 1 "t0" "t0".
Definition rec_B : Db.FileRecord :=
  Db.mkFile 2 "y.txt" "/root/y.txt" "/root/y.txt" "h" None 0 0 (-1) ""
    "txt" 1 1 1 "t1" "t1".
Definition store_dup : Db.Store := Db.mkStore [rec_A; rec_B] [] [] 3.
Definition fs_dup : Fs.FS :=
  Fs.mkFS [("/root/A/x.txt", [x61])] ["/root"; "/root/A"] [].

Definition store_empty : Db.Store := Db.mkStore [] [] [] 1.
Definition no_embed (s : string) : option vec := None.
Definition no_chat (s : string) : option (option string) := None.

(** [try_incremental_assign]: cluster 0 holds a 2-dimensional member,
    the new file has a 3-dimensional embedding. *)
Definition f_member : Db.FileRecord :=
  Db.mkFile 1 "a.txt" "/root/Topic/a.txt" "/root/Topic/a.txt" "h1"
    (Some [1%Q; 0%Q]) 0 0 0 "" "txt" 1 1 1 "t0" "t0".
Definition f_new : Db.FileRecord :=
  Db.mkFile 2 "b.txt" "/root/b.txt" "/root/b.txt" "h2"
    (Some [1%Q; 0%Q; 0%Q]) 0 0 (-1) "" "txt" 1 1 1 "t1" "t1".
Definition cluster_topic : Db.ClusterRecord :=
  Db.mkCluster 0 "Topic" "" "/root/Topic" (Some [1%Q; 0%Q]) 1 "t0".
Definition world_mixed : Pipeline.World :=
  Pipeline.mkWorld
    (Fs.mkFS [("/root/Topic/a.txt", [x61]); ("/root/b.txt", [x62])]
             ["/root"; "/root/Topic"] [])
    (Db.mkStore [f_member; f_new] [cluster_topic] [] 3)
    (Sync.mkSync false []).

(** A model of scikit-learn's [AgglomerativeClustering] with average
    linkage and [distance_threshold=0.52] on a precomputed distance
    matrix: the two clusters of least average distance are merged while
    that distance is below the threshold (average linkage is monotone, so
    this is the cut of the dendrogram at the threshold); clusters are
    numbered by their position. *)
Definition avg_link (D : list (list Q)) (A B : list nat) : Q :=
  (fold_left Qplus (flat_map (fun i => map (fun j => nth j (nth i D []) 0%Q) B) A) 0
   / inject_Z (Z.of_nat (List.length A * List.length B)))%Q.

Definition index_pairs (n : nat) : list (nat * nat) :=
  flat_map (fun a => map (fun b => (a, b)) (seq (S a) (n - S a))) (seq 0 n).

Definition closest (D : list (list Q)) (cl : list (list nat)) : option (nat * nat * Q) :=
  fold_left (fun acc ab =>
               let d := avg_link D (nth (fst ab) cl []) (nth (snd ab) cl []) in
               match acc with
               | Some (_, _, d0) => if Qlt_le_dec d d0 then Some (fst ab, snd ab, d) else acc
               | None => Some (fst ab, snd ab, d)
               end)
            (index_pairs (List.length cl)) None.

Definition merge_clusters (a b : nat) (cl : list (list nat)) : list (list nat) :=
  let merged := app (nth a cl []) (nth b cl []) in
  let idx := seq 0 (List.length cl) in
  flat_map (fun k => if Nat.eqb k a then [merged] else if Nat.eqb k b then [] else [nth k cl []])
           idx.

Fixpoint merge_below (fuel : nat) (D : list (list Q)) (cl : list (list nat))
  : list (list nat) :=
  match fuel with
  | O => cl
  | S f =>
      match closest D cl with
      | Some (a, b, d) =>
          if Qlt_le_dec d (52 # 100) then merge_below f D (merge_clusters a b cl) else cl
      | None => cl
      end
  end.

Fixpoint cluster_index (p : nat) (cl : list (list nat)) (k : Z) : Z :=
  match cl with
  | [] => (-1)%Z
  | c :: r => if existsb (Nat.eqb p) c then k else cluster_index p r (k + 1)%Z
  end.

Definition average_linkage_fit_predict (D : list (list Q)) : option (list Z) :=
  let n := List.length D in
  let cl := merge_below n D (map (fun i => [i]) (seq 0 n)) in
  Some (map (fun p => cluster_index p cl 0%Z) (seq 0 n)).

Definition no_hdbscan (a b : nat) (E : list vec) : option (list Z) := None.
Definition flat_umap (k : nat) (E : list vec) : option (list (Q * Q)) :=
  Some (map (fun _ => (0%Q, 0%Q)) E).
Definition no_pca (E : list vec) : option (list (Q * Q)) := None.
Definition zero_fn (q : Q) : Q := 0%Q.

(** Two equal vectors and a third of norm 25 at cosine similarity
    11/25 = 0.44 from them (cosine distance 0.56 >= 0.52). *)
Definition E_small : list vec :=
  [[1; 0; 0; 0]; [1; 0; 0; 0]; [11; 22; 4; 2]]%Q.

(** Twenty-five rows [[1,0]] and a row [[3,4]] (N = 26), and an HDBSCAN
    that puts every row but the last in cluster 0 and leaves the last as
    noise. *)
Definition E_big : list vec := app (repeat [1; 0]%Q 25) [[3; 4]%Q].
Definition hdbscan_last_noise (a b : nat) (E : list vec) : option (list Z) :=
  Some (app (repeat 0%Z (List.length E - 1)) [(-1)%Z]).

(** [sync_files_to_folders]: a regular file named [Uncategorised] in the
    root, and a plan entry none of whose source paths exists. *)
Definition fs_blocked : Fs.FS :=
  Fs.mkFS [("/root/Uncategorised", [x61])] ["/root"] [].
Definition plan_gone : list (Z * Sync.PlanEntry) :=
  [(7%Z, Sync.mkEntry "" "/root/old/gone.txt" "gone.txt" 5)].

(** [ReclusterScheduler]: a request at time 1 whose run starts at 3 and
    completes at 4; then requests at 5 and 8, the second of which runs at
    10, past the cooldown. *)
Definition sched_s0 : Scheduler.Sched :=
  Scheduler.advance
    (Scheduler.exec_loop
       (Scheduler.set_phase (Scheduler.advance (Scheduler.request (Scheduler.init 1)) 2)
          0 Scheduler.Waiting) 0) 1.
Definition sched_s1 : Scheduler.Sched :=
  Scheduler.exec_loop (Scheduler.complete sched_s0) 0.
Definition sched_tr : list Scheduler.label :=
  [Scheduler.LTick; Scheduler.LReq 5; Scheduler.LTick; Scheduler.LReq 8;
   Scheduler.LTick; Scheduler.LWake; Scheduler.LGrant true].
Definition sched_s2 : Scheduler.Sched :=
  Scheduler.exec_loop
    (Scheduler.set_phase
       (Scheduler.advance
          (Scheduler.request (Scheduler.advance
             (Scheduler.request (Scheduler.advance sched_s1 1)) 3)) 2)
       2 Scheduler.Waiting) 2.

End Inputs.

(* ------------------------------------------------------------------ *)
(** * db.py: the settings table of the global database *)

Module SettingsDb.

(** Table [settings (key TEXT PRIMARY KEY, value TEXT)] in rowid order. *)
Definition Table := list (string * string).

(** [SELECT value FROM settings WHERE key=?] *)
Definition get_setting (t : Table) (key : string) : option string :=
  match find (fun r => String.eqb (fst r) key) t with
  | Some (_, v) => Some v
  | None => None
  end.

(** [INSERT OR REPLACE INTO settings (key, value) VALUES (?, ?)]: the
    conflicting row is deleted and a new row appended. *)
Definition set_setting (t : Table) (key value : string) : Table :=
  app (filter (fun r => negb (String.eqb (fst r) key)) t) [(key, value)].

(** [set_settings_bulk(settings_dict)]: one [INSERT OR REPLACE] per item
    of the dict, in its order. *)
Definition set_settings_bulk (t : Table) (settings_dict : list (string * string))
  : Table :=
  fold_left (fun t kv => set_setting t (fst kv) (snd kv)) settings_dict t.

(** [{r["key"]: r["value"] for r in rows}] *)
Definition get_all_settings (t : Table) : list (string * string) := t.

End SettingsDb.

(* ------------------------------------------------------------------ *)
(** * embedder.py: resizing and runtime reset *)

Module EmbedderExtra.
Import Embedder.

(** Python slice [emb[:t]] for an integer [t] (negative [t] counts from
    the end). *)
Definition slice_to (l : vec) (t : Z) : vec :=
  if (0 <=? t)%Z then firstn (Z.to_nat t) l
  else firstn (Z.to_nat (Z.of_nat (List.length l) + t)) l.

(** [get_embedding_matching_dim]: pad with zeros ([np.pad], mode
    ["constant"]) or cut to [target_dim]. *)
Definition get_embedding_matching_dim oe ae settings (st : State) (text : string)
    (target_dim : Z) : vec * State :=
  let '(emb, st') := get_embedding oe ae settings st text in
  let n := Z.of_nat (List.length emb) in
  if (n =? target_dim)%Z then (emb, st')
  else if (n <? target_dim)%Z then
    (app emb (repeat 0%Q (Z.to_nat (target_dim - n))), st')
  else (slice_to emb target_dim, st').

(** [reset_runtime_state] *)
Definition reset_runtime_state settings (st : State) : State :=
  mkState (assoc_set "openai" None (assoc_set "ollama" None (provider_available st)))
          (assoc_set "openai"
             (match assoc (openai_embed_model settings) OPENAI_EMBED_DIMS with
              | Some d => d | None => 1536%Z end)
             (last_embed_dims st)).

End EmbedderExtra.

(* ------------------------------------------------------------------ *)
(** * namer.py *)

Module Namer.

(** [str.strip(chars)]: drop leading and trailing characters of [cs]. *)
Fixpoint drop_while (p : ascii -> bool) (l : list ascii) : list ascii :=
  match l with
  | c :: r => if p c then drop_while p r else l
  | [] => []
  end.

Definition strip_chars (cs : list ascii) (s : string) : string :=
  let p := fun c => existsb (Ascii.eqb c) cs in
  string_of_list_ascii (rev (drop_while p (rev (drop_while p (list_ascii_of_string s))))).

(** [re.sub(r"[\s\-]+", "_", s)]: every maximal run of whitespace and
    hyphens becomes one underscore ([\s] on [str] is [str.isspace]). *)
Fixpoint sub_ws_hyphen (l : list ascii) (in_run : bool) : list ascii :=
  match l with
  | [] => []
  | c :: r =>
      if isspace c || Ascii.eqb c "-"%char then
        if in_run then sub_ws_hyphen r true else "_"%char :: sub_ws_hyphen r true
      else c :: sub_ws_hyphen r false
  end.

(** The class [[a-zA-Z0-9_]]. *)
Definition is_word_char (c : ascii) : bool :=
  let n := nat_of_ascii c in
  ((97 <=? n)%nat && (n <=? 122)%nat) || ((65 <=? n)%nat && (n <=? 90)%nat)
  || ((48 <=? n)%nat && (n <=? 57)%nat) || (n =? 95)%nat.

(** The characters stripped from both ends by [_sanitize_name]: double
    quote, single quote, backquote and dot. *)
Definition quote_chars : list ascii := ["034"%char; "'"%char; "`"%char; "."%char].

Definition _sanitize_name (name : string) : string :=
  let name := strip_chars quote_chars (strip name) in
  let name := string_of_list_ascii (sub_ws_hyphen (list_ascii_of_string name) false) in
  let name := string_of_list_ascii (filter is_word_char (list_ascii_of_string name)) in
  let name := take 50 name in
  let name := strip_chars ["_"%char] name in
  if String.eqb name "" then "Misc" else name.

Definition stopwords : list string :=
  ["the"; "a"; "an"; "is"; "are"; "was"; "were"; "be"; "been"; "being";
   "have"; "has"; "had"; "do"; "does"; "did"; "will"; "would"; "could";
   "should"; "may"; "might"; "shall"; "can"; "need"; "dare"; "ought"; "used";
   "to"; "of"; "in"; "for"; "on"; "with"; "at"; "by"; "from"; "as"; "into";
   "through"; "during"; "before"; "after"; "above"; "below"; "between"; "out";
   "off"; "over"; "under"; "again"; "further"; "then"; "once"; "here"; "there";
   "when"; "where"; "why"; "how"; "all"; "both"; "each"; "few"; "more"; "most";
   "other"; "some"; "such"; "no"; "nor"; "not"; "only"; "own"; "same"; "so";
   "than"; "too"; "very"; "just"; "because"; "but"; "and"; "or"; "if";
   "while"; "this"; "that"; "these"; "those"; "it"; "its"; "i"; "me"; "my";
   "we"; "our"; "you"; "your"; "he"; "his"; "she"; "her"; "they"; "their";
   "what"; "which"; "who"; "whom"].

Definition is_lower (c : ascii) : bool :=
  let n := nat_of_ascii c in (97 <=? n)%nat && (n <=? 122)%nat.

(** Maximal runs of [[a-z]]. *)
Fixpoint lower_runs (l : list ascii) (cur : list ascii) : list (list ascii) :=
  match l with
  | [] => match cur with [] => [] | _ => [rev cur] end
  | c :: r =>
      if is_lower c then lower_runs r (c :: cur)
      else match cur with
           | [] => lower_runs r []
           | _ => rev cur :: lower_runs r []
           end
  end.

(** [re.findall(r"[a-z]{3,}", s)]: the leftmost-longest scan returns the
    maximal runs of [[a-z]] of length at least 3. *)
Definition findall_words (s : string) : list string :=
  map string_of_list_ascii
      (filter (fun w => (3 <=? List.length w)%nat) (lower_runs (list_ascii_of_string s) [])).

(** [Counter(words)]: counts in order of first occurrence. *)
Fixpoint counter_add (w : string) (cs : list (string * nat)) : list (string * nat) :=
  match cs with
  | [] => [(w, 1%nat)]
  | (k, n) :: r => if String.eqb k w then (k, S n) :: r else (k, n) :: counter_add w r
  end.

Definition counter (ws : list string) : list (string * nat) :=
  fold_left (fun cs w => counter_add w cs) ws [].

(** [most_common]: sorted by decreasing count, ties in order of first
    occurrence (a stable sort). *)
Fixpoint insert_desc (x : string * nat) (l : list (string * nat)) : list (string * nat) :=
  match l with
  | [] => [x]
  | y :: r => if (snd y <? snd x)%nat then x :: l else y :: insert_desc x r
  end.

Definition most_common (cs : list (string * nat)) : list (string * nat) :=
  fold_left (fun acc x => insert_desc x acc) cs [].

Definition upper_char (c : ascii) : ascii :=
  let n := nat_of_ascii c in
  if (97 <=? n)%nat && (n <=? 122)%nat then ascii_of_nat (n - 32) else c.

(** [str.capitalize()] (applied to words of [[a-z]]). *)
Definition capitalize (s : string) : string :=
  match s with
  | EmptyString => EmptyString
  | String c r => String (upper_char c) (lower r)
  end.

(** [_keyword_name]; [lower] on code points 0..255 changes no character
    into or out of [[a-z]] other than ASCII capitals, so the words found
    are those of Python's [str.lower()]. *)
Definition _keyword_name (snippets : list string) : string :=
  let all_text := lower (Extractor.join_str " " snippets) in
  let words := findall_words all_text in
  let filtered := filter (fun w => negb (Extractor.mem w stopwords)) words in
  let counts := counter filtered in
  let top := map fst (firstn 3 (most_common counts)) in
  match top with
  | [] => "Misc"
  | _ => Extractor.join_str "_" (map capitalize top)
  end.

Definition naming_prompt (existing_str combined : string) : string :=
  "Based on these document excerpts from a folder of related files, generate a short descriptive folder name (2-4 words, use underscores between words, no special characters)."
  ++ nl ++ nl ++ "Existing folder names (avoid duplicates): " ++ existing_str
  ++ nl ++ nl ++ "Document excerpts:" ++ nl ++ combined
  ++ nl ++ nl ++ "Reply with ONLY the folder name, nothing else. Example: Machine_Learning_Research".

Section WithLLM.

(** The reply content of [ol.chat] (the empty string when the response
    has neither form) and of the OpenAI chat call; [None] when the call
    or reading its content raises. *)
Variable ollama_reply : string -> option string.
Variable openai_reply : string -> option string.

Definition generate_cluster_name (texts existing_names : list string) : string :=
  match texts with
  | [] => "Miscellaneous"
  | _ =>
    let snippets := filter (fun s => negb (String.eqb s ""))
                      (map (fun t => strip (take 500 t)) (firstn 5 texts)) in
    match snippets with
    | [] => "Miscellaneous"
    | _ =>
      let combined := Extractor.join_str (nl ++ "---" ++ nl) snippets in
      let existing_str := match existing_names with
                          | [] => "none"
                          | _ => Extractor.join_str ", " existing_names
                          end in
      let prompt := naming_prompt existing_str combined in
      let via_openai :=
        match openai_reply prompt with
        | Some content =>
            let name := _sanitize_name (strip content) in
            if negb (String.eqb name "") then name else _keyword_name snippets
        | None => _keyword_name snippets
        end in
      match ollama_reply prompt with
      | Some content =>
          let name := _sanitize_name (strip content) in
          if negb (String.eqb name "") && negb (String.eqb (lower name) "miscellaneous")
          then name else via_openai
      | None => via_openai
      end
    end
  end.

End WithLLM.

End Namer.

(* ------------------------------------------------------------------ *)
(** * pipeline.py: the cluster naming loop of [run_clustering] *)

Module Naming.

(** [while name in cluster_names.values(): name = f"{base_name}_{counter}";
    counter += 1]; [fuel] bounds the iterations and [None] marks running
    out of it. *)
Fixpoint dedupe (fuel : nat) (values : list string) (base name : string) (counter : nat)
  : option string :=
  if Extractor.mem name values then
    match fuel with
    | O => None
    | S f => dedupe f values base (base ++ "_" ++ nat_to_string counter) (S counter)
    end
  else Some name.

Section WithNamer.

(** The LLM replies used by [namer.generate_cluster_name], and the texts
    gathered for a cluster ([cluster_texts]: the first 500 characters of
    up to five of its files, or their summary or file name). *)
Variable ollama_reply : string -> option string.
Variable openai_reply : string -> option string.
Variable cluster_texts : Z -> list string.

(** The loop [for cid in unique_labels] building [cluster_names]
    (a dict, in insertion order); [None] when a [while] loop would run out
    of fuel. *)
Fixpoint name_loop (labels : list Z) (cluster_names : list (Z * string))
  : option (list (Z * string)) :=
  match labels with
  | [] => Some cluster_names
  | cid :: rest =>
      if (cid <? 0)%Z then name_loop rest (app cluster_names [(cid, "Uncategorised")])
      else
        let values := map snd cluster_names in
        let name := Namer.generate_cluster_name ollama_reply openai_reply
                      (cluster_texts cid) values in
        match dedupe (List.length values) values name name 2 with
        | Some name => name_loop rest (app cluster_names [(cid, name)])
        | None => None
        end
  end.

(** [unique_labels = sorted(set(labels))], then the loop. *)
Definition cluster_names_of (labels : list Z) : option (list (Z * string)) :=
  name_loop (Clusterer.sorted_unique labels) [].

End WithNamer.

End Naming.

(* ------------------------------------------------------------------ *)
(** * sync.py: the remaining helpers *)

Module SyncExtra.
Import Sync.

(** [is_recently_synced(path)] *)
Definition is_recently_synced (ss : SyncState) (path : string) : bool :=
  existsb (String.eqb path) (recently_synced ss).

(** [delete_cluster_folder(folder_path)]: [rmdir] only runs on an
    existing empty directory, so it does not raise there. *)
Definition delete_cluster_folder (fs : Fs.FS) (folder_path : string) : Fs.FS :=
  if Fs.exists_ fs folder_path && Fs.is_dir fs folder_path then
    if negb (Fs.has_children fs folder_path) then
      match Fs.rmdir fs folder_path with Some fs' => fs' | None => fs end
    else fs
  else fs.

End SyncExtra.

(* ------------------------------------------------------------------ *)
(** * Further concrete inputs *)

Module ExtraInputs.

(** [rec_B] with new content and a later [created_at]. *)
Definition rec_B2 : Db.FileRecord :=
  Db.mkFile 0 "y.txt" "/root/y.txt" "/root/y.txt" "h2" None 0 0 (-1) "new"
    "txt" 2 1 1 "t9" "t9".


Definition cluster_two : Db.ClusterRecord :=
  Db.mkCluster 2 "Two" "" "/root/Two" None 0 "t2".
Definition store_clusters : Db.Store :=
  Db.mkStore [] [Inputs.cluster_topic; cluster_two] [] 1.
Definition cluster_one : Db.ClusterRecord :=
  Db.mkCluster 1 "One" "" "/root/One" None 0 "t3".
Definition settings_old : list (string * string) :=
  [("llm_provider", "ollama"); ("embed_model", "nomic")].
Definition settings_new : list (string * string) :=
  [("embed_model", "bge"); ("root", "/data")].
(** An image file: readable, but of no supported type. *)
Definition fs_jpg : Fs.FS :=
  Fs.mkFS [("/root/photo.jpg", [x61; x62])] ["/root"] [].

End ExtraInputs.

(* ================================================================== *)
(** * Theorems *)
(* ================================================================== *)

Module EmbedderFacts.
Import Embedder.

Lemma assoc_set_same {A} (k : string) (v : A) l :
  assoc k (assoc_set k v l) = Some v.
Proof.
  induction l as [|[k' v'] r IH]; simpl.
  - rewrite String.eqb_refl. reflexivity.
  - destruct (String.eqb_spec k k') as [->|Hne]; simpl.
    + rewrite String.eqb_refl. reflexivity.
    + destruct (String.eqb_spec k k'); [contradiction|]. exact IH.
Qed.

Lemma take_all (n : nat) (s : string) :
  (String.length s <= n)%nat -> take n s = s.
Proof.
  unfold take. revert n. induction s as [|c s IH]; intros n Hn; simpl in *.
  - destruct n; reflexivity.
  - destruct n as [|n]; [lia|]. simpl. f_equal. apply IH. lia.
Qed.

Lemma strip_empty_of_empty (text : string) : text = "" -> strip text = "".
Proof. intros ->. reflexivity. Qed.

End EmbedderFacts.

Module EmbedderClaims.
Import Embedder EmbedderFacts Inputs.

(** C3 (counterexample): [get_embedding] does not normalise.  With the
    local provider returning [3, 4] for a non-empty text, the returned
    vector is [3, 4], whose squared L2 norm is 25, not 1. *)
Lemma get_embedding_not_normalized :
  let oe := fun _ : string => Some [3%Q; 4%Q] in
  let ae := fun _ : string => @None vec in
  let v := fst (get_embedding oe ae ollama_settings embedder_init "hello") in
  v = [3%Q; 4%Q] /\ ~ (dot v v == 1)%Q.
Proof.
  simpl. split; [reflexivity|]. vm_compute. discriminate.
Qed.

(** C3 (amended): for a text that is not blank, [get_embedding] sends
    [_truncate_text text] to the active provider (the text itself when it
    has at most 20000 characters, otherwise its first 10000 characters,
    ["\n...\n"] and its last 10000 characters) and returns the provider's
    vector unchanged, marking the provider available; when the provider
    call raises (or the remote provider has no API key) it returns the
    zero vector of the expected dimension and marks the provider
    unavailable. *)
Theorem get_embedding_spec oe ae settings st text :
  strip text <> "" ->
  let provider := selected_provider settings in
  let t := if (String.length text <=? 20000)%nat then text
           else take 10000 text ++ nl ++ "..." ++ nl ++ take_last 10000 text in
  let r := if String.eqb provider "openai" then
             (if String.eqb (openai_api_key settings) "" then None else ae t)
           else oe t in
  let res := get_embedding oe ae settings st text in
  match r with
  | Some v => fst res = v /\
              assoc provider (provider_available (snd res)) = Some (Some true)
  | None => fst res = zeros (get_expected_embedding_dim settings st) /\
            assoc provider (provider_available (snd res)) = Some (Some false)
  end.
Proof.
  intros Hne provider t r res.
  assert (Ht : _truncate_text text = t).
  { unfold _truncate_text, t, MAX_CHARS.
    replace (Nat.div 20000 2) with 10000%nat by (vm_compute; reflexivity).
    reflexivity. }
  unfold res, get_embedding.
  assert (Hb : (String.eqb text "" || String.eqb (strip text) "")%bool = false).
  { destruct (String.eqb_spec text ""); [exfalso; apply Hne; subst; reflexivity|].
    destruct (String.eqb_spec (strip text) ""); [contradiction|reflexivity]. }
  rewrite Hb, Ht. unfold r, _preferred_provider. fold provider.
  destruct (String.eqb provider "openai") eqn:Hp.
  - unfold _embed_openai.
    destruct (String.eqb (openai_api_key settings) "");
      [|destruct (ae t)]; simpl; split; auto; apply assoc_set_same.
  - unfold _embed_ollama.
    destruct (oe t); simpl; split; auto; apply assoc_set_same.
Qed.

Definition never_ok : string -> option (option string) := fun _ => None.

(** C9 (counterexample): with the local LLM call raising on a text of 250
    letters, [generate_summary] returns the first 200 characters followed
    by ["..."], which is not the first 200 characters of the text. *)
Lemma generate_summary_fallback_adds_ellipsis :
  let t := a_text 250 in
  let s := generate_summary never_ok never_ok ollama_settings t in
  s = take 200 t ++ "..." /\ s <> take 200 t.
Proof.
  vm_compute. split; [reflexivity|]. discriminate.
Qed.

(** C9 (amended): when the LLM summary call fails (raises, or the remote
    provider has no API key), [generate_summary] returns
    [_fallback_summary text]: the empty string for a blank text, the
    whitespace-stripped text when it has at most 200 characters, and
    otherwise its first 200 characters followed by ["..."]. *)
Theorem generate_summary_failure_fallback ochat achat settings text :
  (forall p, ochat p = None) -> (forall p, achat p = None) ->
  generate_summary ochat achat settings text =
  (let clean := strip text in
   if String.eqb clean "" then ""
   else if (String.length clean <=? 200)%nat then clean
   else take 200 clean ++ "...").
Proof.
  intros Ho Ha.
  assert (Hf : _fallback_summary text =
    (let clean := strip text in
     if String.eqb clean "" then ""
     else if (String.length clean <=? 200)%nat then clean
     else take 200 clean ++ "...")).
  { unfold _fallback_summary. cbv zeta.
    destruct (String.eqb (strip text) ""); [reflexivity|].
    destruct (Nat.leb_spec (String.length (strip text)) 200);
      [apply take_all; assumption|reflexivity]. }
  rewrite <- Hf. unfold generate_summary.
  destruct (_ || _)%bool; [reflexivity|].
  destruct (String.eqb (_preferred_provider settings) "openai").
  - destruct (String.eqb (openai_api_key settings) ""); [reflexivity|].
    rewrite Ha. reflexivity.
  - rewrite Ho. reflexivity.
Qed.

Lemma generate_summary_failure_fallback_witness :
  generate_summary never_ok never_ok ollama_settings (a_text 250) =
  take 200 (a_text 250) ++ "...".
Proof.
  rewrite (generate_summary_failure_fallback never_ok never_ok ollama_settings
             (a_text 250) (fun _ => eq_refl) (fun _ => eq_refl)).
  vm_compute. reflexivity.
Defined.

Lemma get_embedding_spec_witness :
  fst (get_embedding (fun _ => Some [3%Q; 4%Q]) (fun _ => None)
         ollama_settings embedder_init "hello") = [3%Q; 4%Q].
Proof.
  pose proof (get_embedding_spec (fun _ => Some [3%Q; 4%Q]) (fun _ => None)
                ollama_settings embedder_init "hello") as H.
  simpl in H. destruct H as [H _].
  - vm_compute. discriminate.
  - exact H.
Defined.

End EmbedderClaims.

Module ExtractorClaims.
Import Extractor.

Lemma lookup_file_is_file fs p b :
  Fs.lookup_file fs p = Some b -> Fs.exists_ fs p = true.
Proof.
  unfold Fs.lookup_file, Fs.exists_, Fs.is_file.
  destruct (find _ _) as [[q b']|] eqn:Hf; [|discriminate]. intros _.
  apply find_some in Hf. destruct Hf as [Hin Heq].
  apply orb_true_intro. left. apply orb_true_intro. right.
  apply existsb_exists. exists (q, b'). auto.
Qed.

Lemma join_str_nil_only (sep : string) parts :
  Z.of_nat (List.length parts) = 0%Z -> join_str sep parts = "".
Proof. destruct parts; simpl; [reflexivity|lia]. Qed.

Ltac fin_extract :=
  eexists; split; [reflexivity|];
  cbn [Extractor.text Extractor.word_count Extractor.page_count
       Extractor.content_hash Extractor.size_bytes];
  repeat match goal with |- _ /\ _ => split | |- _ -> _ => intro end;
  auto; try congruence;
  try (exfalso; lia);
  try match goal with H : _ = "" |- _ => rewrite H; reflexivity end;
  try match goal with
      | E : ?s = _, H : mem ?s _ = true |- _ =>
          rewrite E in H; vm_compute in H; discriminate H
      end.

(** C4 (amended): [extract] raises when the path is not a readable
    regular file (it stats and hashes the file before any guarded code).
    For a readable file it returns a result carrying the SHA-256 of the
    file's bytes and their count, whatever the text; an empty text has
    word count 0 and a zero page count comes with an empty text; a failed
    PDF or DOCX extraction gives empty text and page count 0, while a
    failed CSV or plain-text extraction gives empty text with page
    count 1. *)
Theorem extract_spec sha dec pdf md docx csv fs p :
  let sfx := lower (Fs.suffix p) in
  let ex := extract sha dec pdf md docx csv fs p in
  match Fs.lookup_file fs p with
  | None => ex = None
  | Some b =>
      exists r, ex = Some r /\
        content_hash r = sha b /\
        size_bytes r = Z.of_nat (List.length b) /\
        (text r = "" -> word_count r = 0%Z) /\
        (page_count r = 0%Z -> text r = "") /\
        (sfx = ".pdf" -> pdf b = None -> text r = "" /\ page_count r = 0%Z) /\
        (sfx = ".docx" -> docx b = None -> text r = "" /\ page_count r = 0%Z) /\
        (sfx = ".csv" -> csv b = None -> text r = "" /\ page_count r = 1%Z) /\
        (mem sfx [".txt"; ".text"; ".rst"] = true -> dec b = None ->
           text r = "" /\ page_count r = 1%Z)
  end.
Proof.
  intros sfx ex. unfold ex, extract. fold sfx.
  destruct (Fs.lookup_file fs p) as [b|] eqn:Hl.
  2:{ destruct (negb (Fs.exists_ fs p)); [reflexivity|].
      unfold compute_hash. rewrite Hl. reflexivity. }
  rewrite (lookup_file_is_file _ _ _ Hl). cbn [negb].
  unfold compute_hash. rewrite Hl.
  destruct (String.eqb_spec sfx ".pdf") as [Ep|Ep].
  { unfold _extract_pdf. rewrite Hl.
    destruct (pdf b) as [parts|] eqn:Hpdf; fin_extract.
    apply join_str_nil_only. assumption. }
  destruct (mem sfx [".txt"; ".text"; ".rst"]) eqn:Et.
  { fin_extract; unfold _extract_text; rewrite Hl;
    match goal with Hd : dec b = None |- _ => rewrite Hd; reflexivity end. }
  destruct (mem sfx [".md"; ".markdown"]) eqn:Em.
  { fin_extract. }
  destruct (String.eqb_spec sfx ".docx") as [Ed|Ed].
  { unfold _extract_docx. rewrite Hl.
    destruct (docx b) as [ps|] eqn:Hdx; fin_extract. }
  destruct (String.eqb_spec sfx ".csv") as [Ec|Ec].
  { fin_extract; unfold _extract_csv; rewrite Hl;
    match goal with Hc : csv b = None |- _ => rewrite Hc; reflexivity end. }
  destruct (mem sfx _CODE_EXTENSIONS || mem (lower (Fs.name p)) _PLAIN_TEXT_NAMES)%bool;
    fin_extract.
Qed.

(** C4 (counterexample): [extract] raises on a missing file (stat and
    hashing are unguarded), and a failed CSV extraction returns empty
    text with page count 1, not 0. *)
Lemma extract_can_raise_and_keeps_page_count :
  extract Inputs.sha_stub Inputs.fail_bytes Inputs.fail_bytes Inputs.fail_md
          Inputs.fail_bytes Inputs.fail_bytes Inputs.fs_empty "/root/notes.txt" = None /\
  exists r,
    extract Inputs.sha_stub Inputs.fail_bytes Inputs.fail_bytes Inputs.fail_md
            Inputs.fail_bytes Inputs.fail_bytes Inputs.fs_csv "/root/data.csv" = Some r /\
    text r = "" /\ page_count r = 1%Z.
Proof.
  split; [reflexivity|]. eexists. split; [vm_compute; reflexivity|].
  split; reflexivity.
Qed.

End ExtractorClaims.

Module PipelineClaims.

Import Inputs.

(** C1 (code bug): the store holds a record for ["/root/y.txt"] ([rec_B]),
    and another live record ([rec_A]) with the same content hash points at
    a path that exists; still [remove_file("/root/y.txt")] deletes [rec_B]
    and appends a [file_removed] event, because [get_file_by_hash] returns
    only the newest record of the hash, which is [rec_B] itself. *)
Lemma remove_file_ignores_older_live_duplicate :
  Db.get_file_by_path store_dup "/root/y.txt" = Some rec_B /\
  In rec_A (Db.files store_dup) /\
  Db.content_hash rec_A = Db.content_hash rec_B /\
  Db.id rec_A <> Db.id rec_B /\
  Fs.exists_ fs_dup (Db.current_path rec_A) = true /\
  Db.get_file_by_hash store_dup "h" = Some rec_B /\
  Pipeline.remove_file fs_dup store_dup "/root/y.txt" =
    Db.mkStore [rec_A] [] [Db.mkEvent 2 "file_removed" "y.txt"] 3.
Proof.
  split; [reflexivity|].
  split; [left; reflexivity|].
  split; [reflexivity|].
  split; [discriminate|].
  split; [reflexivity|].
  split; reflexivity.
Qed.

(** C5 (amended): when [extract(path)] raises or yields a text that is
    blank after [strip()], [process_file(path)] returns [None] and leaves
    the store and the embedder state unchanged: no record is created or
    updated, whatever the store holds. *)
Theorem process_file_rejects_blank_text sha dec pdf md docx csv oe ae oc ac
    settings now fs st est path
    (Hblank : forall r, Pipeline.extract sha dec pdf md docx csv fs path = Some r ->
              strip (Extractor.text r) = "") :
  Pipeline.process_file sha dec pdf md docx csv oe ae oc ac settings now fs st est path
  = (None, st, est).
Proof.
  unfold Pipeline.process_file.
  destruct (negb (Fs.exists_ fs path) || negb (Extractor.is_supported path));
    [reflexivity|].
  destruct (Pipeline.extract sha dec pdf md docx csv fs path) as [r|] eqn:E;
    [|reflexivity].
  rewrite (Hblank r eq_refl). reflexivity.
Qed.

Lemma blank_csv_extract :
  forall r, Pipeline.extract sha_stub fail_bytes fail_bytes fail_md fail_bytes fail_bytes
              fs_csv "/root/data.csv" = Some r -> strip (Extractor.text r) = "".
Proof.
  intros r E. vm_compute in E. injection E as <-. reflexivity.
Qed.

Lemma process_file_rejects_blank_text_witness :
  (forall r, Pipeline.extract sha_stub fail_bytes fail_bytes fail_md fail_bytes fail_bytes
               fs_csv "/root/data.csv" = Some r -> strip (Extractor.text r) = "") /\
  Pipeline.process_file sha_stub fail_bytes fail_bytes fail_md fail_bytes fail_bytes
    no_embed no_embed no_chat no_chat ollama_settings "now" fs_csv store_empty
    embedder_init "/root/data.csv" = (None, store_empty, embedder_init).
Proof.
  split; [exact blank_csv_extract|].
  apply (process_file_rejects_blank_text sha_stub fail_bytes fail_bytes fail_md
           fail_bytes fail_bytes no_embed no_embed no_chat no_chat ollama_settings "now"
           fs_csv store_empty embedder_init "/root/data.csv").
  exact blank_csv_extract.
Defined.

(** C5 (counterexample): ["/root/data.csv"] exists and is supported, its
    extraction (the CSV reader raising) gives the empty text, and
    [process_file] returns [None] with the store still empty: the file is
    not ingested. *)
Lemma process_file_blank_csv_not_ingested :
  Fs.exists_ fs_csv "/root/data.csv" = true /\
  Extractor.is_supported "/root/data.csv" = true /\
  option_map Extractor.text
    (Pipeline.extract sha_stub fail_bytes fail_bytes fail_md fail_bytes fail_bytes
       fs_csv "/root/data.csv") = Some "" /\
  Pipeline.process_file sha_stub fail_bytes fail_bytes fail_md fail_bytes fail_bytes
    no_embed no_embed no_chat no_chat ollama_settings "now" fs_csv store_empty
    embedder_init "/root/data.csv" = (None, store_empty, embedder_init).
Proof.
  split; [reflexivity|].
  split; [reflexivity|].
  split; [vm_compute; reflexivity|].
  vm_compute. reflexivity.
Qed.

(** C6 (code bug): cluster 0 exists, the new file 2 has the non-zero
    embedding [[1,0,0]] and its similarity to the live centroid [[1,0]]
    after padding is 1, at least 0.40; yet [try_incremental_assign(2)]
    raises instead of returning [True]: after assigning the file to
    cluster 0 and moving it into ["/root/Topic"], the centroid update
    takes [np.mean] of the 2- and 3-dimensional member embeddings. *)
Lemma try_incremental_assign_raises_on_mixed_dims :
  Db.clusters (Pipeline.w_db world_mixed) = [cluster_topic] /\
  Db.get_file_by_id (Pipeline.w_db world_mixed) 2 = Some f_new /\
  Pipeline.cluster_centroids (Db.files (Pipeline.w_db world_mixed)) 2 [cluster_topic]
    = Some [(0%Z, [1%Q; 0%Q])] /\
  Qle_bool Clusterer.NOISE_SIMILARITY_THRESHOLD
    (fst (Pipeline.best_match [1%Q; 0%Q; 0%Q] [(0%Z, [1%Q; 0%Q])])) = true /\
  snd (Pipeline.best_match [1%Q; 0%Q; 0%Q] [(0%Z, [1%Q; 0%Q])]) = 0%Z /\
  fst (Pipeline.try_incremental_assign "/root" 0 0 world_mixed 2) = None /\
  option_map (fun f => (Db.cluster_id f, Db.current_path f))
    (Db.get_file_by_id
       (Pipeline.w_db (snd (Pipeline.try_incremental_assign "/root" 0 0 world_mixed 2))) 2)
    = Some (0%Z, "/root/Topic/b.txt").
Proof.
  repeat split; vm_compute; reflexivity.
Qed.

End PipelineClaims.

Module ClustererFacts.

Lemma nth_error_combine {A B} (a : list A) (b : list B) i x y :
  nth_error a i = Some x -> nth_error b i = Some y ->
  nth_error (combine a b) i = Some (x, y).
Proof.
  revert b i. induction a as [|u a IH]; intros b i Ha Hb.
  - destruct i; discriminate.
  - destruct b as [|v b]; [destruct i; discriminate|].
    destruct i as [|i]; simpl in *.
    + injection Ha as <-. injection Hb as <-. reflexivity.
    + apply IH; assumption.
Qed.

Lemma In_insert_Z x y l : In y (Clusterer.insert_Z x l) -> y = x \/ In y l.
Proof.
  induction l as [|z l IH]; simpl; intros Hin.
  - destruct Hin as [<-|[]]. left. reflexivity.
  - destruct (x =? z)%Z eqn:E1.
    + right. exact Hin.
    + destruct (x <? z)%Z.
      * destruct Hin as [<-|Hin]; [left; reflexivity| right; exact Hin].
      * destruct Hin as [<-|Hin]; [right; left; reflexivity|].
        destruct (IH Hin) as [->|H]; [left; reflexivity| right; right; exact H].
Qed.

Lemma In_sorted_unique x l : In x (Clusterer.sorted_unique l) -> In x l.
Proof.
  induction l as [|y l IH]; simpl; [tauto|].
  intros Hin. destruct (In_insert_Z _ _ _ Hin) as [->|H]; [left; reflexivity|].
  right. apply IH. exact H.
Qed.

Lemma centroids_of_not_noise labels E c :
  In c (Clusterer.centroids_of labels E) -> fst c <> (-1)%Z.
Proof.
  unfold Clusterer.centroids_of. intros Hin.
  apply in_map_iff in Hin. destruct Hin as [cid [<- Hin]].
  apply In_sorted_unique, filter_In in Hin. destruct Hin as [_ Hn]. simpl.
  intros ->. discriminate.
Qed.

Lemma best_cluster_fold sq e cents acc :
  let r := fold_left (fun (acc : Q * Z) (cc : Z * vec) =>
             if Qlt_le_dec (fst acc) (Clusterer.smart_sim sq e (snd cc))
             then (Clusterer.smart_sim sq e (snd cc), fst cc) else acc) cents acc in
  (forall c, In c cents -> Clusterer.smart_sim sq e (snd c) <= fst r)%Q /\
  (fst acc <= fst r)%Q /\
  (r = acc \/ exists c, In c cents /\ r = (Clusterer.smart_sim sq e (snd c), fst c)).
Proof.
  revert acc. induction cents as [|c cents IH]; intros acc; simpl.
  - split; [tauto|]. split; [apply Qle_refl| left; reflexivity].
  - destruct (Qlt_le_dec (fst acc) (Clusterer.smart_sim sq e (snd c))) as [Hlt|Hle].
    + destruct (IH (Clusterer.smart_sim sq e (snd c), fst c)) as [H1 [H2 H3]].
      simpl in H2. split; [|split].
      * intros c' [<-|Hin]; [exact H2| apply H1, Hin].
      * apply Qle_trans with (1 := Qlt_le_weak _ _ Hlt). exact H2.
      * right. destruct H3 as [->|[c' [Hin ->]]].
        -- exists c. split; [left; reflexivity| reflexivity].
        -- exists c'. split; [right; exact Hin| reflexivity].
    + destruct (IH acc) as [H1 [H2 H3]]. split; [|split].
      * intros c' [<-|Hin]; [apply Qle_trans with (1 := Hle); exact H2| apply H1, Hin].
      * exact H2.
      * destruct H3 as [->|[c' [Hin ->]]]; [left; reflexivity|].
        right. exists c'. split; [right; exact Hin| reflexivity].
Qed.

Lemma best_cluster_spec sq e cents :
  let r := Clusterer.best_cluster sq cents e in
  (forall c, In c cents -> Clusterer.smart_sim sq e (snd c) <= fst r)%Q /\
  (r = ((-1)%Q, (-1)%Z) \/ exists c, In c cents /\ r = (Clusterer.smart_sim sq e (snd c), fst c)).
Proof.
  unfold Clusterer.best_cluster.
  destruct (best_cluster_fold sq e cents ((-1)%Q, (-1)%Z)) as [H1 [_ H3]].
  split; assumption.
Qed.

End ClustererFacts.

Module ClustererClaims.

Import Inputs ClustererFacts.

(** C10 (code bug): for the empty matrix (N = 0) [cluster_embeddings]
    returns no label but one coordinate pair, whatever the libraries:
    [_simple_2d] answers [[[0.0, 0.0]]] for every [n <= 1]. *)
Lemma cluster_embeddings_empty_one_coordinate np_sqrt agg hdb um pca cs sn pi ms mss :
  Clusterer.cluster_embeddings np_sqrt agg hdb um pca cs sn pi [] ms mss
  = Some ([], [(0%Q, 0%Q)]).
Proof. reflexivity. Qed.

(** C2 (counterexample): three embeddings (N = 3); the third is left as
    noise although its cosine similarity to the centroid of cluster 0
    (the mean [[1,0,0,0]] of the other two) is 11/25 = 0.44 >= 0.40: for
    N <= 25 the labels are those of the agglomerative fallback and no
    noise reassignment runs.  The only square roots taken are those of 1
    and 625, where [Qsqrt] is exact, as the floating-point root is. *)
Lemma cluster_embeddings_small_leaves_similar_noise :
  option_map fst
    (Clusterer.cluster_embeddings Qsqrt average_linkage_fit_predict no_hdbscan flat_umap
       no_pca zero_fn zero_fn 0 E_small 2 2) = Some [0%Z; 0%Z; (-1)%Z] /\
  map (fun e => dot e e) E_small = [1; 1; 625]%Q /\
  Qsqrt 1 = 1%Q /\ Qsqrt 625 = 25%Q /\
  map fst (Clusterer.centroids_of [0%Z; 0%Z; (-1)%Z] E_small) = [0%Z] /\
  (let c := snd (nth 0 (Clusterer.centroids_of [0%Z; 0%Z; (-1)%Z] E_small) (0%Z, [])) in
   dot (nth 2 E_small []) c / (Clusterer.norm Qsqrt (nth 2 E_small []) * Clusterer.norm Qsqrt c)
   == 11 # 25)%Q /\
  Qle_bool Clusterer.NOISE_SIMILARITY_THRESHOLD (11 # 25) = true.
Proof.
  split; [vm_compute; reflexivity|].
  split; [vm_compute; reflexivity|].
  split; [reflexivity|]. split; [reflexivity|].
  split; [vm_compute; reflexivity|].
  split; [vm_compute; reflexivity|].
  reflexivity.
Qed.

(** C2 (amended): let N >= 3 and [cluster_embeddings] return the labels
    [labels].  If N <= 25 they are the labels of the agglomerative
    fallback, with no noise reassignment.  If N > 25, let [l0] be the
    HDBSCAN labels (replaced by the agglomerative fallback when all are
    -1) and [cents] the centroids of the clusters of [l0]: when [l0] has no
    noise [labels = l0]; when [l0] is all noise every label is 0;
    otherwise every non-noise label is kept, and for a noise point [e]
    (similarity [smart_sim e c = e.c / (|e| |c| + 1e-10)]) the label stays
    -1 only if every similarity is below 0.40, and if some similarity is
    at least 0.40 the label is that of a centroid of maximal similarity.
    This holds for every square-root function [np_sqrt] behind the norms
    [|e|] and [|c|], the floating-point one included. *)
Theorem cluster_embeddings_noise_spec np_sqrt agg hdb um pca cs sn pi E ms mss labels coords
    (Hn : (3 <= List.length E)%nat)
    (H : Clusterer.cluster_embeddings np_sqrt agg hdb um pca cs sn pi E ms mss
         = Some (labels, coords)) :
  let l0 := let l := Clusterer._run_hdbscan np_sqrt agg hdb E ms mss in
            if forallb (fun l => (l =? -1)%Z) l
            then Clusterer._agglomerative_fallback np_sqrt agg E else l in
  let cents := Clusterer.centroids_of l0 E in
  ((List.length E <= 25)%nat -> labels = Clusterer._agglomerative_fallback np_sqrt agg E) /\
  ((25 < List.length E)%nat ->
     (forallb (fun l => negb (l =? -1)%Z) l0 = true -> labels = l0) /\
     (forallb (fun l => (l =? -1)%Z) l0 = true -> labels = map (fun _ => 0%Z) l0) /\
     (forallb (fun l => negb (l =? -1)%Z) l0 = false ->
      forallb (fun l => (l =? -1)%Z) l0 = false ->
      forall i l e, nth_error l0 i = Some l -> nth_error E i = Some e ->
        (l <> (-1)%Z -> nth_error labels i = Some l) /\
        (l = (-1)%Z ->
           (nth_error labels i = Some (-1)%Z ->
              forall c, In c cents ->
                (Clusterer.smart_sim np_sqrt e (snd c) < Clusterer.NOISE_SIMILARITY_THRESHOLD)%Q) /\
           ((exists c, In c cents /\
                 (Clusterer.NOISE_SIMILARITY_THRESHOLD <= Clusterer.smart_sim np_sqrt e (snd c))%Q) ->
            exists c, In c cents /\ nth_error labels i = Some (fst c) /\
              forall c', In c' cents ->
                (Clusterer.smart_sim np_sqrt e (snd c') <= Clusterer.smart_sim np_sqrt e (snd c))%Q)))).
Proof.
  intros l0 cents.
  unfold Clusterer.cluster_embeddings in H.
  assert (Hlt : (List.length E <? Clusterer.MIN_FILES_FOR_CLUSTERING)%nat = false)
    by (apply Nat.ltb_ge; unfold Clusterer.MIN_FILES_FOR_CLUSTERING; lia).
  rewrite Hlt in H.
  destruct (Clusterer._umap_2d um pca E (List.length E)) as [coords0|]; [|discriminate].
  injection H as Hl _.
  split.
  - intros Hle.
    assert (Hs : (List.length E <=? Clusterer.SMALL_COLLECTION_THRESHOLD)%nat = true)
      by (apply Nat.leb_le; unfold Clusterer.SMALL_COLLECTION_THRESHOLD; lia).
    rewrite Hs in Hl. symmetry. exact Hl.
  - intros Hgt.
    assert (Hs : (List.length E <=? Clusterer.SMALL_COLLECTION_THRESHOLD)%nat = false)
      by (apply Nat.leb_gt; unfold Clusterer.SMALL_COLLECTION_THRESHOLD; lia).
    rewrite Hs in Hl.
    change (Clusterer._assign_noise_smart np_sqrt l0 E = labels) in Hl.
    subst labels. clearbody l0. unfold Clusterer._assign_noise_smart.
    split; [intros ->; reflexivity|].
    split.
    { intros Hall.
      destruct (forallb (fun l => negb (l =? -1)%Z) l0) eqn:Hno.
      - destruct l0 as [|x r]; [reflexivity|].
        simpl in Hall, Hno. destruct (x =? -1)%Z; simpl in *; discriminate.
      - rewrite Hall. reflexivity. }
    intros Hsome Hnall i l e Hi He.
    rewrite Hsome, Hnall. fold cents.
    rewrite nth_error_map, (nth_error_combine _ _ _ _ _ Hi He). simpl.
    split.
    + intros Hl. destruct (l =? -1)%Z eqn:Eq; [apply Z.eqb_eq in Eq; contradiction|].
      reflexivity.
    + intros ->. rewrite Z.eqb_refl.
      destruct (best_cluster_spec np_sqrt e cents) as [Hmax Hbest].
      destruct (Clusterer.best_cluster np_sqrt cents e) as [bs bc] eqn:Eb. simpl in Hmax.
      destruct (Qle_bool Clusterer.NOISE_SIMILARITY_THRESHOLD bs) eqn:Eth.
      * apply Qle_bool_iff in Eth.
        destruct Hbest as [Hb|[c [Hin Hc]]].
        -- injection Hb as -> _. exfalso. apply Eth. reflexivity.
        -- injection Hc as Hbs Hbc. split.
           ++ intros Hc'. injection Hc' as Hc'. subst bc.
              exfalso. exact (centroids_of_not_noise _ _ _ Hin Hc').
           ++ intros _. exists c. split; [exact Hin|]. split; [rewrite Hbc; reflexivity|].
              intros c' Hin'. rewrite <- Hbs. apply Hmax, Hin'.
      * split.
        -- intros _ c Hin. apply Qnot_le_lt. intros Hle.
           assert (Hle' : (Clusterer.NOISE_SIMILARITY_THRESHOLD <= bs)%Q)
             by (apply Qle_trans with (1 := Hle); apply Hmax, Hin).
           apply Qle_bool_iff in Hle'. rewrite Hle' in Eth. discriminate.
        -- intros [c [Hin Hle]]. exfalso.
           assert (Hle' : (Clusterer.NOISE_SIMILARITY_THRESHOLD <= bs)%Q)
             by (apply Qle_trans with (1 := Hle); apply Hmax, Hin).
           apply Qle_bool_iff in Hle'. rewrite Hle' in Eth. discriminate.
Qed.

(** Two inputs for the two regimes, with [Qsqrt] as the square root
    (every root taken is that of a perfect square).  For N = 3 the labels
    are the agglomerative fallback's.  For N = 26 ([E_big]: 25 rows
    [[1,0]] and a row [[3,4]] that HDBSCAN leaves as noise) the noise row,
    at similarity 3/(5 + 1e-10) >= 0.40 from the centroid [[1,0]], gets
    the label of that centroid. *)
Lemma cluster_embeddings_noise_spec_witness :
  (3 <= List.length E_small)%nat /\
  Clusterer.cluster_embeddings Qsqrt average_linkage_fit_predict no_hdbscan flat_umap no_pca
    zero_fn zero_fn 0 E_small 2 2
  = Some ([0%Z; 0%Z; (-1)%Z], [(0%Q, 0%Q); (0%Q, 0%Q); (0%Q, 0%Q)]) /\
  ((List.length E_small <= 25)%nat ->
   [0%Z; 0%Z; (-1)%Z] = Clusterer._agglomerative_fallback Qsqrt average_linkage_fit_predict E_small) /\
  (3 <= List.length E_big)%nat /\
  Clusterer.cluster_embeddings Qsqrt average_linkage_fit_predict hdbscan_last_noise flat_umap
    no_pca zero_fn zero_fn 0 E_big 2 2
  = Some (repeat 0%Z 26, repeat (0%Q, 0%Q) 26) /\
  exists c, In c (Clusterer.centroids_of (app (repeat 0%Z 25) [(-1)%Z]) E_big) /\
    nth_error (repeat 0%Z 26) 25 = Some (fst c).
Proof.
  assert (Hn : (3 <= List.length E_small)%nat) by (simpl; lia).
  assert (H : Clusterer.cluster_embeddings Qsqrt average_linkage_fit_predict no_hdbscan flat_umap
                no_pca zero_fn zero_fn 0 E_small 2 2
              = Some ([0%Z; 0%Z; (-1)%Z], [(0%Q, 0%Q); (0%Q, 0%Q); (0%Q, 0%Q)]))
    by (vm_compute; reflexivity).
  split; [exact Hn|]. split; [exact H|].
  split; [exact (proj1 (cluster_embeddings_noise_spec Qsqrt average_linkage_fit_predict
                          no_hdbscan flat_umap no_pca zero_fn zero_fn 0 E_small 2 2 _ _ Hn H))|].
  assert (Hn2 : (3 <= List.length E_big)%nat) by (apply Nat.leb_le; reflexivity).
  assert (H2 : Clusterer.cluster_embeddings Qsqrt average_linkage_fit_predict hdbscan_last_noise
                 flat_umap no_pca zero_fn zero_fn 0 E_big 2 2
               = Some (repeat 0%Z 26, repeat (0%Q, 0%Q) 26)) by (vm_compute; reflexivity).
  split; [exact Hn2|]. split; [exact H2|].
  pose proof (cluster_embeddings_noise_spec Qsqrt average_linkage_fit_predict hdbscan_last_noise
                flat_umap no_pca zero_fn zero_fn 0 E_big 2 2 _ _ Hn2 H2) as S.
  assert (Hrun : Clusterer._run_hdbscan Qsqrt average_linkage_fit_predict hdbscan_last_noise
                   E_big 2 2 = app (repeat 0%Z 25) [(-1)%Z]) by (vm_compute; reflexivity).
  assert (Hall : forallb (fun l => (l =? -1)%Z) (app (repeat 0%Z 25) [(-1)%Z]) = false)
    by reflexivity.
  assert (Hnn : forallb (fun l => negb (l =? -1)%Z) (app (repeat 0%Z 25) [(-1)%Z]) = false)
    by reflexivity.
  cbv zeta in S. rewrite Hrun, Hall in S. cbv iota in S.
  destruct S as [_ S].
  assert (Hgt : (25 < List.length E_big)%nat) by (apply Nat.ltb_lt; reflexivity).
  destruct (S Hgt) as [_ [_ S3]].
  assert (Hi : nth_error (app (repeat 0%Z 25) [(-1)%Z]) 25 = Some (-1)%Z) by reflexivity.
  assert (He : nth_error E_big 25 = Some [3; 4]%Q) by reflexivity.
  destruct (S3 Hnn Hall 25%nat (-1)%Z [3; 4]%Q Hi He) as [_ S4].
  destruct (S4 eq_refl) as [_ S5].
  destruct S5 as [c [Hc [Hl _]]].
  - exists (nth 0 (Clusterer.centroids_of (app (repeat 0%Z 25) [(-1)%Z]) E_big) (0%Z, [])).
    split; [vm_compute; left; reflexivity|].
    apply Qle_bool_iff. vm_compute. reflexivity.
  - exists c. split; assumption.
Defined.

End ClustererClaims.

Module SyncClaims.

Import Inputs SyncSpec.

Lemma join_nonempty root n : String.eqb (Fs.join root n) "" = false.
Proof. destruct root; reflexivity. Qed.

Lemma resolve_source_first_existing fs root info :
  Sync.resolve_source fs root info = first_existing fs (candidates root info).
Proof.
  unfold Sync.resolve_source, first_existing, candidates. simpl.
  destruct (negb (String.eqb (Sync.e_current_path info) "")
            && Fs.exists_ fs (Sync.e_current_path info)); [reflexivity|].
  destruct (negb (String.eqb (Sync.e_original_path info) "")
            && Fs.exists_ fs (Sync.e_original_path info)); [reflexivity|].
  rewrite join_nonempty. simpl.
  destruct (Fs.exists_ fs (Fs.join root (Sync.e_filename info))); reflexivity.
Qed.

Lemma mkdir_none fs d : Fs.mkdir fs d = None -> Fs.is_file fs d = true.
Proof.
  unfold Fs.mkdir. destruct (Fs.is_file fs d); [reflexivity|].
  destruct (Fs.is_dir fs d); discriminate.
Qed.

Lemma mkdir_files fs d fs' : Fs.mkdir fs d = Some fs' -> Fs.fs_files fs' = Fs.fs_files fs.
Proof.
  unfold Fs.mkdir. destruct (Fs.is_file fs d); [discriminate|].
  destruct (Fs.is_dir fs d); intros H; injection H as <-; reflexivity.
Qed.

Lemma mkdir_all_inr fs ds fs' :
  Sync.mkdir_all fs ds = inr fs' -> exists d, In d ds /\ Fs.is_file fs d = true.
Proof.
  revert fs. induction ds as [|d ds IH]; intros fs H; simpl in H; [discriminate|].
  destruct (Fs.mkdir fs d) as [fs1|] eqn:Em.
  - destruct (IH fs1 H) as [d' [Hin Hf]]. exists d'. split; [right; exact Hin|].
    unfold Fs.is_file in *. rewrite (mkdir_files _ _ _ Em) in Hf. exact Hf.
  - exists d. split; [left; reflexivity| apply mkdir_none, Em].
Qed.

Lemma sync_entry_some root names fs ss moves item fs1 ss1 m1 :
  Sync.sync_entry root names (fs, ss, moves) item = Some (fs1, ss1, m1) ->
  exists out, m1 = app moves out /\ entry_effect root names fs item fs1 out.
Proof.
  destruct item as [fid info].
  unfold Sync.sync_entry. cbv zeta. fold (target_folder root names info).
  destruct (Fs.mkdir fs (target_folder root names info)) as [fs0|] eqn:Em;
    [|discriminate].
  rewrite resolve_source_first_existing.
  destruct (first_existing fs0 (candidates root info)) as [src|] eqn:Ef.
  - destruct (String.eqb src (Fs.join (target_folder root names info) (Sync.e_filename info)))
      eqn:Eq.
    + intros H. injection H as <- <- <-. exists []. rewrite app_nil_r.
      split; [reflexivity|]. apply String.eqb_eq in Eq.
      exact (ee_in_place root names fs (fid, info) fs0 src Em Ef Eq).
    + apply String.eqb_neq in Eq.
      destruct (Fs.move fs0 src _) as [fs2|] eqn:Emv.
      * intros H. injection H as <- <- <-. eexists. split; [reflexivity|].
        exact (ee_moved root names fs (fid, info) fs0 src fs2 Em Ef Eq Emv).
      * intros H. injection H as <- <- <-. exists []. rewrite app_nil_r.
        split; [reflexivity|].
        exact (ee_failed root names fs (fid, info) fs0 src Em Ef Eq Emv).
  - intros H. injection H as <- <- <-. exists []. rewrite app_nil_r.
    split; [reflexivity|]. exact (ee_skip root names fs (fid, info) fs0 Em Ef).
Qed.

Lemma sync_entry_none root names fs ss moves item :
  Sync.sync_entry root names (fs, ss, moves) item = None ->
  Fs.is_file fs (target_folder root names (snd item)) = true.
Proof.
  destruct item as [fid info].
  unfold Sync.sync_entry. cbv zeta. fold (target_folder root names info). simpl snd.
  destruct (Fs.mkdir fs (target_folder root names info)) as [fs0|] eqn:Em.
  - destruct (Sync.resolve_source fs0 root info) as [src|]; [|discriminate].
    destruct (String.eqb _ _); [discriminate|].
    destruct (Fs.move _ _ _); discriminate.
  - intros _. apply mkdir_none, Em.
Qed.

Lemma sync_loop_spec root names plan : forall fs ss moves,
  match Sync.sync_loop root names (fs, ss, moves) plan with
  | inl (fs', _, moves') =>
      exists ms, moves' = app moves ms /\ runs root names fs plan fs' ms
  | inr _ =>
      exists prefix item rest fs1 ms,
        plan = app prefix (item :: rest) /\ runs root names fs prefix fs1 ms /\
        Fs.is_file fs1 (target_folder root names (snd item)) = true
  end.
Proof.
  induction plan as [|item rest IH]; intros fs ss moves; cbn [Sync.sync_loop].
  - exists []. rewrite app_nil_r. split; [reflexivity| constructor].
  - destruct (Sync.sync_entry root names (fs, ss, moves) item) as [[[fs1 ss1] m1]|] eqn:Es.
    + destruct (sync_entry_some _ _ _ _ _ _ _ _ _ Es) as [out [-> Hee]].
      specialize (IH fs1 ss1 (app moves out)).
      destruct (Sync.sync_loop root names (fs1, ss1, app moves out) rest)
        as [[[fs' ss'] moves']|[fs' ss']]; cbv beta iota in IH.
      * destruct IH as [ms [-> Hr]]. exists (app out ms).
        split; [rewrite app_assoc; reflexivity|].
        econstructor; eassumption.
      * destruct IH as [prefix [item' [rest' [fs2 [ms [-> [Hr Hf]]]]]]].
        exists (item :: prefix), item', rest', fs2, (app out ms).
        split; [reflexivity|]. split; [econstructor; eassumption| exact Hf].
    + exists [], item, rest, fs, []. split; [reflexivity|].
      split; [constructor| apply (sync_entry_none _ _ _ _ _ _ Es)].
Qed.

(** C8 (amended): [sync_files_to_folders] releases the sync lock and
    either returns the moves [moves], or raises.  When it returns, the
    cluster folders were created and the plan entries ran one after the
    other as described by [runs]: each entry first creates its target
    folder, takes as source the first non-empty existing path among
    current_path, original_path and root/filename, is skipped when there
    is none, leaves a source already at its target in place, and
    otherwise moves it to the first free name target, stem_1suffix, ...;
    [moves] lists exactly the successful moves, in plan order, and the
    final file system is the result of the empty-directory cleanup.  It
    raises exactly when a regular file occupies a cluster folder path or
    the target folder of the entry being processed. *)
Theorem sync_files_to_folders_spec fs ss plan names root :
  let folders := map (fun e => Fs.join root (snd e)) names in
  match Sync.sync_files_to_folders fs ss plan names root with
  | (inl moves, fs', ss') =>
      Sync.sync_lock ss' = false /\
      exists fs0 fs1, Sync.mkdir_all fs folders = inl fs0 /\
        runs root names fs0 plan fs1 moves /\
        fs' = Sync._cleanup_empty_dirs fs1 root (map snd names)
  | (inr _, _, ss') =>
      Sync.sync_lock ss' = false /\
      ((exists d, In d folders /\ Fs.is_file fs d = true) \/
       exists fs0 prefix item rest fs1 ms,
         Sync.mkdir_all fs folders = inl fs0 /\
         plan = app prefix (item :: rest) /\ runs root names fs0 prefix fs1 ms /\
         Fs.is_file fs1 (target_folder root names (snd item)) = true)
  end.
Proof.
  intros folders. unfold Sync.sync_files_to_folders. fold folders.
  destruct (Sync.mkdir_all fs folders) as [fs0|fs0] eqn:Em.
  - pose proof (sync_loop_spec root names plan fs0 (Sync.set_sync_lock true ss) [])
      as Hl.
    destruct (Sync.sync_loop root names (fs0, Sync.set_sync_lock true ss, []) plan)
      as [[[fs1 ss1] moves]|[fs1 ss1]].
    + destruct Hl as [ms [-> Hr]]. split; [reflexivity|].
      exists fs0, fs1. split; [reflexivity|]. split; [exact Hr| reflexivity].
    + split; [reflexivity|]. right.
      destruct Hl as [prefix [item [rest [fs2 [ms [Hp [Hr Hf]]]]]]].
      exists fs0, prefix, item, rest, fs2, ms. repeat split; assumption.
  - split; [reflexivity|]. left. exact (mkdir_all_inr _ _ _ Em).
Qed.

(** C8 (counterexample): no source path of the entry exists, yet the call
    raises instead of skipping it: its target folder
    ["/root/Uncategorised"] is a regular file, and [mkdir] runs before the
    sources are looked up. *)
Lemma sync_missing_source_can_raise :
  first_existing fs_blocked (candidates "/root" (snd (hd (0%Z, Sync.mkEntry "" "" "" 0) plan_gone)))
    = None /\
  fst (fst (Sync.sync_files_to_folders fs_blocked (Sync.mkSync false []) plan_gone [] "/root"))
    = inr tt.
Proof. split; vm_compute; reflexivity. Qed.

End SyncClaims.

Module SchedulerFacts.

Import Scheduler.

(** At most one live task, the current timer task; a running task holds
    the lock and runs with [_pending] cleared; otherwise the lock is free. *)
Definition Inv (s : Sched) : Prop :=
  match tasks s with
  | [] => _lock s = None
  | [(t, p)] =>
      _timer_task s = Some t /\
      match p with
      | Running => _pending s = false /\ _lock s = Some t
      | _ => _lock s = None
      end
  | _ => False
  end.

Lemma Inv_init t0 : Inv (init t0).
Proof. reflexivity. Qed.

Lemma Inv_single s t p : Inv s -> In (t, p) (tasks s) ->
  tasks s = [(t, p)] /\ _timer_task s = Some t /\
  match p with
  | Running => _pending s = false /\ _lock s = Some t
  | _ => _lock s = None
  end.
Proof.
  unfold Inv. destruct (tasks s) as [|[t' p'] [|x r]]; [intros _ []| |intros []].
  intros [Ht Hp] [Heq|[]]. injection Heq as -> ->. auto.
Qed.

Lemma exec_loop_inv s t :
  tasks s = [(t, Waiting)] \/ (tasks s = [(t, Running)] /\ _lock s = Some t) ->
  _timer_task s = Some t -> Inv (exec_loop s t).
Proof.
  intros Ht Htm. unfold exec_loop.
  destruct (_pending s);
    [destruct (in_cooldown (clear_pending s))|];
    unfold exit_task, clear_pending, set_phase, Inv, is_task; simpl;
    destruct Ht as [Ht|[Ht Hl]]; rewrite Ht; simpl; rewrite Nat.eqb_refl; simpl; auto.
Qed.

Lemma Inv_step s l s' : Inv s -> step s l s' -> Inv s'.
Proof.
  intros HI Hs. destruct Hs as [s d Hd|s|s t w Hin Hw|s t Hin Hl|s t Hin].
  - exact HI.
  - unfold Inv in *. unfold request, is_task. simpl.
    destruct (tasks s) as [|[t p] [|x r]]; simpl.
    + destruct (_timer_task s); rewrite HI; [destruct (_lock s)|]; simpl; auto.
    + destruct HI as [-> Hp]. simpl. rewrite Nat.eqb_refl. simpl.
      split; [reflexivity|].
      destruct p; [rewrite Hp; reflexivity|rewrite Hp; reflexivity|].
      destruct Hp as [_ ->]. simpl. rewrite Nat.eqb_refl. reflexivity.
    + destruct HI.
  - destruct (Inv_single _ _ _ HI Hin) as [Ht [Htm Hl]].
    unfold Inv, set_phase, is_task. simpl. rewrite Ht. simpl. rewrite Nat.eqb_refl. auto.
  - destruct (Inv_single _ _ _ HI Hin) as [Ht [Htm _]].
    apply exec_loop_inv; [left; exact Ht| exact Htm].
  - destruct (Inv_single _ _ _ HI Hin) as [Ht [Htm [_ Hl]]].
    apply exec_loop_inv; [right; split; assumption| exact Htm].
Qed.

Lemma Inv_steps s tr s' : Inv s -> steps s tr s' -> Inv s'.
Proof.
  intros HI Hs. induction Hs as [s|s l s1 tr s2 Hs _ IH]; [exact HI|].
  apply IH, (Inv_step _ _ _ HI Hs).
Qed.

Lemma Inv_reachable s : reachable s -> Inv s.
Proof. intros [t0 [tr Hs]]. exact (Inv_steps _ _ _ (Inv_init t0) Hs). Qed.

Lemma Inv_running_count s : Inv s -> (running_count s <= 1)%nat.
Proof.
  unfold Inv, running_count. destruct (tasks s) as [|[t p] [|x r]]; simpl.
  - lia.
  - intros _. destruct p; simpl; lia.
  - intros [].
Qed.

(** Before any new start after a completion at [T]: the completion time
    is unchanged and no task runs. *)
Definition before_start (T : Q) (s : Sched) : Prop :=
  _last_completed s = T /\ forall t, ~ In (t, Running) (tasks s).

(** After the first new start: the clock has passed [T + 5] and no
    request is pending. *)
Definition after_start (T : Q) (s : Sched) : Prop :=
  (T + COOLDOWN_SECONDS <= now s)%Q /\ _pending s = false.

Lemma in_filter_running t t' (l : list (nat * Phase)) :
  (forall u, ~ In (u, Running) l) ->
  ~ In (t, Running) (filter (fun tp => negb (is_task t' tp)) l).
Proof.
  intros H Hin. apply filter_In in Hin. exact (H t (proj1 Hin)).
Qed.

Lemma exec_loop_now s t : now (exec_loop s t) = now s.
Proof. unfold exec_loop. destruct (_pending s); [destruct (in_cooldown _)|]; reflexivity. Qed.

Lemma exec_loop_pending s t : _pending (exec_loop s t) = false.
Proof.
  unfold exec_loop. destruct (_pending s) eqn:E; [destruct (in_cooldown _)|];
    try reflexivity. exact E.
Qed.

Lemma after_start_steps T s tr s' :
  steps s tr s' -> after_start T s ->
  (forall r, In (LReq r) tr -> (r < T + COOLDOWN_SECONDS)%Q) ->
  count_starts tr = 0%nat.
Proof.
  intros Hs. induction Hs as [s|s l s1 tr s2 Hs _ IH]; intros [Hn Hp] Hreq;
    [reflexivity|].
  assert (Hreq' : forall r, In (LReq r) tr -> (r < T + COOLDOWN_SECONDS)%Q)
    by (intros r Hr; apply Hreq; right; exact Hr).
  destruct Hs as [s d Hd|s|s t w Hin Hw|s t Hin Hl|s t Hin]; simpl.
  - apply IH; [|exact Hreq']. split; [simpl; unfold COOLDOWN_SECONDS in *; lra| exact Hp].
  - exfalso. specialize (Hreq (now s) (or_introl eq_refl)).
    unfold COOLDOWN_SECONDS in *; lra.
  - apply IH; [split; assumption| exact Hreq'].
  - unfold loop_starts. rewrite Hp. simpl. apply IH; [|exact Hreq'].
    split; [rewrite exec_loop_now; exact Hn| apply exec_loop_pending].
  - unfold loop_starts, complete. simpl. rewrite Hp. simpl. apply IH; [|exact Hreq'].
    split; [rewrite exec_loop_now; exact Hn| apply exec_loop_pending].
Qed.

Lemma before_start_steps T s tr s' :
  (0 < T)%Q -> steps s tr s' -> before_start T s ->
  (forall r, In (LReq r) tr -> (r < T + COOLDOWN_SECONDS)%Q) ->
  (count_starts tr <= 1)%nat.
Proof.
  intros HT Hs. induction Hs as [s|s l s1 tr s2 Hs Hs2 IH]; intros [Hl0 Hnr] Hreq;
    [simpl; lia|].
  assert (Hreq' : forall r, In (LReq r) tr -> (r < T + COOLDOWN_SECONDS)%Q)
    by (intros r Hr; apply Hreq; right; exact Hr).
  destruct Hs as [s d Hd|s|s t w Hin Hw|s t Hin Hl|s t Hin]; simpl.
  - apply IH; [split; assumption| exact Hreq'].
  - apply IH; [|exact Hreq']. split; [exact Hl0|].
    intros u Hu. unfold request in Hu. simpl in Hu. apply in_app_or in Hu.
    destruct Hu as [Hu|[Hu|[]]]; [|discriminate].
    destruct (_timer_task s); [exact (in_filter_running _ _ _ Hnr Hu)| exact (Hnr u Hu)].
  - apply IH; [|exact Hreq']. split; [exact Hl0|].
    intros u Hu. unfold set_phase in Hu. simpl in Hu. apply in_map_iff in Hu.
    destruct Hu as [[u' p] [Heq Hu]]. destruct (is_task t (u', p)).
    + discriminate.
    + injection Heq as -> ->. exact (Hnr u Hu).
  - destruct (loop_starts s) eqn:Els.
    + (* the first start: the cooldown has expired *)
      unfold loop_starts, in_cooldown in Els. rewrite Hl0 in Els.
      apply andb_prop in Els. destruct Els as [Hp Hc].
      assert (Hnz : Qle_bool T 0 = false).
      { destruct (Qle_bool T 0) eqn:E; [|reflexivity].
        apply Qle_bool_iff in E. lra. }
      rewrite Hnz in Hc. simpl in Hc. apply negb_true_iff in Hc.
      destruct (Qle_bool COOLDOWN_SECONDS (now s - T)) eqn:E; [|discriminate].
      apply Qle_bool_iff in E.
      assert (Hz : count_starts tr = 0%nat).
      { apply (after_start_steps T _ _ _ Hs2); [|exact Hreq'].
        split; [rewrite exec_loop_now; unfold COOLDOWN_SECONDS in *; lra|].
        apply exec_loop_pending. }
      rewrite Hz. simpl. lia.
    + apply IH; [|exact Hreq'].
      unfold exec_loop. unfold loop_starts in Els.
      assert (Hex : exists s', exec_loop s t = exit_task s' t /\
                               _last_completed s' = T /\ tasks s' = tasks s).
      { unfold exec_loop. destruct (_pending s) eqn:Hp.
        - simpl in Els. unfold clear_pending.
          assert (Hc : in_cooldown s = true) by (destruct (in_cooldown s); [reflexivity|discriminate]).
          replace (in_cooldown _) with (in_cooldown s) by reflexivity. rewrite Hc.
          eexists; split; [reflexivity| split; [exact Hl0| reflexivity]].
        - exists s. split; [reflexivity| split; [exact Hl0| reflexivity]]. }
      destruct Hex as [s' [He [Hl' Ht']]]. fold (exec_loop s t). rewrite He.
      split; [exact Hl'|]. intros u Hu. unfold exit_task in Hu. simpl in Hu.
      rewrite Ht' in Hu. exact (in_filter_running _ _ _ Hnr Hu).
  - exfalso. exact (Hnr t Hin).
Qed.

End SchedulerFacts.

Module SchedulerClaims.

Import Scheduler SchedulerFacts.

(** C7: in every execution of [ReclusterScheduler] at most one
    [run_clustering] runs at a time; and once a run completes at time
    [T > 0], if every later [request()] comes before [T + COOLDOWN_SECONDS],
    then at most one more run starts from then on. *)
Theorem recluster_scheduler_spec :
  (forall s, reachable s -> (running_count s <= 1)%nat) /\
  (forall s0 l s1 tr s2,
     reachable s0 -> step s0 l s1 -> completes l = true ->
     (0 < now s1)%Q -> steps s1 tr s2 ->
     (forall r, In (LReq r) tr -> (r < now s1 + COOLDOWN_SECONDS)%Q) ->
     (count_starts (l :: tr) <= 1)%nat).
Proof.
  split.
  - intros s Hr. apply Inv_running_count, Inv_reachable, Hr.
  - intros s0 l s1 tr s2 Hr Hs Hc HT Htr Hreq.
    pose proof (Inv_reachable _ Hr) as HI.
    destruct Hs as [s d Hd|s|s t w Hin Hw|s t Hin Hl|s t Hin];
      try discriminate Hc.
    destruct (Inv_single _ _ _ HI Hin) as [Ht [_ [Hp _]]].
    assert (Hls : loop_starts (complete s) = false)
      by (unfold loop_starts; simpl; rewrite Hp; reflexivity).
    rewrite Hls. simpl.
    assert (Hnow : now (exec_loop (complete s) t) = now s)
      by (rewrite exec_loop_now; reflexivity).
    rewrite Hnow in HT, Hreq.
    apply (before_start_steps (now s) _ _ _ HT Htr); [|exact Hreq].
    unfold exec_loop. simpl. rewrite Hp. split; [reflexivity|].
    intros u Hu. unfold exit_task in Hu. simpl in Hu. rewrite Ht in Hu.
    unfold is_task in Hu. simpl in Hu. rewrite Nat.eqb_refl in Hu. exact Hu.
Qed.

(** A run completing at 4 followed by requests at 5 and 8: the bound is
    reached, the second request starting one run at 10. *)
Lemma recluster_scheduler_spec_witness :
  (count_starts (LFinish false :: Inputs.sched_tr) <= 1)%nat /\
  count_starts (LFinish false :: Inputs.sched_tr) = 1%nat.
Proof.
  split; [|reflexivity].
  apply (proj2 recluster_scheduler_spec Inputs.sched_s0 (LFinish false)
           Inputs.sched_s1 Inputs.sched_tr Inputs.sched_s2).
  - exists 1%Q, [LReq 1; LTick; LWake; LGrant true; LTick].
    eapply steps_cons; [apply st_request|].
    eapply steps_cons; [apply (st_tick _ 2); discriminate|].
    eapply steps_cons;
      [apply (st_wake _ 0 (1 + _delay)%Q); [simpl; left; reflexivity|discriminate]|].
    eapply steps_cons; [match goal with |- step ?s _ _ => apply (st_grant s 0) end; [simpl; left; reflexivity|reflexivity]|].
    eapply steps_cons; [apply (st_tick _ 1); discriminate|].
    apply steps_nil.
  - apply (st_finish Inputs.sched_s0 0). vm_compute. left. reflexivity.
  - reflexivity.
  - reflexivity.
  - eapply steps_cons; [apply (st_tick _ 1); discriminate|].
    eapply steps_cons; [apply st_request|].
    eapply steps_cons; [apply (st_tick _ 3); discriminate|].
    eapply steps_cons; [apply st_request|].
    eapply steps_cons; [apply (st_tick _ 2); discriminate|].
    eapply steps_cons;
      [apply (st_wake _ 2 (8 + _delay)%Q);
         [vm_compute; left; reflexivity|discriminate]|].
    eapply steps_cons;
      [match goal with |- step ?s _ _ => apply (st_grant s 2) end; [vm_compute; left; reflexivity|reflexivity]|].
    apply steps_nil.
  - intros r Hr. simpl in Hr.
    repeat (destruct Hr as [Hr|Hr]; [try discriminate Hr|]); [..|destruct Hr];
      injection Hr as <-; reflexivity.
Defined.

End SchedulerClaims.

Module DbFacts.
Import Db.

(** The invariant SQLite keeps on table [files]: row ids are distinct and
    below the AUTOINCREMENT counter, and [original_path] is UNIQUE. *)
Definition files_ok (st : Store) : Prop :=
  NoDup (map id (files st)) /\
  Forall (fun g => (id g < next_id st)%Z) (files st) /\
  NoDup (map original_path (files st)).

Lemma find_some_in {A} (p : A -> bool) l x : find p l = Some x -> In x l /\ p x = true.
Proof.
  induction l as [|a l IH]; simpl; [discriminate|].
  destruct (p a) eqn:E; [intros [= <-]; auto|intros H; destruct (IH H); auto].
Qed.

Lemma find_map_id (g : FileRecord -> FileRecord) (i : Z) (l : list FileRecord) x :
  (forall f, id (g f) = id f) -> NoDup (map id l) -> In x l -> id x = i ->
  find (fun f => (id f =? i)%Z) (map (fun f => if (id f =? i)%Z then g f else f) l)
  = Some (g x).
Proof.
  intros Hg. induction l as [|a l IH]; simpl; [intros _ []|].
  intros Hnd Hin Hid. inversion Hnd as [|? ? Hnot Hnd']; subst.
  destruct (Z.eqb_spec (id a) (id x)) as [Ha|Ha].
  - rewrite Hg, Ha, Z.eqb_refl. destruct Hin as [->|Hin]; [reflexivity|].
    exfalso. apply Hnot. rewrite Ha. apply in_map, Hin.
  - destruct Hin as [->|Hin]; [congruence|].
    destruct (Z.eqb_spec (id a) (id x)); [congruence|]. simpl.
    destruct (Z.eqb_spec (id a) (id x)); [congruence|]. apply IH; auto.
Qed.

Lemma find_app_none {A} (p : A -> bool) l1 l2 :
  find p l1 = None -> find p (app l1 l2) = find p l2.
Proof. induction l1 as [|a l IH]; simpl; [auto|destruct (p a); [discriminate|auto]]. Qed.

Lemma find_none_forall {A} (p : A -> bool) l :
  (forall x, In x l -> p x = false) -> find p l = None.
Proof.
  induction l as [|a l IH]; simpl; [auto|]. intros H.
  rewrite (H a (or_introl eq_refl)). apply IH. auto.
Qed.

Lemma find_none_in {A} (p : A -> bool) l x : find p l = None -> In x l -> p x = false.
Proof.
  induction l as [|a l IH]; simpl; [intros _ []|].
  destruct (p a) eqn:E; [discriminate|]. intros H [->|Hin]; auto.
Qed.

Lemma map_original_path_map_file st i (g : FileRecord -> FileRecord) :
  (forall f, original_path (g f) = original_path f) ->
  map original_path (files (map_file st i g)) = map original_path (files st).
Proof.
  intros Hg. unfold map_file, set_files. simpl. rewrite map_map.
  apply map_ext. intros f. destruct (id f =? i)%Z; auto.
Qed.

Lemma map_id_map_file st i (g : FileRecord -> FileRecord) :
  (forall f, id (g f) = id f) -> map id (files (map_file st i g)) = map id (files st).
Proof.
  intros Hg. unfold map_file, set_files. simpl. rewrite map_map.
  apply map_ext. intros f. destruct (id f =? i)%Z; auto.
Qed.

End DbFacts.

Module DbExtras.
Import Db DbFacts.

(** upsert_file / get_file_by_id: on a store that keeps the invariant of
    table [files], the id returned by [upsert_file] designates a row with
    all the fields of the given record; [created_at] is the stored one
    when a row with the same [original_path] already existed. *)
Theorem upsert_file_get_file_by_id (st : Store) (f : FileRecord) :
  files_ok st ->
  let created :=
    match find (fun g => String.eqb (original_path g) (original_path f)) (files st) with
    | Some g => created_at g
    | None => created_at f
    end in
  let '(i, st') := upsert_file st f in
  get_file_by_id st' i =
    Some (mkFile i (filename f) (original_path f) (current_path f) (content_hash f)
            (embedding f) (umap_x f) (umap_y f) (cluster_id f) (summary f)
            (file_type f) (size_bytes f) (word_count f) (page_count f)
            created (modified_at f)).
Proof.
  intros [Hnd [Hlt _]] created. subst created. unfold upsert_file.
  destruct (find _ (files st)) as [g|] eqn:Hf.
  - destruct (find_some_in _ _ _ Hf) as [Hin Hp].
    apply String.eqb_eq in Hp. unfold get_file_by_id, map_file, set_files. simpl.
    rewrite (find_map_id _ (id g) (files st) g) by (auto; reflexivity).
    rewrite Hp. reflexivity.
  - unfold get_file_by_id. simpl. rewrite find_app_none.
    + simpl. rewrite Z.eqb_refl. reflexivity.
    + apply find_none_forall. intros x Hx. rewrite Forall_forall in Hlt.
      specialize (Hlt x Hx). apply Z.eqb_neq. lia.
Qed.

(** upsert_file keeps the invariant of table [files]: ids stay distinct
    and below the counter, and no second row is created for an
    [original_path] (ON CONFLICT updates the existing row). *)
Theorem upsert_file_files_ok (st : Store) (f : FileRecord) :
  files_ok st -> files_ok (snd (upsert_file st f)).
Proof.
  intros [Hnd [Hlt Hop]]. unfold upsert_file, files_ok.
  destruct (find _ (files st)) as [g|] eqn:Hf; cbn [snd files next_id].
  - split; [|split].
    + rewrite map_id_map_file by reflexivity. exact Hnd.
    + unfold map_file, set_files. simpl. rewrite Forall_forall in *.
      intros x Hx. apply in_map_iff in Hx. destruct Hx as [y [<- Hy]].
      destruct (id y =? id g)%Z; simpl; apply Hlt, Hy.
    + rewrite map_original_path_map_file by reflexivity. exact Hop.
  - split; [|split].
    + rewrite map_app. simpl. apply NoDup_app; auto.
      * constructor; [intros []|constructor].
      * intros x Hx [<-|[]]. apply in_map_iff in Hx. destruct Hx as [y [Hy Hin]].
        rewrite Forall_forall in Hlt. specialize (Hlt y Hin). lia.
    + apply Forall_app. split.
      * eapply Forall_impl; [|exact Hlt]. simpl. intros a Ha. lia.
      * constructor; [simpl; lia|constructor].
    + rewrite map_app. simpl. apply NoDup_app; auto.
      * constructor; [intros []|constructor].
      * intros x Hx [Heq|[]]. apply in_map_iff in Hx. destruct Hx as [y [Hy Hin]].
        pose proof (find_none_in _ _ y Hf Hin) as Hy'. simpl in Hy'.
        rewrite Hy, Heq, String.eqb_refl in Hy'. discriminate.
Qed.

End DbExtras.

Module DbExtrasWitness.
Import Db DbFacts DbExtras.

Lemma upsert_file_get_file_by_id_witness :
  get_file_by_id (snd (upsert_file Inputs.store_dup ExtraInputs.rec_B2)) 2%Z =
  Some (mkFile 2 "y.txt" "/root/y.txt" "/root/y.txt" "h2" None 0 0 (-1) "new"
          "txt" 2 1 1 "t1" "t9").
Proof.
  exact (upsert_file_get_file_by_id Inputs.store_dup ExtraInputs.rec_B2
    ltac:(unfold files_ok; simpl; repeat split; repeat constructor; simpl;
          intuition (try discriminate; try lia))).
Defined.

Lemma upsert_file_files_ok_witness :
  files_ok (snd (upsert_file Inputs.store_dup ExtraInputs.rec_B2)).
Proof.
  exact (upsert_file_files_ok Inputs.store_dup ExtraInputs.rec_B2
    ltac:(unfold files_ok; simpl; repeat split; repeat constructor; simpl;
          intuition (try discriminate; try lia))).
Defined.

End DbExtrasWitness.

Module DbExtras2.
Import Db DbFacts.

(** delete_file_by_path: afterwards no row is found for the path, and
    every row whose original and current paths both differ from it is
    still there. *)
Theorem delete_file_by_path_spec (st : Store) (path : string) :
  get_file_by_path (delete_file_by_path st path) path = None /\
  (forall f, In f (files st) -> original_path f <> path -> current_path f <> path ->
             In f (files (delete_file_by_path st path))).
Proof.
  split.
  - unfold get_file_by_path, delete_file_by_path, set_files. simpl.
    apply find_none_forall. intros x Hx. apply filter_In in Hx.
    destruct Hx as [_ Hx]. apply negb_true_iff in Hx. exact Hx.
  - intros f Hin H1 H2. unfold delete_file_by_path, set_files. simpl.
    apply filter_In. split; [exact Hin|].
    apply String.eqb_neq in H1, H2. rewrite H1, H2. reflexivity.
Qed.

(** Table [clusters] in strictly increasing [id] order. *)
Definition clusters_sorted (l : list ClusterRecord) : Prop :=
  Sorted (fun a b => (cl_id a < cl_id b)%Z) l.

Lemma insert_cluster_head c d r :
  (cl_id d < cl_id c)%Z ->
  HdRel (fun a b => (cl_id a < cl_id b)%Z) d r ->
  HdRel (fun a b => (cl_id a < cl_id b)%Z) d (insert_cluster c r).
Proof.
  intros Hdc Hd. destruct r as [|e r]; simpl.
  - constructor. exact Hdc.
  - inversion Hd; subst.
    destruct (Z.eqb_spec (cl_id c) (cl_id e)); [constructor; lia|].
    destruct (Z.ltb_spec (cl_id c) (cl_id e)); constructor; lia.
Qed.

Lemma insert_cluster_sorted c l :
  clusters_sorted l -> clusters_sorted (insert_cluster c l).
Proof.
  unfold clusters_sorted. induction l as [|d r IH]; simpl; intros Hs.
  - repeat constructor.
  - inversion Hs as [|? ? Hr Hd]; subst.
    destruct (Z.eqb_spec (cl_id c) (cl_id d)) as [E|E].
    + constructor; [exact Hr|]. destruct r as [|e r]; constructor.
      inversion Hd; subst. lia.
    + destruct (Z.ltb_spec (cl_id c) (cl_id d)).
      * constructor; [exact Hs|]. constructor. lia.
      * constructor; [apply IH, Hr|]. apply insert_cluster_head; [lia|exact Hd].
Qed.

Lemma sorted_find_lt (k : Z) d r :
  Sorted (fun a b => (cl_id a < cl_id b)%Z) (d :: r) -> (k <= cl_id d)%Z ->
  forall x, In x r -> (cl_id x =? k)%Z = false.
Proof.
  intros Hs Hk x Hx. apply Sorted_StronglySorted in Hs.
  - inversion Hs as [|? ? _ Hall]; subst. rewrite Forall_forall in Hall.
    specialize (Hall x Hx). apply Z.eqb_neq. lia.
  - intros a b e. lia.
Qed.

(** upsert_cluster: the table stays sorted by id with one row per id;
    the row read back by id is the one written, the other ids read back
    what they read before. *)
Theorem upsert_cluster_spec (st : Store) (c : ClusterRecord) :
  clusters_sorted (clusters st) ->
  clusters_sorted (clusters (upsert_cluster st c)) /\
  find (fun d => (cl_id d =? cl_id c)%Z) (clusters (upsert_cluster st c)) = Some c /\
  (forall k, k <> cl_id c ->
     find (fun d => (cl_id d =? k)%Z) (clusters (upsert_cluster st c)) =
     find (fun d => (cl_id d =? k)%Z) (clusters st)).
Proof.
  unfold upsert_cluster. simpl. intros Hs. split; [apply insert_cluster_sorted, Hs|].
  split.
  - clear Hs. induction (clusters st) as [|d r IH]; simpl.
    + rewrite Z.eqb_refl. reflexivity.
    + destruct (Z.eqb_spec (cl_id c) (cl_id d)); simpl; [rewrite Z.eqb_refl; reflexivity|].
      destruct (Z.ltb_spec (cl_id c) (cl_id d)); simpl; [rewrite Z.eqb_refl; reflexivity|].
      destruct (Z.eqb_spec (cl_id d) (cl_id c)); [congruence|exact IH].
  - intros k Hk. clear Hs.
    assert (Hk' : (cl_id c =? k)%Z = false) by (apply Z.eqb_neq; congruence).
    induction (clusters st) as [|d r IH]; simpl.
    + rewrite Hk'. reflexivity.
    + destruct (Z.eqb_spec (cl_id c) (cl_id d)) as [E|E]; simpl.
      * rewrite Hk', <- E, Hk'. reflexivity.
      * destruct (Z.ltb_spec (cl_id c) (cl_id d)); simpl.
        -- rewrite Hk'. reflexivity.
        -- destruct (cl_id d =? k)%Z; [reflexivity|exact IH].
Qed.

End DbExtras2.

Module SettingsExtras.
Import SettingsDb.

Lemma get_setting_app_none t t' key :
  find (fun r => String.eqb (fst r) key) t = None ->
  get_setting (app t t') key = get_setting t' key.
Proof. intros H. unfold get_setting. rewrite DbFacts.find_app_none by exact H. reflexivity. Qed.

Lemma get_set_setting t key value key' :
  get_setting (set_setting t key value) key' =
  if String.eqb key key' then Some value else get_setting t key'.
Proof.
  unfold set_setting. destruct (String.eqb_spec key key') as [<-|Hne].
  - rewrite get_setting_app_none.
    + unfold get_setting. simpl. rewrite String.eqb_refl. reflexivity.
    + apply DbFacts.find_none_forall. intros x Hx. apply filter_In in Hx.
      destruct Hx as [_ Hx]. apply negb_true_iff in Hx. exact Hx.
  - unfold get_setting. induction t as [|[k v] r IH]; simpl.
    + apply String.eqb_neq in Hne. rewrite Hne. reflexivity.
    + destruct (String.eqb_spec k key) as [->|Hk]; simpl.
      * apply String.eqb_neq in Hne. rewrite Hne. exact IH.
      * destruct (String.eqb k key'); [reflexivity|exact IH].
Qed.

(** set_setting / get_setting: reading a key back after writing it gives
    the value written; other keys are unaffected. *)
Theorem set_setting_get_setting t key value key' :
  get_setting (set_setting t key value) key = Some value /\
  (key' <> key -> get_setting (set_setting t key value) key' = get_setting t key').
Proof.
  split.
  - rewrite get_set_setting, String.eqb_refl. reflexivity.
  - intros Hne. rewrite get_set_setting.
    destruct (String.eqb_spec key key'); [congruence|reflexivity].
Qed.

(** set_settings_bulk: after writing a dict (keys distinct, as in a
    Python dict), each key of the dict reads back its value in the dict,
    and every other key reads back its previous value. *)
Theorem set_settings_bulk_get_setting t (d : list (string * string)) key :
  NoDup (map fst d) ->
  get_setting (set_settings_bulk t d) key =
  match Embedder.assoc key d with
  | Some v => Some v
  | None => get_setting t key
  end.
Proof.
  unfold set_settings_bulk. revert t. induction d as [|[k v] r IH]; intros t Hnd; simpl.
  - reflexivity.
  - inversion Hnd as [|? ? Hnot Hnd']; subst. rewrite IH by exact Hnd'.
    rewrite get_set_setting.
    destruct (String.eqb_spec key k) as [->|Hne].
    + rewrite String.eqb_refl.
      assert (Hr : Embedder.assoc k r = None).
      { clear -Hnot. induction r as [|[k' v'] r IH]; simpl; [reflexivity|].
        destruct (String.eqb_spec k k') as [->|]; [exfalso; apply Hnot; left; reflexivity|].
        apply IH. intros H. apply Hnot. right. exact H. }
      rewrite Hr. reflexivity.
    + destruct (String.eqb_spec k key); [congruence|]. reflexivity.
Qed.

End SettingsExtras.

Module DbExtras2Witness.
Import Db DbExtras2 SettingsExtras.

Lemma delete_file_by_path_spec_witness :
  get_file_by_path (delete_file_by_path Inputs.store_dup "/root/y.txt") "/root/y.txt" = None /\
  In Inputs.rec_A (files (delete_file_by_path Inputs.store_dup "/root/y.txt")).
Proof.
  destruct (delete_file_by_path_spec Inputs.store_dup "/root/y.txt") as [H1 H2].
  split; [exact H1|].
  apply H2; [left; reflexivity|discriminate|discriminate].
Defined.

Lemma upsert_cluster_spec_witness :
  clusters_sorted (clusters (upsert_cluster ExtraInputs.store_clusters ExtraInputs.cluster_one)) /\
  find (fun d => (cl_id d =? 1)%Z)
    (clusters (upsert_cluster ExtraInputs.store_clusters ExtraInputs.cluster_one))
  = Some ExtraInputs.cluster_one.
Proof.
  destruct (upsert_cluster_spec ExtraInputs.store_clusters ExtraInputs.cluster_one
              ltac:(unfold clusters_sorted; simpl; repeat constructor))
    as [H1 [H2 _]].
  split; [exact H1|exact H2].
Defined.

Lemma set_settings_bulk_get_setting_witness :
  SettingsDb.get_setting
    (SettingsDb.set_settings_bulk ExtraInputs.settings_old ExtraInputs.settings_new)
    "embed_model" = Some "bge".
Proof.
  rewrite (set_settings_bulk_get_setting ExtraInputs.settings_old ExtraInputs.settings_new
             "embed_model" ltac:(simpl; repeat constructor; simpl; intuition discriminate)).
  reflexivity.
Defined.

End DbExtras2Witness.

Module StringFacts.

Lemma length_string_append (s1 s2 : string) :
  String.length (s1 ++ s2) = (String.length s1 + String.length s2)%nat.
Proof. induction s1 as [|c s1 IH]; simpl; [reflexivity|]. rewrite IH. reflexivity. Qed.

Lemma length_substring (n m : nat) (s : string) :
  String.length (substring n m s) = Nat.min m (String.length s - n).
Proof.
  revert n m. induction s as [|c s IH]; intros n m; destruct n as [|n], m as [|m];
    cbn [substring String.length]; try rewrite IH; lia.
Qed.

Lemma length_take (n : nat) (s : string) :
  String.length (take n s) = Nat.min n (String.length s).
Proof. unfold take. rewrite length_substring. f_equal. lia. Qed.

Lemma length_take_last (n : nat) (s : string) :
  (n <= String.length s)%nat -> String.length (take_last n s) = n.
Proof. intros H. unfold take_last. rewrite length_substring. lia. Qed.

Lemma length_string_of_list_ascii (l : list ascii) :
  String.length (string_of_list_ascii l) = List.length l.
Proof. induction l as [|c l IH]; simpl; [reflexivity|]. rewrite IH. reflexivity. Qed.

Lemma length_list_ascii_of_string (s : string) :
  List.length (list_ascii_of_string s) = String.length s.
Proof. induction s as [|c s IH]; simpl; [reflexivity|]. rewrite IH. reflexivity. Qed.

Lemma length_drop_space (l : list ascii) :
  (List.length (drop_space l) <= List.length l)%nat.
Proof. induction l as [|c l IH]; simpl; [lia|]. destruct (isspace c); simpl; lia. Qed.

Lemma length_strip (s : string) : (String.length (strip s) <= String.length s)%nat.
Proof.
  unfold strip. rewrite length_string_of_list_ascii, length_rev.
  rewrite <- (length_list_ascii_of_string s).
  pose proof (length_drop_space (list_ascii_of_string s)) as H1.
  pose proof (length_drop_space (rev (drop_space (list_ascii_of_string s)))) as H2.
  rewrite length_rev in H2. lia.
Qed.

End StringFacts.

Module EmbedderExtras.
Import Embedder EmbedderFacts EmbedderExtra StringFacts.

Lemma assoc_set_other {A} (k k' : string) (v : A) l :
  k' <> k -> assoc k' (assoc_set k v l) = assoc k' l.
Proof.
  intros Hne. induction l as [|[j w] r IH]; simpl.
  - destruct (String.eqb_spec k' k); [contradiction|reflexivity].
  - destruct (String.eqb_spec k j) as [->|Hkj]; simpl.
    + destruct (String.eqb_spec k' j); [contradiction|reflexivity].
    + destruct (String.eqb k' j); [reflexivity|exact IH].
Qed.

Lemma length_fallback_summary (text : string) :
  (String.length (_fallback_summary text) <= 203)%nat.
Proof.
  unfold _fallback_summary. cbv zeta.
  destruct (String.eqb (strip text) ""); [simpl; lia|].
  destruct (Nat.leb (String.length (strip text)) 200).
  - rewrite length_take. lia.
  - rewrite length_string_append, length_take. cbn [String.length]. lia.
Qed.

(** [get_expected_embedding_dim] is always positive: every entry of
    [OPENAI_EMBED_DIMS] and the default 1536 are positive, and a
    non-positive recorded local dimension is replaced by 768. *)
Theorem get_expected_embedding_dim_pos settings st :
  (0 < get_expected_embedding_dim settings st)%Z.
Proof.
  unfold get_expected_embedding_dim.
  destruct (String.eqb _ "openai").
  - unfold OPENAI_EMBED_DIMS. simpl.
    repeat match goal with |- context [if ?b then _ else _] => destruct b end; lia.
  - cbv zeta. destruct (assoc "ollama" (last_embed_dims st)) as [d|];
      [destruct (Z.gtb_spec d 0)|]; cbn; lia.
Qed.

(** [_truncate_text] leaves a text of at most 20000 characters unchanged
    and turns a longer one into exactly 20005 characters (10000 + 5 +
    10000). *)
Theorem truncate_text_length (text : string) :
  String.length (_truncate_text text) =
  if (String.length text <=? 20000)%nat then String.length text else 20005%nat.
Proof.
  unfold _truncate_text, MAX_CHARS.
  destruct (Nat.leb_spec (String.length text) 20000); [reflexivity|].
  replace (Nat.div 20000 2) with 10000%nat by reflexivity.
  assert (G : forall h, (h <= String.length text)%nat ->
            String.length (take h text ++ nl ++ "..." ++ nl ++ take_last h text) =
            (h + 5 + h)%nat).
  { intros h Hh. rewrite !length_string_append, length_take, length_take_last by exact Hh.
    cbn [String.length nl]. lia. }
  rewrite G; [reflexivity|].
  apply Nat.le_trans with 20000%nat; [apply Nat.leb_le; reflexivity|lia].
Qed.

(** [generate_summary] never returns more than 300 characters: the LLM
    reply is cut to 300 and the fallback has at most 203. *)
Theorem generate_summary_length ochat achat settings (text : string) :
  (String.length (generate_summary ochat achat settings text) <= 300)%nat.
Proof.
  pose proof (length_fallback_summary text) as Hf.
  unfold generate_summary.
  destruct (_ || _)%bool; [lia|].
  destruct (String.eqb (_preferred_provider settings) "openai").
  - destruct (String.eqb (openai_api_key settings) ""); [lia|].
    destruct (achat _); [rewrite length_take|]; lia.
  - destruct (ochat _); [rewrite length_take|]; lia.
Qed.

(** [get_embedding_matching_dim] with a non-negative target returns a
    vector of exactly [target_dim] entries whose entry [i] is entry [i]
    of the [get_embedding] vector, or 0 past its end (zero padding or
    truncation), and the same runtime state as [get_embedding]. *)
Theorem get_embedding_matching_dim_spec oe ae settings st text (target_dim : Z) :
  (0 <= target_dim)%Z ->
  let e := get_embedding oe ae settings st text in
  let res := get_embedding_matching_dim oe ae settings st text target_dim in
  Z.of_nat (List.length (fst res)) = target_dim /\ snd res = snd e /\
  (forall i : nat, (Z.of_nat i < target_dim)%Z -> nth i (fst res) 0%Q = nth i (fst e) 0%Q).
Proof.
  intros Ht e res. unfold res, get_embedding_matching_dim. fold e.
  destruct e as [emb st']. cbn [fst snd].
  destruct (Z.eqb_spec (Z.of_nat (List.length emb)) target_dim) as [E|E].
  - cbn [fst snd]. auto.
  - destruct (Z.ltb_spec (Z.of_nat (List.length emb)) target_dim) as [L|L];
      cbn [fst snd].
    + split; [|split; [reflexivity|]].
      * rewrite length_app, repeat_length. lia.
      * intros i Hi. destruct (Nat.ltb_spec i (List.length emb)).
        -- apply app_nth1. assumption.
        -- rewrite app_nth2 by assumption. rewrite nth_overflow with (l := emb) by assumption.
           apply nth_repeat.
    + unfold slice_to. destruct (Z.leb_spec 0 target_dim); [|lia].
      split; [|split; [reflexivity|]].
      * rewrite length_firstn. lia.
      * intros i Hi. rewrite nth_firstn.
        destruct (Nat.ltb_spec i (Z.to_nat target_dim)); [reflexivity|lia].
Qed.


(** [reset_runtime_state] marks both providers' availability as unknown
    and leaves the expected embedding dimension unchanged. *)
Theorem reset_runtime_state_spec settings st :
  let st' := reset_runtime_state settings st in
  assoc "ollama" (provider_available st') = Some None /\
  assoc "openai" (provider_available st') = Some None /\
  get_expected_embedding_dim settings st' = get_expected_embedding_dim settings st.
Proof.
  cbv zeta. unfold reset_runtime_state. cbn [provider_available last_embed_dims].
  split; [|split].
  - rewrite assoc_set_other by discriminate. apply assoc_set_same.
  - apply assoc_set_same.
  - unfold get_expected_embedding_dim. destruct (String.eqb _ "openai"); [reflexivity|].
    cbn [last_embed_dims]. rewrite assoc_set_other by discriminate. reflexivity.
Qed.

Lemma get_embedding_matching_dim_spec_witness :
  fst (get_embedding_matching_dim (fun _ => Some [3%Q; 4%Q]) (fun _ => None)
         Inputs.ollama_settings Inputs.embedder_init "hello" 3) = [3%Q; 4%Q; 0%Q] /\
  Z.of_nat (List.length (fst (get_embedding_matching_dim (fun _ => Some [3%Q; 4%Q])
         (fun _ => None) Inputs.ollama_settings Inputs.embedder_init "hello" 3))) = 3%Z.
Proof.
  destruct (get_embedding_matching_dim_spec (fun _ => Some [3%Q; 4%Q]) (fun _ => None)
              Inputs.ollama_settings Inputs.embedder_init "hello" 3 ltac:(lia))
    as [H _].
  split; [vm_compute; reflexivity|exact H].
Defined.


End EmbedderExtras.

Module ExtractorExtras.
Import Extractor.

Lemma lookup_file_exists fs p b :
  Fs.lookup_file fs p = Some b -> Fs.exists_ fs p = true.
Proof.
  unfold Fs.lookup_file, Fs.exists_, Fs.is_file.
  destruct (find _ _) as [[q b']|] eqn:Hf; [|discriminate]. intros _.
  apply find_some in Hf. destruct Hf as [Hin Heq].
  apply orb_true_intro. left. apply orb_true_intro. right.
  apply existsb_exists. exists (q, b'). auto.
Qed.

(** The result of [extract] on a readable file, with the branch on the
    suffix left as a pair [(text, pages)]. *)
Lemma extract_readable sha dec pdf md docx csv fs p b :
  Fs.lookup_file fs p = Some b ->
  exists t pg,
    extract sha dec pdf md docx csv fs p =
      Some (mkResult t (if String.eqb t "" then 0%Z
                        else Z.of_nat (List.length (split_words t)))
                     pg (lstrip_dots (lower (Fs.suffix p))) (sha b)
                     (Z.of_nat (List.length b))) /\
    (let sfx := lower (Fs.suffix p) in
     if String.eqb sfx ".pdf" then _extract_pdf pdf fs p
     else if mem sfx [".txt"; ".text"; ".rst"] then (_extract_text dec fs p, 1%Z)
     else if mem sfx [".md"; ".markdown"] then (_extract_markdown dec md fs p, 1%Z)
     else if String.eqb sfx ".docx" then _extract_docx docx fs p
     else if String.eqb sfx ".csv" then (_extract_csv csv fs p, 1%Z)
     else if mem sfx _CODE_EXTENSIONS || mem (lower (Fs.name p)) _PLAIN_TEXT_NAMES
     then (_extract_text dec fs p, 1%Z)
     else ("", 0%Z)) = (t, pg).
Proof.
  intros Hl. unfold extract. rewrite (lookup_file_exists _ _ _ Hl). cbn [negb].
  unfold compute_hash. rewrite Hl. cbv zeta.
  match goal with |- context [let '(_, _) := ?e in _] => destruct e as [t pg] eqn:Hbr end.
  exists t, pg. split; reflexivity.
Qed.

Lemma split_words_aux_nil (l cur : list ascii) :
  split_words_aux l cur = [] <-> cur = [] /\ forallb isspace l = true.
Proof.
  revert cur. induction l as [|c r IH]; intros cur; simpl.
  - destruct cur; split; intros H; try discriminate; try (destruct H; discriminate); auto.
  - destruct (isspace c) eqn:Hc; simpl.
    + destruct cur as [|d cur].
      * rewrite IH. tauto.
      * split; intros H; [discriminate|destruct H; discriminate].
    + rewrite IH. split; intros [H1 H2]; discriminate.
Qed.

Lemma split_words_nil (s : string) :
  split_words s = [] <-> forallb isspace (list_ascii_of_string s) = true.
Proof.
  unfold split_words.
  transitivity (split_words_aux (list_ascii_of_string s) [] = []).
  - destruct (split_words_aux _ _); simpl; split; intros H; congruence.
  - rewrite split_words_aux_nil. tauto.
Qed.

Lemma lstrip_dots_no_dot (s : string) : starts_with_dot (lstrip_dots s) = false.
Proof.
  induction s as [|c s IH]; simpl; [reflexivity|].
  destruct (Ascii.eqb_spec c "."%char) as [->|Hc]; [exact IH|].
  simpl. apply Ascii.eqb_neq. exact Hc.
Qed.

Lemma mem_true_in (s : string) (l : list string) : mem s l = true -> In s l.
Proof.
  unfold mem. intros H. apply existsb_exists in H. destruct H as [x [Hin Hx]].
  apply String.eqb_eq in Hx. subst. exact Hin.
Qed.

Lemma mem_in_true (s : string) (l : list string) : In s l -> mem s l = true.
Proof.
  intros H. unfold mem. apply existsb_exists. exists s. split; [exact H|apply String.eqb_refl].
Qed.

Lemma mem_sub (s : string) (l1 l2 : list string) :
  forallb (fun x => mem x l2) l1 = true -> mem s l1 = true -> mem s l2 = true.
Proof.
  intros Hall Hs. apply mem_true_in in Hs. rewrite forallb_forall in Hall. exact (Hall s Hs).
Qed.

(** [extract] counts no words exactly when its text is blank: the word
    count is 0 if and only if every character of the text is whitespace
    (in particular for an empty text). *)
Theorem extract_word_count_zero_iff sha dec pdf md docx csv fs p b :
  Fs.lookup_file fs p = Some b ->
  exists r, extract sha dec pdf md docx csv fs p = Some r /\
    (word_count r = 0%Z <-> forallb isspace (list_ascii_of_string (text r)) = true).
Proof.
  intros Hl. destruct (extract_readable sha dec pdf md docx csv fs p b Hl)
    as [t [pg [He _]]].
  eexists. split; [exact He|]. cbn [word_count text].
  destruct (String.eqb_spec t "") as [->|Ht].
  - simpl. tauto.
  - rewrite <- split_words_nil. destruct (split_words t); simpl; split; intros H;
      try reflexivity; try discriminate; lia.
Qed.

(** The [file_type] of an extraction result never starts with a dot
    ([suffix.lstrip(".")]), and its page count is never negative. *)
Theorem extract_file_type_pages sha dec pdf md docx csv fs p b :
  Fs.lookup_file fs p = Some b ->
  exists r, extract sha dec pdf md docx csv fs p = Some r /\
    starts_with_dot (file_type r) = false /\ (0 <= page_count r)%Z.
Proof.
  intros Hl. destruct (extract_readable sha dec pdf md docx csv fs p b Hl)
    as [t [pg [He Hbr]]].
  eexists. split; [exact He|]. cbn [file_type page_count].
  split; [apply lstrip_dots_no_dot|]. cbv zeta in Hbr.
  repeat match type of Hbr with context [if ?c then _ else _] => destruct c end;
    try (injection Hbr as _ <-; lia).
  - unfold _extract_pdf in Hbr. rewrite Hl in Hbr.
    destruct (pdf b); injection Hbr as _ <-; lia.
  - unfold _extract_docx in Hbr. rewrite Hl in Hbr.
    destruct (docx b); injection Hbr as _ <-; lia.
Qed.

Definition text_exts : list string := [".txt"; ".text"; ".rst"].
Definition md_exts : list string := [".md"; ".markdown"].

(** A supported file ([is_supported]) that is neither a PDF nor a DOCX
    is extracted as one page of text. *)
Theorem supported_extract_one_page sha dec pdf md docx csv fs p b :
  is_supported p = true ->
  lower (Fs.suffix p) <> ".pdf" -> lower (Fs.suffix p) <> ".docx" ->
  Fs.lookup_file fs p = Some b ->
  exists r, extract sha dec pdf md docx csv fs p = Some r /\ page_count r = 1%Z.
Proof.
  intros Hs Hpdf Hdocx Hl.
  destruct (extract_readable sha dec pdf md docx csv fs p b Hl) as [t [pg [He Hbr]]].
  eexists. split; [exact He|]. cbn [page_count]. cbv zeta in Hbr.
  destruct (String.eqb_spec (lower (Fs.suffix p)) ".pdf"); [contradiction|].
  destruct (mem _ [".txt"; ".text"; ".rst"]) eqn:Ht; [injection Hbr as _ <-; reflexivity|].
  destruct (mem _ [".md"; ".markdown"]) eqn:Hmd; [injection Hbr as _ <-; reflexivity|].
  destruct (String.eqb_spec (lower (Fs.suffix p)) ".docx"); [contradiction|].
  destruct (String.eqb_spec (lower (Fs.suffix p)) ".csv"); [injection Hbr as _ <-; reflexivity|].
  destruct (mem _ _CODE_EXTENSIONS) eqn:Hc; [injection Hbr as _ <-; reflexivity|].
  destruct (mem (lower (Fs.name p)) _PLAIN_TEXT_NAMES) eqn:Hn;
    [injection Hbr as _ <-; reflexivity|].
  exfalso. clear He Hbr. unfold is_supported in Hs. rewrite Hn in Hs.
  destruct (starts_with_dot (Fs.name p)); [discriminate|].
  destruct (mem (lower (Fs.suffix p)) SUPPORTED_EXTENSIONS) eqn:Hsup; [|discriminate].
  apply mem_true_in in Hsup. unfold SUPPORTED_EXTENSIONS in Hsup.
  apply in_app_or in Hsup. destruct Hsup as [Hd|Hd].
  - remember (lower (Fs.suffix p)) as x eqn:Hx. clear Hx.
    simpl in Hd. intuition (subst; simpl in *; congruence).
  - apply mem_in_true in Hd. congruence.
Qed.

(** A file whose name does not start with a dot and which is not
    supported ([is_supported] false) is extracted as empty text with no
    pages and no words. *)
Theorem unsupported_extract_empty sha dec pdf md docx csv fs p b :
  starts_with_dot (Fs.name p) = false -> is_supported p = false ->
  Fs.lookup_file fs p = Some b ->
  exists r, extract sha dec pdf md docx csv fs p = Some r /\
    text r = "" /\ page_count r = 0%Z /\ word_count r = 0%Z.
Proof.
  intros Hd Hs Hl.
  destruct (extract_readable sha dec pdf md docx csv fs p b Hl) as [t [pg [He Hbr]]].
  unfold is_supported in Hs. rewrite Hd in Hs.
  destruct (mem (lower (Fs.suffix p)) SUPPORTED_EXTENSIONS) eqn:Hsup; [discriminate|].
  assert (Hno : forall l, forallb (fun x => mem x SUPPORTED_EXTENSIONS) l = true ->
                  mem (lower (Fs.suffix p)) l = false).
  { intros l Hl'. destruct (mem (lower (Fs.suffix p)) l) eqn:Hm; [|reflexivity].
    rewrite (mem_sub _ _ _ Hl' Hm) in Hsup. discriminate. }
  cbv zeta in Hbr.
  assert (Hno1 : forall e, mem e SUPPORTED_EXTENSIONS = true ->
                   String.eqb (lower (Fs.suffix p)) e = false).
  { intros e He'. destruct (String.eqb_spec (lower (Fs.suffix p)) e) as [E|];
      [rewrite E, He' in Hsup; discriminate|reflexivity]. }
  rewrite (Hno1 ".pdf") in Hbr by reflexivity.
  rewrite (Hno [".txt"; ".text"; ".rst"]) in Hbr by reflexivity.
  rewrite (Hno [".md"; ".markdown"]) in Hbr by reflexivity.
  rewrite (Hno1 ".docx") in Hbr by reflexivity.
  rewrite (Hno1 ".csv") in Hbr by reflexivity.
  rewrite (Hno _CODE_EXTENSIONS) in Hbr by (vm_compute; reflexivity).
  rewrite Hs in Hbr. cbn [orb] in Hbr. injection Hbr as <- <-.
  eexists. split; [exact He|]. simpl. auto.
Qed.

End ExtractorExtras.

Module ExtractorExtrasWitness.
Import Extractor ExtractorExtras.

Lemma extract_word_count_zero_iff_witness :
  exists r, extract Inputs.sha_stub Inputs.fail_bytes Inputs.fail_bytes Inputs.fail_md
              Inputs.fail_bytes Inputs.fail_bytes Inputs.fs_csv "/root/data.csv" = Some r /\
    (word_count r = 0%Z <-> forallb isspace (list_ascii_of_string (text r)) = true).
Proof.
  exact (extract_word_count_zero_iff Inputs.sha_stub Inputs.fail_bytes Inputs.fail_bytes
           Inputs.fail_md Inputs.fail_bytes Inputs.fail_bytes Inputs.fs_csv "/root/data.csv"
           [x61; x2c; x62] ltac:(reflexivity)).
Defined.

Lemma extract_file_type_pages_witness :
  exists r, extract Inputs.sha_stub Inputs.fail_bytes Inputs.fail_bytes Inputs.fail_md
              Inputs.fail_bytes Inputs.fail_bytes Inputs.fs_csv "/root/data.csv" = Some r /\
    starts_with_dot (file_type r) = false /\ (0 <= page_count r)%Z.
Proof.
  exact (extract_file_type_pages Inputs.sha_stub Inputs.fail_bytes Inputs.fail_bytes
           Inputs.fail_md Inputs.fail_bytes Inputs.fail_bytes Inputs.fs_csv "/root/data.csv"
           [x61; x2c; x62] ltac:(reflexivity)).
Defined.

Lemma supported_extract_one_page_witness :
  exists r, extract Inputs.sha_stub Inputs.fail_bytes Inputs.fail_bytes Inputs.fail_md
              Inputs.fail_bytes Inputs.fail_bytes Inputs.fs_csv "/root/data.csv" = Some r /\
    page_count r = 1%Z.
Proof.
  exact (supported_extract_one_page Inputs.sha_stub Inputs.fail_bytes Inputs.fail_bytes
           Inputs.fail_md Inputs.fail_bytes Inputs.fail_bytes Inputs.fs_csv "/root/data.csv"
           [x61; x2c; x62] ltac:(vm_compute; reflexivity) ltac:(vm_compute; discriminate)
           ltac:(vm_compute; discriminate) ltac:(reflexivity)).
Defined.

Lemma unsupported_extract_empty_witness :
  exists r, extract Inputs.sha_stub Inputs.fail_bytes Inputs.fail_bytes Inputs.fail_md
              Inputs.fail_bytes Inputs.fail_bytes ExtraInputs.fs_jpg "/root/photo.jpg" = Some r /\
    text r = "" /\ page_count r = 0%Z /\ word_count r = 0%Z.
Proof.
  exact (unsupported_extract_empty Inputs.sha_stub Inputs.fail_bytes Inputs.fail_bytes
           Inputs.fail_md Inputs.fail_bytes Inputs.fail_bytes ExtraInputs.fs_jpg
           "/root/photo.jpg" [x61; x62] ltac:(vm_compute; reflexivity)
           ltac:(vm_compute; reflexivity) ltac:(reflexivity)).
Defined.

End ExtractorExtrasWitness.

Module NamerFacts.
Import Namer.

Definition word_string (s : string) : bool := forallb is_word_char (list_ascii_of_string s).

Lemma list_take (n : nat) (s : string) :
  list_ascii_of_string (take n s) = firstn n (list_ascii_of_string s).
Proof.
  unfold take. revert n. induction s as [|c s IH]; intros [|n]; simpl; try reflexivity.
  rewrite IH. reflexivity.
Qed.

Lemma in_firstn {A} (n : nat) (l : list A) x : In x (firstn n l) -> In x l.
Proof. intros H. rewrite <- (firstn_skipn n l). apply in_or_app. now left. Qed.

Lemma drop_while_suffix p l : exists pre, l = app pre (drop_while p l).
Proof.
  induction l as [|c r IH]; simpl; [exists []; reflexivity|].
  destruct (p c); [destruct IH as [pre E]; exists (c :: pre); simpl; f_equal; exact E|].
  exists []; reflexivity.
Qed.

Lemma drop_while_in p l x : In x (drop_while p l) -> In x l.
Proof.
  destruct (drop_while_suffix p l) as [pre E]. intros H. rewrite E. apply in_or_app. now right.
Qed.

Lemma drop_while_length p l : (List.length (drop_while p l) <= List.length l)%nat.
Proof.
  destruct (drop_while_suffix p l) as [pre E]. rewrite E at 2. rewrite length_app. lia.
Qed.

Lemma drop_while_head p l c : hd_error (drop_while p l) = Some c -> p c = false.
Proof.
  induction l as [|a r IH]; simpl; [discriminate|].
  destruct (p a) eqn:Ha; [exact IH|]. simpl. intros H. injection H as <-. exact Ha.
Qed.

Lemma drop_while_snoc p l c :
  p c = false -> exists D, drop_while p (app l [c]) = app D [c] /\
                          (forall x, hd_error D = Some x -> p x = false).
Proof.
  intros Hc. induction l as [|a r IH]; simpl.
  - rewrite Hc. exists []. split; [reflexivity|discriminate].
  - destruct (p a) eqn:Ha; [exact IH|].
    exists (a :: r). split; [reflexivity|]. simpl. intros x Hx. injection Hx as <-. exact Ha.
Qed.

(** Both ends of [rev (drop_while p (rev (drop_while p l)))] fail [p]. *)
Lemma strip_ends p l :
  let R := rev (drop_while p (rev (drop_while p l))) in
  R = [] \/ (R <> [] /\ (forall c, hd_error R = Some c -> p c = false) /\
                        (forall c, hd_error (rev R) = Some c -> p c = false)).
Proof.
  cbv zeta. destruct (drop_while p l) as [|c r] eqn:E; [left; reflexivity|].
  right. assert (Hc : p c = false) by (apply (drop_while_head p l); rewrite E; reflexivity).
  destruct (drop_while_snoc p (rev r) c Hc) as [D [HD HDh]].
  change (rev (c :: r)) with (app (rev r) [c]). rewrite HD.
  split; [rewrite rev_app_distr; discriminate|]. split.
  - rewrite rev_app_distr. intros x Hx. injection Hx as <-. exact Hc.
  - rewrite List.rev_involutive. intros x Hx. destruct D as [|d D]; simpl in Hx.
    + injection Hx as <-. exact Hc.
    + apply HDh. exact Hx.
Qed.

Lemma strip_ends_id p l :
  (forall c, hd_error l = Some c -> p c = false) ->
  (forall c, hd_error (rev l) = Some c -> p c = false) ->
  rev (drop_while p (rev (drop_while p l))) = l.
Proof.
  intros H1 H2. destruct l as [|c r]; [reflexivity|].
  simpl drop_while. rewrite (H1 c eq_refl).
  destruct (rev (c :: r)) as [|d t] eqn:E.
  - simpl in E. destruct (rev r); discriminate.
  - cbn [drop_while]. rewrite (H2 d eq_refl). rewrite <- E, rev_involutive. reflexivity.
Qed.

Lemma drop_space_drop_while l : drop_space l = drop_while isspace l.
Proof. induction l as [|c r IH]; simpl; [reflexivity|]. rewrite IH. reflexivity. Qed.

Lemma word_char_not_space c : is_word_char c = true -> isspace c = false.
Proof.
  destruct c as [[] [] [] [] [] [] [] []]; vm_compute; congruence.
Qed.

Lemma word_char_not_hyphen c : is_word_char c = true -> Ascii.eqb c "-"%char = false.
Proof.
  destruct c as [[] [] [] [] [] [] [] []]; vm_compute; congruence.
Qed.

Lemma word_char_not_quote c :
  is_word_char c = true -> existsb (Ascii.eqb c) quote_chars = false.
Proof.
  destruct c as [[] [] [] [] [] [] [] []]; vm_compute; congruence.
Qed.

Lemma sub_ws_hyphen_id l b :
  forallb is_word_char l = true -> sub_ws_hyphen l b = l.
Proof.
  revert b. induction l as [|c r IH]; intros b H; simpl in *; [reflexivity|].
  apply andb_true_iff in H. destruct H as [Hc Hr].
  rewrite (word_char_not_space c Hc), (word_char_not_hyphen c Hc). simpl.
  f_equal. apply IH, Hr.
Qed.

Lemma filter_all {A} (f : A -> bool) l : forallb f l = true -> filter f l = l.
Proof.
  induction l as [|c r IH]; simpl; [reflexivity|]. intros H.
  apply andb_true_iff in H. destruct H as [-> Hr]. f_equal. apply IH, Hr.
Qed.

Lemma forallb_hd {A} (f : A -> bool) l c : forallb f l = true -> hd_error l = Some c -> f c = true.
Proof.
  intros H Hc. rewrite forallb_forall in H. apply H.
  destruct l; simpl in Hc; [discriminate|]. injection Hc as <-. left; reflexivity.
Qed.

(** The list of characters of [_sanitize_name name] before the final
    [if]. *)
Lemma sanitize_core (name : string) :
  let s1 := strip_chars quote_chars (strip name) in
  let s2 := string_of_list_ascii (sub_ws_hyphen (list_ascii_of_string s1) false) in
  let s3 := string_of_list_ascii (filter is_word_char (list_ascii_of_string s2)) in
  let R := rev (drop_while (fun c => existsb (Ascii.eqb c) ["_"%char])
                 (rev (drop_while (fun c => existsb (Ascii.eqb c) ["_"%char])
                         (firstn 50 (list_ascii_of_string s3))))) in
  _sanitize_name name = (if String.eqb (string_of_list_ascii R) "" then "Misc"
                         else string_of_list_ascii R) /\
  (List.length R <= 50)%nat /\ forallb is_word_char R = true.
Proof.
  unfold _sanitize_name, strip_chars. cbv zeta.
  rewrite list_take. split; [reflexivity|]. split.
  - rewrite length_rev. eapply Nat.le_trans; [apply drop_while_length|].
    rewrite length_rev. eapply Nat.le_trans; [apply drop_while_length|].
    rewrite length_firstn. lia.
  - apply forallb_forall. intros x Hx.
    apply in_rev, drop_while_in, in_rev, drop_while_in in Hx.
    apply in_firstn in Hx. rewrite list_ascii_of_string_of_list_ascii in Hx.
    apply filter_In in Hx. exact (proj2 Hx).
Qed.

Lemma string_of_list_ascii_empty (l : list ascii) :
  String.eqb (string_of_list_ascii l) "" = true <-> l = [].
Proof.
  destruct l; simpl; split; intros H; try reflexivity; discriminate.
Qed.

Lemma sanitize_name_props (name : string) :
  let l := list_ascii_of_string (_sanitize_name name) in
  l <> [] /\ (List.length l <= 50)%nat /\ forallb is_word_char l = true /\
  hd_error l <> Some "_"%char /\ hd_error (rev l) <> Some "_"%char.
Proof.
  cbv zeta. destruct (sanitize_core name) as [E [Hlen Hw]]. cbv zeta in E, Hlen, Hw.
  rewrite E. clear E.
  match type of Hlen with (List.length (rev (drop_while ?p (rev (drop_while ?p ?L)))) <= _)%nat =>
    destruct (strip_ends p L) as [HR|[Hne [Hh Ht]]]; set (R := rev (drop_while p (rev (drop_while p L)))) in *
  end.
  - rewrite HR. vm_compute.
    refine (conj _ (conj _ (conj _ (conj _ _)))); try discriminate; try lia; reflexivity.
  - destruct (String.eqb (string_of_list_ascii R) "") eqn:Ee.
    + apply string_of_list_ascii_empty in Ee. contradiction.
    + rewrite list_ascii_of_string_of_list_ascii.
      repeat split; try assumption.
      * intros H. specialize (Hh _ H). discriminate.
      * intros H. specialize (Ht _ H). discriminate.
Qed.

(** [_sanitize_name] always returns a non-empty name of at most 50
    characters, made only of ASCII letters, digits and underscores, that
    neither starts nor ends with an underscore. *)
Theorem sanitize_name_spec (name : string) :
  let l := list_ascii_of_string (_sanitize_name name) in
  l <> [] /\ (List.length l <= 50)%nat /\ forallb is_word_char l = true /\
  hd_error l <> Some "_"%char /\ hd_error (rev l) <> Some "_"%char.
Proof. exact (sanitize_name_props name). Qed.

Lemma strip_id (s : string) :
  word_string s = true -> list_ascii_of_string s <> [] ->
  (forall c, hd_error (list_ascii_of_string s) = Some c -> isspace c = false) ->
  (forall c, hd_error (rev (list_ascii_of_string s)) = Some c -> isspace c = false) ->
  strip s = s.
Proof.
  intros _ _ H1 H2. unfold strip. rewrite !drop_space_drop_while.
  rewrite strip_ends_id by assumption. apply string_of_list_ascii_of_string.
Qed.

(** [_sanitize_name] is idempotent: a sanitized name is left unchanged
    by sanitizing it again. *)
Theorem sanitize_name_idempotent (name : string) :
  _sanitize_name (_sanitize_name name) = _sanitize_name name.
Proof.
  destruct (sanitize_name_props name) as [Hne [Hlen [Hw [Hh Ht]]]].
  set (s := _sanitize_name name) in *. set (l := list_ascii_of_string s) in *.
  assert (Hhw : forall c, hd_error l = Some c -> is_word_char c = true)
    by (intros c Hc; exact (forallb_hd _ _ _ Hw Hc)).
  assert (Htw : forall c, hd_error (rev l) = Some c -> is_word_char c = true).
  { intros c Hc. apply (forallb_hd is_word_char (rev l)); [|exact Hc].
    apply forallb_forall. intros x Hx. apply in_rev in Hx.
    rewrite forallb_forall in Hw. apply Hw, Hx. }
  unfold _sanitize_name at 1.
  assert (E1 : strip s = s).
  { unfold strip. rewrite !drop_space_drop_while. fold l.
    rewrite strip_ends_id.
    - apply string_of_list_ascii_of_string.
    - intros c Hc. apply word_char_not_space, Hhw, Hc.
    - intros c Hc. apply word_char_not_space, Htw, Hc. }
  rewrite E1.
  assert (E2 : strip_chars quote_chars s = s).
  { unfold strip_chars. fold l. rewrite strip_ends_id.
    - apply string_of_list_ascii_of_string.
    - intros c Hc. apply word_char_not_quote, Hhw, Hc.
    - intros c Hc. apply word_char_not_quote, Htw, Hc. }
  rewrite E2. fold l. rewrite (sub_ws_hyphen_id l false Hw).
  unfold l. rewrite string_of_list_ascii_of_string. fold l.
  rewrite (filter_all _ l Hw). unfold l. rewrite string_of_list_ascii_of_string.
  rewrite EmbedderFacts.take_all
    by (rewrite <- StringFacts.length_list_ascii_of_string; exact Hlen).
  assert (E3 : strip_chars ["_"%char] s = s).
  { unfold strip_chars. fold l. rewrite strip_ends_id.
    - apply string_of_list_ascii_of_string.
    - intros c Hc. simpl. destruct (Ascii.eqb_spec c "_"%char) as [->|]; [contradiction|reflexivity].
    - intros c Hc. simpl. destruct (Ascii.eqb_spec c "_"%char) as [->|]; [contradiction|reflexivity]. }
  rewrite E3. destruct (String.eqb_spec s "") as [E|]; [|reflexivity].
  exfalso. apply Hne. unfold l. rewrite E. reflexivity.
Qed.

Lemma list_ascii_append (a b : string) :
  list_ascii_of_string (a ++ b) = app (list_ascii_of_string a) (list_ascii_of_string b).
Proof. induction a as [|c a IH]; simpl; [reflexivity|]. rewrite IH. reflexivity. Qed.

Lemma word_string_append (a b : string) :
  word_string (a ++ b) = word_string a && word_string b.
Proof. unfold word_string. rewrite list_ascii_append, forallb_app. reflexivity. Qed.

Lemma lower_runs_lower l cur w :
  forallb is_lower cur = true -> In w (lower_runs l cur) -> forallb is_lower w = true.
Proof.
  revert cur. induction l as [|c r IH]; intros cur Hcur Hin; simpl in Hin.
  - destruct cur; [contradiction|]. destruct Hin as [<-|[]].
    rewrite forallb_forall in *. intros x Hx. apply in_rev in Hx. apply Hcur, Hx.
  - destruct (is_lower c) eqn:Hc.
    + apply (IH (c :: cur)); [simpl; rewrite Hc; exact Hcur|exact Hin].
    + assert (Hr : forallb is_lower (rev cur) = true).
      { rewrite forallb_forall in *. intros x Hx. apply in_rev in Hx. apply Hcur, Hx. }
      destruct cur as [|d cur]; [apply (IH []); [reflexivity|exact Hin]|].
      destruct Hin as [<-|Hin]; [exact Hr|]. apply (IH []); [reflexivity|exact Hin].
Qed.

Lemma findall_words_lower s w :
  In w (findall_words s) ->
  forallb is_lower (list_ascii_of_string w) = true /\ list_ascii_of_string w <> [].
Proof.
  unfold findall_words. intros H. apply in_map_iff in H. destruct H as [l [<- Hl]].
  apply filter_In in Hl. destruct Hl as [Hl Hlen].
  rewrite list_ascii_of_string_of_list_ascii. split.
  - exact (lower_runs_lower _ [] _ eq_refl Hl).
  - destruct l; [discriminate|discriminate].
Qed.

Lemma counter_add_keys w cs k : In k (map fst (counter_add w cs)) -> k = w \/ In k (map fst cs).
Proof.
  induction cs as [|[k' n] r IH]; simpl; [intuition|].
  destruct (String.eqb_spec k' w) as [->|]; simpl; [tauto|]. intuition.
Qed.

Lemma counter_keys ws k : In k (map fst (counter ws)) -> In k ws.
Proof.
  unfold counter. assert (G : forall acc, In k (map fst (fold_left (fun cs w => counter_add w cs) ws acc)) ->
                                In k (map fst acc) \/ In k ws).
  { induction ws as [|w r IH]; simpl; intros acc H; [left; exact H|].
    destruct (IH _ H) as [H'|H']; [|right; right; exact H'].
    destruct (counter_add_keys _ _ _ H') as [->|H'']; [right; left; reflexivity|left; exact H'']. }
  intros H. destruct (G [] H) as [[]|H']. exact H'.
Qed.

Lemma insert_desc_in x l y : In y (insert_desc x l) -> y = x \/ In y l.
Proof.
  induction l as [|z r IH]; simpl; [intuition|].
  destruct (snd z <? snd x)%nat; simpl; intuition.
Qed.

Lemma most_common_in cs y : In y (most_common cs) -> In y cs.
Proof.
  unfold most_common. assert (G : forall acc, In y (fold_left (fun acc x => insert_desc x acc) cs acc) ->
                                 In y acc \/ In y cs).
  { induction cs as [|x r IH]; simpl; intros acc H; [left; exact H|].
    destruct (IH _ H) as [H'|H']; [|right; right; exact H'].
    destruct (insert_desc_in _ _ _ H') as [->|H'']; [right; left; reflexivity|left; exact H'']. }
  intros H. destruct (G [] H) as [[]|H']. exact H'.
Qed.

Lemma upper_lower_word c : is_lower c = true -> is_word_char (upper_char c) = true.
Proof. destruct c as [[] [] [] [] [] [] [] []]; vm_compute; congruence. Qed.

Lemma lower_lower_word c : is_lower c = true -> is_word_char (lower_char c) = true.
Proof. destruct c as [[] [] [] [] [] [] [] []]; vm_compute; congruence. Qed.

Lemma capitalize_word w :
  forallb is_lower (list_ascii_of_string w) = true -> list_ascii_of_string w <> [] ->
  word_string (capitalize w) = true /\ capitalize w <> "".
Proof.
  destruct w as [|c r]; [contradiction|]. intros H _. simpl in H.
  apply andb_true_iff in H. destruct H as [Hc Hr]. simpl. split; [|discriminate].
  unfold word_string. simpl. rewrite upper_lower_word by exact Hc. simpl.
  unfold lower. rewrite list_ascii_of_string_of_list_ascii.
  rewrite forallb_forall in *. intros x Hx. apply in_map_iff in Hx.
  destruct Hx as [y [<- Hy]]. apply lower_lower_word, Hr, Hy.
Qed.

Lemma join_word (sep : string) (l : list string) :
  word_string sep = true -> l <> [] ->
  (forall w, In w l -> word_string w = true /\ w <> "") ->
  word_string (Extractor.join_str sep l) = true /\ Extractor.join_str sep l <> "".
Proof.
  intros Hs. induction l as [|w r IH]; intros Hne Hall; [contradiction|].
  destruct (Hall w (or_introl eq_refl)) as [Hw Hwne].
  destruct r as [|w' r].
  - simpl. auto.
  - change (Extractor.join_str sep (w :: w' :: r)) with (w ++ sep ++ Extractor.join_str sep (w' :: r)).
    destruct (IH ltac:(discriminate) (fun x Hx => Hall x (or_intror Hx))) as [Hj _].
    rewrite !word_string_append, Hw, Hs, Hj. split; [reflexivity|].
    destruct w; [contradiction|discriminate].
Qed.

Lemma keyword_name_word (snippets : list string) :
  word_string (_keyword_name snippets) = true /\ _keyword_name snippets <> "".
Proof.
  unfold _keyword_name. cbv zeta.
  match goal with |- context [match ?t with [] => _ | _ :: _ => _ end] =>
    destruct t as [|w ws] eqn:Etop end.
  - split; [reflexivity|discriminate].
  - rewrite <- Etop. apply join_word; [reflexivity|rewrite Etop; discriminate|].
    intros x Hx. apply in_map_iff in Hx. destruct Hx as [y [<- Hy]].
    apply in_map_iff in Hy. destruct Hy as [[k n] [Ek Hk]].
    simpl in Ek. subst k. apply in_firstn, most_common_in in Hk.
    apply (in_map fst) in Hk. simpl in Hk. apply counter_keys, filter_In in Hk.
    destruct Hk as [Hk _]. destruct (findall_words_lower _ _ Hk) as [H1 H2].
    apply capitalize_word; assumption.
Qed.

Lemma sanitize_name_word (name : string) :
  word_string (_sanitize_name name) = true /\ _sanitize_name name <> "".
Proof.
  destruct (sanitize_name_props name) as [Hne [_ [Hw _]]]. split; [exact Hw|].
  intros E. apply Hne. rewrite E. reflexivity.
Qed.

Lemma generate_cluster_name_props ol oa (texts existing : list string) :
  word_string (generate_cluster_name ol oa texts existing) = true /\
  generate_cluster_name ol oa texts existing <> "".
Proof.
  unfold generate_cluster_name.
  destruct texts as [|t ts]; [split; [reflexivity|discriminate]|].
  cbv zeta.
  match goal with |- context [match ?s with [] => _ | _ :: _ => _ end] =>
    destruct s as [|sn sns] end; [split; [reflexivity|discriminate]|].
  destruct (ol _) as [c|].
  - destruct (negb _ && negb _)%bool; [apply sanitize_name_word|].
    destruct (oa _) as [c'|]; [|apply keyword_name_word].
    destruct (negb _); [apply sanitize_name_word|apply keyword_name_word].
  - destruct (oa _) as [c'|]; [|apply keyword_name_word].
    destruct (negb _); [apply sanitize_name_word|apply keyword_name_word].
Qed.

(** [generate_cluster_name] always returns a non-empty name made only of
    ASCII letters, digits and underscores (in particular without a path
    separator), whatever the language models reply and whether they
    fail: the model replies go through [_sanitize_name], the fallback is
    [_keyword_name] or a fixed word. *)
Theorem generate_cluster_name_word ol oa (texts existing : list string) :
  word_string (generate_cluster_name ol oa texts existing) = true /\
  generate_cluster_name ol oa texts existing <> "".
Proof. exact (generate_cluster_name_props ol oa texts existing). Qed.

End NamerFacts.

Module DecimalFacts.

Definition digit_val (c : ascii) : nat := nat_of_ascii c - 48.

(** Reading a decimal numeral back. *)
Fixpoint parse_dec (acc : nat) (s : string) : nat :=
  match s with
  | EmptyString => acc
  | String c r => parse_dec (acc * 10 + digit_val c) r
  end.

Lemma string_app_assoc (a b c : string) : (a ++ b) ++ c = a ++ (b ++ c).
Proof. induction a as [|x a IH]; simpl; [reflexivity|]. rewrite IH. reflexivity. Qed.

Lemma string_app_nil_r (a : string) : a ++ "" = a.
Proof. induction a as [|x a IH]; simpl; [reflexivity|]. rewrite IH. reflexivity. Qed.

Lemma parse_dec_app a s t : parse_dec a (s ++ t) = parse_dec (parse_dec a s) t.
Proof. revert a. induction s as [|c s IH]; intros a; simpl; [reflexivity|]. apply IH. Qed.

Lemma digits_aux_app f n acc : digits_aux f n acc = digits_aux f n "" ++ acc.
Proof.
  revert n acc. induction f as [|f IH]; intros n acc; cbn [digits_aux]; [reflexivity|].
  destruct (Nat.div n 10 =? 0)%nat; [reflexivity|].
  rewrite (IH _ (String _ acc)), (IH _ (String _ "")), string_app_assoc. reflexivity.
Qed.

Lemma digit_code (n : nat) : nat_of_ascii (ascii_of_nat (48 + Nat.modulo n 10)) = (48 + Nat.modulo n 10)%nat.
Proof.
  apply nat_ascii_embedding. pose proof (Nat.mod_upper_bound n 10 ltac:(lia)). lia.
Qed.

Lemma parse_digits f n : (n < f)%nat -> parse_dec 0 (digits_aux f n "") = n.
Proof.
  revert n. induction f as [|f IH]; intros n Hn; [lia|]. cbn [digits_aux].
  pose proof (Nat.div_mod n 10 ltac:(lia)) as Hdm.
  pose proof (Nat.mod_upper_bound n 10 ltac:(lia)) as Hm.
  destruct (Nat.eqb_spec (Nat.div n 10) 0) as [Hq|Hq].
  - cbn [parse_dec]. unfold digit_val. rewrite digit_code. lia.
  - rewrite digits_aux_app, parse_dec_app, IH.
    + cbn [parse_dec]. unfold digit_val. rewrite digit_code. lia.
    + lia.
Qed.

Lemma nat_to_string_inj (a b : nat) : nat_to_string a = nat_to_string b -> a = b.
Proof.
  intros H. rewrite <- (parse_digits (S a) a) by lia.
  rewrite <- (parse_digits (S b) b) by lia. unfold nat_to_string in H. rewrite H. reflexivity.
Qed.

Lemma digits_aux_word f n acc :
  NamerFacts.word_string acc = true -> NamerFacts.word_string (digits_aux f n acc) = true.
Proof.
  revert n acc. induction f as [|f IH]; intros n acc Hacc; cbn [digits_aux]; [exact Hacc|].
  assert (Hd : NamerFacts.word_string (String (ascii_of_nat (48 + Nat.modulo n 10)) acc) = true).
  { unfold NamerFacts.word_string in *. cbn [list_ascii_of_string forallb].
    rewrite Hacc, andb_true_r.
    unfold Namer.is_word_char. cbv zeta. rewrite digit_code.
    pose proof (Nat.mod_upper_bound n 10 ltac:(lia)).
    destruct (Nat.leb_spec 48 (48 + Nat.modulo n 10)); [|lia].
    destruct (Nat.leb_spec (48 + Nat.modulo n 10) 57); [|lia].
    rewrite !orb_true_r. reflexivity. }
  destruct (Nat.div n 10 =? 0)%nat; [exact Hd|apply IH, Hd].
Qed.

Lemma nat_to_string_word n : NamerFacts.word_string (nat_to_string n) = true.
Proof. apply digits_aux_word. reflexivity. Qed.

End DecimalFacts.

Module NamingFacts.
Import Naming NamerFacts DecimalFacts.

Lemma string_app_cancel (a b c : string) : a ++ b = a ++ c -> b = c.
Proof. induction a as [|x a IH]; simpl; [auto|]. intros H. injection H. exact IH. Qed.

Definition suffixed (base : string) (k : nat) : string := base ++ "_" ++ nat_to_string k.

Lemma dedupe_none f values base name counter :
  dedupe f values base name counter = None ->
  In name values /\ (forall k, (counter <= k < counter + f)%nat -> In (suffixed base k) values).
Proof.
  revert name counter. induction f as [|f IH]; intros name counter H; simpl in H.
  - destruct (Extractor.mem name values) eqn:Hm; [|discriminate].
    split; [apply ExtractorExtras.mem_true_in, Hm|]. intros k Hk. lia.
  - destruct (Extractor.mem name values) eqn:Hm; [|discriminate].
    destruct (IH _ _ H) as [H1 H2]. split; [apply ExtractorExtras.mem_true_in, Hm|].
    intros k Hk. destruct (Nat.eq_dec k counter) as [->|Hne]; [exact H1|]. apply H2. lia.
Qed.

Lemma dedupe_some f values base name counter r :
  dedupe f values base name counter = Some r ->
  ~ In r values /\ (r = name \/ exists k, r = suffixed base k).
Proof.
  revert name counter. induction f as [|f IH]; intros name counter H; simpl in H.
  - destruct (Extractor.mem name values) eqn:Hm; [discriminate|]. injection H as <-.
    split; [|left; reflexivity]. intros Hin.
    rewrite (ExtractorExtras.mem_in_true _ _ Hin) in Hm. discriminate.
  - destruct (Extractor.mem name values) eqn:Hm.
    + destruct (IH _ _ H) as [H1 [H2|H2]]; split; auto. right. exists counter. exact H2.
    + injection H as <-. split; [|left; reflexivity]. intros Hin.
      rewrite (ExtractorExtras.mem_in_true _ _ Hin) in Hm. discriminate.
Qed.

Lemma NoDup_map_inj {A B} (f : A -> B) l :
  (forall x y, f x = f y -> x = y) -> NoDup l -> NoDup (map f l).
Proof.
  intros Hinj. induction 1 as [|x l Hx Hnd IH]; simpl; constructor; [|exact IH].
  intros Hin. apply in_map_iff in Hin. destruct Hin as [y [Hy Hyl]].
  apply Hinj in Hy. subst. contradiction.
Qed.

(** With as much fuel as there are names already taken, the renaming
    loop finds a free name. *)
Lemma dedupe_total values base :
  exists r, dedupe (List.length values) values base base 2 = Some r.
Proof.
  destruct (dedupe (List.length values) values base base 2) as [r|] eqn:E; [eauto|].
  exfalso. apply dedupe_none in E. destruct E as [Hb Hk].
  set (cands := base :: map (suffixed base) (seq 2 (List.length values))).
  assert (Hnd : NoDup cands).
  { constructor.
    - intros Hin. apply in_map_iff in Hin. destruct Hin as [k [Hk' _]].
      apply (f_equal String.length) in Hk'. unfold suffixed in Hk'.
      rewrite !StringFacts.length_string_append in Hk'. simpl in Hk'. lia.
    - apply NoDup_map_inj; [|apply seq_NoDup].
      intros x y Hxy. unfold suffixed in Hxy. apply string_app_cancel in Hxy.
      injection Hxy as Hxy. apply nat_to_string_inj, Hxy. }
  assert (Hincl : incl cands values).
  { intros x [<-|Hx]; [exact Hb|]. apply in_map_iff in Hx. destruct Hx as [k [<- Hk']].
    apply in_seq in Hk'. apply Hk. lia. }
  pose proof (NoDup_incl_length Hnd Hincl) as Hlen.
  unfold cands in Hlen. simpl in Hlen. rewrite length_map, length_seq in Hlen. lia.
Qed.

Definition good_name (n : string) : Prop := word_string n = true /\ n <> "".

Lemma suffixed_good base k : good_name base -> good_name (suffixed base k).
Proof.
  intros [Hw Hne]. unfold suffixed. split.
  - rewrite !word_string_append, Hw, nat_to_string_word. reflexivity.
  - destruct base; [contradiction|discriminate].
Qed.

Lemma name_loop_spec ol oa texts labels names :
  StronglySorted Z.lt labels ->
  (forall c, In c labels -> (c < 0)%Z -> c = (-1)%Z) ->
  (names <> [] -> forall c, In c labels -> (0 <= c)%Z) ->
  NoDup (map snd names) -> (forall n, In n (map snd names) -> good_name n) ->
  exists names', name_loop ol oa texts labels names = Some names' /\
    map fst names' = app (map fst names) labels /\ NoDup (map snd names') /\
    (forall n, In n (map snd names') -> good_name n).
Proof.
  revert names. induction labels as [|cid rest IH]; intros names Hs Hneg Hpos Hnd Hgood.
  - exists names. rewrite app_nil_r. auto.
  - inversion Hs as [|? ? Hrest Hall]; subst. rewrite Forall_forall in Hall.
    simpl. destruct (Z.ltb_spec cid 0) as [Hc|Hc].
    + assert (Hn : names = []).
      { destruct names as [|x r]; [reflexivity|]. exfalso.
        specialize (Hpos ltac:(discriminate) cid (or_introl eq_refl)). lia. }
      subst names. pose proof (Hneg cid (or_introl eq_refl) Hc) as Hm1. subst cid.
      destruct (IH [(-1, "Uncategorised")]%Z Hrest) as [n' [E [Hf [Hnd' Hg']]]].
      * intros c Hin Hlt. apply Hneg; [right; exact Hin|exact Hlt].
      * intros _ c Hin. specialize (Hall c Hin). lia.
      * simpl. constructor; [intros []|constructor].
      * simpl. intros n [<-|[]]. split; [reflexivity|discriminate].
      * exists n'. simpl in *. auto.
    + destruct (dedupe_total (map snd names)
                  (Namer.generate_cluster_name ol oa (texts cid) (map snd names))) as [r Er].
      cbv zeta. rewrite Er.
      destruct (dedupe_some _ _ _ _ _ _ Er) as [Hnot Hform].
      assert (Hr : good_name r).
      { destruct (generate_cluster_name_props ol oa (texts cid) (map snd names)) as [Hw Hne].
        destruct Hform as [->|[k ->]]; [split; assumption|].
        apply suffixed_good. split; assumption. }
      destruct (IH (app names [(cid, r)]) Hrest) as [n' [E [Hf [Hnd' Hg']]]].
      * intros c Hin Hlt. apply Hneg; [right; exact Hin|exact Hlt].
      * intros _ c Hin. specialize (Hall c Hin). lia.
      * rewrite map_app. simpl. apply NoDup_app; [exact Hnd|constructor; [intros []|constructor]|].
        intros x Hx [<-|[]]. contradiction.
      * rewrite map_app. intros n Hn. apply in_app_or in Hn. destruct Hn as [Hn|[<-|[]]];
          [apply Hgood, Hn|exact Hr].
      * exists n'. split; [exact E|]. split; [|auto].
        rewrite Hf, map_app. simpl. rewrite <- app_assoc. reflexivity.
Qed.

Lemma insert_Z_head x d r :
  (d < x)%Z -> HdRel Z.lt d r -> HdRel Z.lt d (Clusterer.insert_Z x r).
Proof.
  intros Hdx Hd. destruct r as [|e r]; simpl; [constructor; exact Hdx|].
  inversion Hd; subst.
  destruct (Z.eqb_spec x e); [constructor; lia|].
  destruct (Z.ltb_spec x e); constructor; lia.
Qed.

Lemma insert_Z_sorted x l : Sorted Z.lt l -> Sorted Z.lt (Clusterer.insert_Z x l).
Proof.
  induction l as [|d r IH]; simpl; intros Hs; [repeat constructor|].
  inversion Hs as [|? ? Hr Hd]; subst.
  destruct (Z.eqb_spec x d) as [E|E]; [exact Hs|].
  destruct (Z.ltb_spec x d).
  - constructor; [exact Hs|constructor; lia].
  - constructor; [apply IH, Hr|]. apply insert_Z_head; [lia|exact Hd].
Qed.

Lemma sorted_unique_sorted l : StronglySorted Z.lt (Clusterer.sorted_unique l).
Proof.
  apply Sorted_StronglySorted; [intros a b c; lia|].
  unfold Clusterer.sorted_unique. induction l as [|x r IH]; simpl; [constructor|].
  apply insert_Z_sorted, IH.
Qed.

Lemma in_insert_Z x y l : In y (Clusterer.insert_Z x l) -> y = x \/ In y l.
Proof.
  induction l as [|d r IH]; simpl; [intuition|]. intros H.
  destruct (Z.eqb_spec x d) as [->|]; [right; exact H|].
  destruct (x <? d)%Z; simpl in H.
  - destruct H as [<-|H]; [left; reflexivity|right; exact H].
  - destruct H as [<-|H]; [right; left; reflexivity|].
    destruct (IH H) as [->|H']; [left; reflexivity|right; right; exact H'].
Qed.

Lemma in_sorted_unique y l : In y (Clusterer.sorted_unique l) -> In y l.
Proof.
  induction l as [|x r IH]; simpl; [auto|]. intros H.
  destruct (in_insert_Z _ _ _ H) as [->|H']; [left; reflexivity|right; apply IH, H'].
Qed.

(** The naming loop of [run_clustering] gives the clusters pairwise
    distinct folder names, each non-empty and made only of ASCII letters,
    digits and underscores, one per label of [sorted(set(labels))],
    provided the only negative label is -1 (the noise label). *)
Theorem cluster_names_distinct ol oa texts (labels : list Z) :
  (forall c, In c labels -> (c < 0)%Z -> c = (-1)%Z) ->
  exists names, cluster_names_of ol oa texts labels = Some names /\
    map fst names = Clusterer.sorted_unique labels /\ NoDup (map snd names) /\
    (forall n, In n (map snd names) ->
       word_string n = true /\ n <> "").
Proof.
  intros Hneg. unfold cluster_names_of.
  destruct (name_loop_spec ol oa texts (Clusterer.sorted_unique labels) []
              (sorted_unique_sorted labels)) as [n' [E [Hf [Hnd Hg]]]].
  - intros c Hin Hlt. apply Hneg; [apply in_sorted_unique, Hin|exact Hlt].
  - intros H. contradiction.
  - constructor.
  - intros n [].
  - exists n'. auto.
Qed.

End NamingFacts.

Module NamingFactsWitness.
Import Naming NamingFacts.

Lemma cluster_names_distinct_witness :
  exists names,
    cluster_names_of (fun _ => Some "Topic") (fun _ => None) (fun _ => ["some text"])
      [0; -1; 1; 0]%Z = Some names /\
    map fst names = Clusterer.sorted_unique [0; -1; 1; 0]%Z /\ NoDup (map snd names) /\
    (forall n, In n (map snd names) -> NamerFacts.word_string n = true /\ n <> "").
Proof.
  apply (cluster_names_distinct (fun _ => Some "Topic") (fun _ => None)
           (fun _ => ["some text"]) [0; -1; 1; 0]%Z).
  intros c Hc Hlt. simpl in Hc. destruct Hc as [<-|[<-|[<-|[<-|[]]]]]; lia.
Defined.

End NamingFactsWitness.

Module SyncExtras.
Import Sync SyncExtra.

Lemma existsb_string_in (p : string) l : existsb (String.eqb p) l = true <-> In p l.
Proof.
  rewrite existsb_exists. split.
  - intros [x [Hx E]]. apply String.eqb_eq in E. subst. exact Hx.
  - intros H. exists p. split; [exact H|apply String.eqb_refl].
Qed.

Lemma add_synced_fold (paths acc : list string) (p : string) :
  NoDup acc ->
  let acc' := fold_left (fun acc p => if existsb (String.eqb p) acc then acc else app acc [p])
                paths acc in
  NoDup acc' /\ (In p acc' <-> In p acc \/ In p paths).
Proof.
  revert acc. induction paths as [|q r IH]; intros acc Hnd; simpl.
  - split; [exact Hnd|]. tauto.
  - destruct (existsb (String.eqb q) acc) eqn:Hq.
    + apply existsb_string_in in Hq. destruct (IH acc Hnd) as [H1 H2].
      split; [exact H1|]. rewrite H2. intuition congruence.
    + assert (Hq' : ~ In q acc) by (intros H; apply existsb_string_in in H; congruence).
      assert (Hnd' : NoDup (app acc [q])).
      { apply NoDup_app; [exact Hnd|constructor; [intros []|constructor]|].
        intros x Hx [<-|[]]. contradiction. }
      destruct (IH (app acc [q]) Hnd') as [H1 H2]. split; [exact H1|].
      rewrite H2, in_app_iff. simpl. intuition.
Qed.

(** [_add_synced_paths] then [is_recently_synced]: a path is reported as
    recently synced exactly when it was before or is one of the added
    paths, and the set keeps one entry per path. *)
Theorem add_synced_paths_spec (paths : list string) (ss : SyncState) (p : string) :
  NoDup (recently_synced ss) ->
  NoDup (recently_synced (_add_synced_paths paths ss)) /\
  (is_recently_synced (_add_synced_paths paths ss) p = true <->
   is_recently_synced ss p = true \/ In p paths).
Proof.
  intros Hnd. unfold is_recently_synced, _add_synced_paths. cbn [recently_synced].
  rewrite !existsb_string_in. exact (add_synced_fold paths _ p Hnd).
Qed.

(** [delete_cluster_folder] never touches files and never removes a
    folder that has an entry; it removes the folder exactly when it is an
    existing empty directory. *)
Theorem delete_cluster_folder_spec fs p :
  let fs' := delete_cluster_folder fs p in
  Fs.fs_files fs' = Fs.fs_files fs /\
  (Fs.is_dir fs p = true -> Fs.has_children fs p = true -> fs' = fs) /\
  (Fs.is_dir fs p = true -> Fs.has_children fs p = false -> Fs.is_dir fs' p = false).
Proof.
  cbv zeta. unfold delete_cluster_folder.
  destruct (Fs.exists_ fs p && Fs.is_dir fs p)%bool eqn:He.
  2:{ split; [reflexivity|]. split; [reflexivity|]. intros Hd _.
      unfold Fs.exists_ in He. rewrite Hd, !orb_true_r in He. discriminate. }
  apply andb_true_iff in He. destruct He as [_ Hd].
  destruct (Fs.has_children fs p) eqn:Hc; simpl.
  - split; [reflexivity|]. split; [reflexivity|]. discriminate.
  - unfold Fs.rmdir. rewrite Hd, Hc. simpl. split; [reflexivity|]. split; [discriminate|].
    intros _ _. unfold Fs.is_dir. simpl. apply Bool.not_true_is_false. intros H.
    apply existsb_exists in H. destruct H as [x [Hx E]]. apply filter_In in Hx.
    destruct Hx as [_ Hx]. apply String.eqb_eq in E. subst.
    rewrite String.eqb_refl in Hx. discriminate.
Qed.

(** Directories that [_cleanup_empty_dirs] must keep. *)
Definition kept (fs : Fs.FS) (root : string) (keep_names : list string) (d : string) : Prop :=
  d = root \/ (In (Fs.name d) keep_names /\ Fs.parent d = root) \/
  exists f, In f (map fst (Fs.fs_files fs)) /\ Fs.parent f = d.

Lemma has_children_file fs f :
  In f (map fst (Fs.fs_files fs)) -> Fs.has_children fs (Fs.parent f) = true.
Proof.
  intros H. unfold Fs.has_children. apply orb_true_intro. left.
  apply in_map_iff in H. destruct H as [[q b] [Hq Hin]]. simpl in Hq. subst q.
  apply existsb_exists. exists (f, b). split; [exact Hin|apply String.eqb_refl].
Qed.

Lemma cleanup_empty_dirs_props fs root keep_names :
  let fs' := _cleanup_empty_dirs fs root keep_names in
  Fs.fs_files fs' = Fs.fs_files fs /\ Fs.fs_locked fs' = Fs.fs_locked fs /\
  (forall d, In d (Fs.fs_dirs fs') -> In d (Fs.fs_dirs fs)) /\
  (forall d, In d (Fs.fs_dirs fs) -> kept fs root keep_names d -> In d (Fs.fs_dirs fs')).
Proof.
  cbv zeta. unfold _cleanup_empty_dirs.
  generalize (rglob_reversed fs root) as ds.
  assert (G : forall ds cur,
    Fs.fs_files cur = Fs.fs_files fs -> Fs.fs_locked cur = Fs.fs_locked fs ->
    (forall d, In d (Fs.fs_dirs cur) -> In d (Fs.fs_dirs fs)) ->
    (forall d, In d (Fs.fs_dirs fs) -> kept fs root keep_names d -> In d (Fs.fs_dirs cur)) ->
    let fs' := fold_left (fun fs d =>
      if Fs.is_dir fs d && negb (String.eqb d root) then
        if existsb (String.eqb (Fs.name d)) keep_names && String.eqb (Fs.parent d) root
        then fs
        else if negb (Fs.has_children fs d) then
          match Fs.rmdir fs d with Some fs' => fs' | None => fs end
        else fs
      else fs) ds cur in
    Fs.fs_files fs' = Fs.fs_files fs /\ Fs.fs_locked fs' = Fs.fs_locked fs /\
    (forall d, In d (Fs.fs_dirs fs') -> In d (Fs.fs_dirs fs)) /\
    (forall d, In d (Fs.fs_dirs fs) -> kept fs root keep_names d -> In d (Fs.fs_dirs fs'))).
  { induction ds as [|d ds IH]; intros cur H1 H2 H3 H4; simpl; [auto|].
    apply IH.
    all: destruct (Fs.is_dir cur d && negb (String.eqb d root))%bool eqn:Hd; try assumption.
    all: destruct (existsb (String.eqb (Fs.name d)) keep_names && String.eqb (Fs.parent d) root)%bool
           eqn:Hk; try assumption.
    all: destruct (Fs.has_children cur d) eqn:Hc; simpl; try assumption.
    all: unfold Fs.rmdir; rewrite Hc; destruct (Fs.is_dir cur d); simpl; try assumption.
    - intros x Hx. apply filter_In in Hx. apply H3, Hx.
    - intros x Hx Hkx. apply filter_In. split; [apply H4; assumption|].
      destruct (String.eqb_spec x d) as [->|]; [|reflexivity]. exfalso.
      apply andb_true_iff in Hd. destruct Hd as [_ Hd]. apply negb_true_iff in Hd.
      destruct Hkx as [->|[[Hn Hp]|[f [Hf Hp]]]].
      + rewrite String.eqb_refl in Hd. discriminate.
      + apply existsb_string_in in Hn. rewrite Hn, Hp, String.eqb_refl in Hk. discriminate.
      + rewrite <- H1 in Hf. apply has_children_file in Hf. rewrite Hp in Hf. congruence. }
  intros ds. apply G; auto.
Qed.

(** [_cleanup_empty_dirs] never touches files; it only removes
    directories; and it never removes the root, a kept cluster folder
    directly under the root, or a directory that directly holds a file. *)
Theorem cleanup_empty_dirs_safe fs root keep_names :
  let fs' := _cleanup_empty_dirs fs root keep_names in
  Fs.fs_files fs' = Fs.fs_files fs /\ Fs.fs_locked fs' = Fs.fs_locked fs /\
  (forall d, In d (Fs.fs_dirs fs') -> In d (Fs.fs_dirs fs)) /\
  (forall d, In d (Fs.fs_dirs fs) -> kept fs root keep_names d -> In d (Fs.fs_dirs fs')).
Proof. exact (cleanup_empty_dirs_props fs root keep_names). Qed.

Lemma mkdir_keeps_files fs d fs' : Fs.mkdir fs d = Some fs' -> Fs.fs_files fs' = Fs.fs_files fs.
Proof.
  unfold Fs.mkdir. destruct (Fs.is_file fs d); [discriminate|].
  destruct (Fs.is_dir fs d); intros H; injection H as <-; reflexivity.
Qed.

Lemma move_contents fs s t fs' :
  Fs.move fs s t = Some fs' -> map snd (Fs.fs_files fs') = map snd (Fs.fs_files fs).
Proof.
  unfold Fs.move. destruct (existsb _ _); [discriminate|].
  destruct (String.prefix _ _); [discriminate|].
  destruct (Fs.is_file fs s || Fs.is_dir fs s)%bool; [|discriminate].
  intros H. injection H as <-. simpl. rewrite map_map. reflexivity.
Qed.

Lemma mkdir_all_contents fs l :
  match mkdir_all fs l with
  | inl fs' | inr fs' => Fs.fs_files fs' = Fs.fs_files fs
  end.
Proof.
  revert fs. induction l as [|d r IH]; intros fs; simpl; [reflexivity|].
  destruct (Fs.mkdir fs d) as [fs1|] eqn:E; [|reflexivity].
  specialize (IH fs1). rewrite (mkdir_keeps_files _ _ _ E) in IH. exact IH.
Qed.

Lemma sync_entry_contents root names fs ss moves item fs' ss' moves' :
  sync_entry root names (fs, ss, moves) item = Some (fs', ss', moves') ->
  map snd (Fs.fs_files fs') = map snd (Fs.fs_files fs).
Proof.
  destruct item as [fid info]. unfold sync_entry.
  destruct (Fs.mkdir fs _) as [fs1|] eqn:Em; [|discriminate].
  pose proof (mkdir_keeps_files _ _ _ Em) as Hf1.
  destruct (resolve_source fs1 root info) as [src|].
  2:{ intros H. injection H as <- _ _. rewrite Hf1. reflexivity. }
  destruct (String.eqb _ _).
  { intros H. injection H as <- _ _. rewrite Hf1. reflexivity. }
  destruct (Fs.move fs1 _ _) as [fs2|] eqn:Emv; intros H; injection H as <- _ _.
  - rewrite (move_contents _ _ _ _ Emv), Hf1. reflexivity.
  - rewrite Hf1. reflexivity.
Qed.

Lemma sync_loop_contents root names plan fs ss moves :
  match sync_loop root names (fs, ss, moves) plan with
  | inl (fs', _, _) | inr (fs', _) => map snd (Fs.fs_files fs') = map snd (Fs.fs_files fs)
  end.
Proof.
  revert fs ss moves. induction plan as [|item rest IH]; intros fs ss moves; cbn [sync_loop];
    [reflexivity|].
  destruct (sync_entry root names (fs, ss, moves) item) as [[[fs1 ss1] m1]|] eqn:E;
    [|cbn; reflexivity].
  specialize (IH fs1 ss1 m1). pose proof (sync_entry_contents _ _ _ _ _ _ _ _ _ E) as He.
  destruct (sync_loop root names (fs1, ss1, m1) rest) as [[[? ?] ?]|[? ?]];
    rewrite IH; exact He.
Qed.

(** [sync_files_to_folders] never loses, duplicates or alters file
    contents: the file system it leaves (on return or on an exception)
    holds exactly the same contents, file for file, as before; only paths
    change. *)
Theorem sync_files_to_folders_contents fs ss plan names root :
  let '(_, fs', _) := sync_files_to_folders fs ss plan names root in
  map snd (Fs.fs_files fs') = map snd (Fs.fs_files fs).
Proof.
  unfold sync_files_to_folders.
  pose proof (mkdir_all_contents fs (map (fun e => Fs.join root (snd e)) names)) as Hm.
  destruct (mkdir_all fs _) as [fs1|fs1]; [|rewrite Hm; reflexivity].
  pose proof (sync_loop_contents root names plan fs1 (set_sync_lock true ss) []) as Hl.
  destruct (sync_loop _ _ _ _) as [[[fs2 ss2] mv]|[fs2 ss2]].
  - destruct (cleanup_empty_dirs_props fs2 root (map snd names)) as [Hc _].
    cbv zeta in Hc. rewrite Hc, Hl, Hm. reflexivity.
  - rewrite Hl, Hm. reflexivity.
Qed.

End SyncExtras.

Module CollisionFacts.
Import Sync.

Lemma string_app_cancel_r (a b c : string) : a ++ c = b ++ c -> a = b.
Proof.
  intros H.
  assert (Hl : String.length a = String.length b).
  { apply (f_equal String.length) in H. rewrite !StringFacts.length_string_append in H. lia. }
  revert b Hl H. induction a as [|x a IH]; intros [|y b] Hl H; simpl in *;
    try discriminate; [reflexivity|].
  injection H as -> H. f_equal. apply IH; [lia|exact H].
Qed.

Definition cand (folder stem sfx : string) (k : nat) : string :=
  Fs.join folder (stem ++ "_" ++ nat_to_string k ++ sfx).

Lemma cand_inj folder stem sfx k k' :
  cand folder stem sfx k = cand folder stem sfx k' -> k = k'.
Proof.
  unfold cand, Fs.join. intros H.
  apply NamingFacts.string_app_cancel in H. apply NamingFacts.string_app_cancel in H.
  apply NamingFacts.string_app_cancel in H. apply NamingFacts.string_app_cancel in H.
  apply string_app_cancel_r in H. apply DecimalFacts.nat_to_string_inj, H.
Qed.

Lemma next_free_spec fs folder stem sfx f c :
  Fs.exists_ fs (next_free f fs folder stem sfx c) = false \/
  (forall k, (c <= k < c + f)%nat -> Fs.exists_ fs (cand folder stem sfx k) = true).
Proof.
  revert c. induction f as [|f IH]; intros c; cbn [next_free].
  - right. intros k Hk. lia.
  - destruct (Fs.exists_ fs (Fs.join folder (stem ++ "_" ++ nat_to_string c ++ sfx))) eqn:He.
    + destruct (IH (S c)) as [H|H]; [left; exact H|right].
      intros k Hk. destruct (Nat.eq_dec k c) as [->|Hne]; [exact He|]. apply H. lia.
    + left. exact He.
Qed.

Lemma exists_in fs p :
  p <> "" -> Fs.exists_ fs p = true -> In p (app (map fst (Fs.fs_files fs)) (Fs.fs_dirs fs)).
Proof.
  intros Hp H. unfold Fs.exists_, Fs.is_file, Fs.is_dir in H.
  destruct (String.eqb_spec p "") as [->|_]; [congruence|]. simpl in H.
  apply in_or_app. apply orb_true_iff in H. destruct H as [H|H]; apply existsb_exists in H;
    destruct H as [x [Hx E]]; apply String.eqb_eq in E; subst.
  - left. apply in_map, Hx.
  - right. exact Hx.
Qed.

(** [collision_free]: the target chosen for a move never exists in the
    file system: either the requested path is free, or the
    [{stem}_{counter}{suffix}] loop reaches a free name. *)
Theorem collision_free_not_exists fs folder target :
  Fs.exists_ fs (collision_free fs folder target) = false.
Proof.
  unfold collision_free. destruct (Fs.exists_ fs target) eqn:Ht; [|exact Ht].
  set (N := (List.length (Fs.fs_files fs) + List.length (Fs.fs_dirs fs))%nat).
  destruct (next_free_spec fs folder (Fs.stem target) (Fs.suffix target) (S N) 1) as [H|H];
    [exact H|exfalso].
  set (cs := map (cand folder (Fs.stem target) (Fs.suffix target)) (seq 1 (S N))).
  assert (Hnd : NoDup cs) by (apply NamingFacts.NoDup_map_inj; [apply cand_inj|apply seq_NoDup]).
  assert (Hincl : incl cs (app (map fst (Fs.fs_files fs)) (Fs.fs_dirs fs))).
  { intros p Hp. apply in_map_iff in Hp. destruct Hp as [k [<- Hk]]. apply in_seq in Hk.
    apply exists_in; [|apply H; lia].
    unfold cand, Fs.join. destruct folder; discriminate. }
  pose proof (NoDup_incl_length Hnd Hincl) as Hl.
  unfold cs in Hl. rewrite length_map, length_seq, length_app, length_map in Hl.
  unfold N in Hl. lia.
Qed.

End CollisionFacts.

Module SyncExtrasWitness.
Import Sync SyncExtra.

Lemma add_synced_paths_spec_witness :
  NoDup (recently_synced (mkSync false ["/root/a.txt"])) /\
  is_recently_synced (_add_synced_paths ["/root/b.txt"; "/root/a.txt"]
                        (mkSync false ["/root/a.txt"])) "/root/b.txt" = true.
Proof.
  assert (Hnd : NoDup (recently_synced (mkSync false ["/root/a.txt"])))
    by (constructor; [intros []|constructor]).
  split; [exact Hnd|].
  apply (proj2 (proj2 (SyncExtras.add_synced_paths_spec ["/root/b.txt"; "/root/a.txt"]
                         (mkSync false ["/root/a.txt"]) "/root/b.txt" Hnd))).
  right. left. reflexivity.
Defined.

End SyncExtrasWitness.

Module ClustererExtras.
Import Clusterer.

Lemma in_insert_Z_r x y l : y = x \/ In y l -> In y (insert_Z x l).
Proof.
  induction l as [|d r IH]; simpl; [intuition|].
  destruct (Z.eqb_spec x d) as [->|]; [simpl; intuition|].
  destruct (x <? d)%Z; simpl; intuition.
Qed.

Lemma in_sorted_unique_r y l : In y l -> In y (sorted_unique l).
Proof.
  induction l as [|x r IH]; simpl; [auto|]. intros [->|H]; apply in_insert_Z_r; auto.
Qed.

Lemma StronglySorted_lt_NoDup (l : list Z) : StronglySorted Z.lt l -> NoDup l.
Proof.
  induction 1 as [|a l _ IH Hf]; constructor; [|exact IH].
  intros Hin. rewrite Forall_forall in Hf. specialize (Hf a Hin). lia.
Qed.

Lemma sorted_unique_NoDup l : NoDup (sorted_unique l).
Proof. apply StronglySorted_lt_NoDup, NamingFacts.sorted_unique_sorted. Qed.

Lemma index_of_range x u : In x u -> (0 <= index_of x u < Z.of_nat (List.length u))%Z.
Proof.
  induction u as [|a r IH]; [intros []|]. intros Hin. cbn [index_of List.length].
  rewrite Nat2Z.inj_succ.
  destruct (Z.eqb_spec x a) as [->|Hne]; [lia|].
  destruct Hin as [->|Hin]; [congruence|]. specialize (IH Hin). lia.
Qed.

Lemma index_of_inj x y u : In x u -> In y u -> index_of x u = index_of y u -> x = y.
Proof.
  induction u as [|a r IH]; [intros []|]. intros Hx Hy. cbn [index_of].
  destruct (Z.eqb_spec x a) as [->|Hxa]; destruct (Z.eqb_spec y a) as [->|Hya];
    try reflexivity.
  - destruct Hy as [->|Hy]; [congruence|]. pose proof (index_of_range _ _ Hy). lia.
  - destruct Hx as [->|Hx]; [congruence|]. pose proof (index_of_range _ _ Hx). lia.
  - destruct Hx as [->|Hx]; [congruence|]. destruct Hy as [->|Hy]; [congruence|].
    intros E. apply IH; [exact Hx|exact Hy|lia].
Qed.

Lemma filter_map_length {A B} (p : B -> bool) (f : A -> B) l :
  List.length (filter p (map f l)) = List.length (filter (fun y => p (f y)) l).
Proof. induction l as [|a l IH]; simpl; [reflexivity|]. destruct (p (f a)); simpl; auto. Qed.

Lemma filter_length_ext {A} (p q : A -> bool) l :
  (forall y, In y l -> p y = q y) -> List.length (filter p l) = List.length (filter q l).
Proof. intros H. rewrite (filter_ext_in p q l H). reflexivity. Qed.

Lemma count_pos x l : In x l -> (1 <= count x l)%nat.
Proof.
  unfold count. induction l as [|a l IH]; simpl; [intros []|].
  intros [->|Hin]; [rewrite Z.eqb_refl; simpl; lia|].
  destruct (x =? a)%Z; simpl; [lia|]. apply IH, Hin.
Qed.

(** [_agglomerative_fallback]'s relabelling keeps one label per file,
    answers noise ([-1]) or a label [0 <= l < k] with [k] at most the
    number of distinct input labels, and never leaves a singleton
    cluster: every label other than [-1] is carried by at least two files. *)
Theorem demote_and_renumber_spec labels :
  let out := demote_and_renumber labels in
  List.length out = List.length labels /\
  forall l', In l' out ->
    l' = (-1)%Z \/
    ((0 <= l' < Z.of_nat (List.length (sorted_unique labels)))%Z /\ (2 <= count l' out)%nat).
Proof.
  cbv zeta. unfold demote_and_renumber.
  set (dm := fun l => if Nat.eqb (count l labels) 1 then (-1)%Z else l).
  set (d := map dm labels).
  set (u := sorted_unique (filter (fun l => negb (l =? -1)%Z) d)).
  set (h := fun l => if (l =? -1)%Z then (-1)%Z else index_of l u).
  split; [unfold d; rewrite !length_map; reflexivity|].
  intros l' Hl'. apply in_map_iff in Hl'. destruct Hl' as [x [Hx Hxd]].
  unfold h in Hx. revert Hx.
  destruct (Z.eqb_spec x (-1)) as [_|Hxn]; intros Hx; [left; symmetry; exact Hx|right].
  assert (Hxu : In x u) by (apply in_sorted_unique_r, filter_In; split;
                            [exact Hxd|apply negb_true_iff, Z.eqb_neq, Hxn]).
  assert (Hul : forall y, In y u -> In y labels /\ y <> (-1)%Z).
  { intros y Hy. apply NamingFacts.in_sorted_unique, filter_In in Hy. destruct Hy as [Hy Hn].
    apply negb_true_iff, Z.eqb_neq in Hn. split; [|exact Hn].
    unfold d in Hy. apply in_map_iff in Hy. destruct Hy as [z [<- Hz]]. unfold dm in *.
    destruct (Nat.eqb (count z labels) 1); [congruence|exact Hz]. }
  split.
  - pose proof (index_of_range _ _ Hxu). subst l'.
    assert (Hle : (List.length u <= List.length (sorted_unique labels))%nat).
    { apply NoDup_incl_length; [apply sorted_unique_NoDup|].
      intros y Hy. apply in_sorted_unique_r, (Hul y Hy). }
    lia.
  - assert (Hcx : count x labels <> 1%nat).
    { unfold d in Hxd. apply in_map_iff in Hxd. destruct Hxd as [z [Hz _]]. unfold dm in Hz.
      destruct (Nat.eqb_spec (count z labels) 1); [congruence|subst; assumption]. }
    assert (Hcnt : count l' (map h d) = count x labels).
    { unfold count. rewrite filter_map_length.
      rewrite (filter_length_ext _ (Z.eqb x) d).
      2:{ intros y Hy. unfold h. subst l'.
          destruct (Z.eqb_spec y (-1)) as [->|Hyn].
          - destruct (Z.eqb_spec x (-1)); [congruence|].
            pose proof (index_of_range _ _ Hxu). apply Z.eqb_neq. lia.
          - assert (Hyu : In y u) by (apply in_sorted_unique_r, filter_In; split;
                                      [exact Hy|apply negb_true_iff, Z.eqb_neq, Hyn]).
            destruct (Z.eqb_spec x y) as [->|Hne]; [apply Z.eqb_refl|].
            apply Z.eqb_neq. intros E. apply Hne, (index_of_inj _ _ _ Hxu Hyu E). }
      unfold d. rewrite filter_map_length. apply filter_length_ext.
      intros y Hy. unfold dm. destruct (Z.eqb_spec x y) as [<-|Hne].
      - destruct (Nat.eqb_spec (count x labels) 1); [congruence|apply Z.eqb_refl].
      - destruct (Nat.eqb (count y labels) 1); apply Z.eqb_neq; congruence. }
    rewrite Hcnt. destruct (Hul x Hxu) as [Hxl _]. pose proof (count_pos _ _ Hxl). lia.
Qed.

Lemma nth_error_combine_l {A B} (a : list A) (b : list B) i x y :
  nth_error (combine a b) i = Some (x, y) -> nth_error a i = Some x.
Proof.
  revert b i. induction a as [|u a IH]; intros [|v b] [|i]; simpl; try discriminate.
  - intros H. injection H as -> _. reflexivity.
  - apply IH.
Qed.

Lemma centroids_of_in_labels labels E c :
  In c (centroids_of labels E) -> In (fst c) labels.
Proof.
  unfold centroids_of. intros Hin. apply in_map_iff in Hin. destruct Hin as [cid [<- Hin]].
  apply NamingFacts.in_sorted_unique, filter_In in Hin. exact (proj1 Hin).
Qed.

(** [_assign_noise_smart] never changes the label of a clustered file; a
    noise file either stays noise, or joins a cluster that already exists
    among the labels, or gets [0] when every file was noise; this for
    every square-root function behind the similarity. *)
Theorem assign_noise_smart_labels np_sqrt labels E i l l' :
  nth_error labels i = Some l ->
  nth_error (_assign_noise_smart np_sqrt labels E) i = Some l' ->
  (l <> (-1)%Z -> l' = l) /\
  (l' = l \/ (l' <> (-1)%Z /\ In l' labels) \/
   (l' = 0%Z /\ forallb (fun l => (l =? -1)%Z) labels = true)).
Proof.
  intros Hl Hl'. unfold _assign_noise_smart in Hl'.
  destruct (forallb (fun l => negb (l =? -1)%Z) labels) eqn:Hnn.
  { rewrite Hl in Hl'. injection Hl' as <-. auto. }
  destruct (forallb (fun l => (l =? -1)%Z) labels) eqn:Hall.
  { rewrite nth_error_map, Hl in Hl'. injection Hl' as <-.
    assert (Hn : l = (-1)%Z).
    { rewrite forallb_forall in Hall. apply Z.eqb_eq, Hall, (nth_error_In _ _ Hl). }
    split; [congruence|]. right. right. auto. }
  rewrite nth_error_map in Hl'.
  destruct (nth_error (combine labels E) i) as [[l0 e]|] eqn:Hc; [|discriminate].
  rewrite (nth_error_combine_l _ _ _ _ _ Hc) in Hl. injection Hl as ->.
  injection Hl' as Hl'. cbv beta iota in Hl'.
  destruct (Z.eqb_spec l (-1)) as [Hn|Hn]; [|split; [auto|left]; congruence].
  split; [congruence|].
  destruct (ClustererFacts.best_cluster_spec np_sqrt e (centroids_of labels E)) as [_ [Hr|[c [Hc' Hr]]]];
    destruct (best_cluster np_sqrt (centroids_of labels E) e) as [bs bc]; injection Hr as -> ->.
  - left. rewrite <- Hl'. reflexivity.
  - destruct (Qle_bool NOISE_SIMILARITY_THRESHOLD _); [|left; congruence].
    right. left. subst l'. split.
    + apply (ClustererFacts.centroids_of_not_noise _ _ _ Hc').
    + apply (centroids_of_in_labels _ _ _ Hc').
Qed.

End ClustererExtras.

Module ClustererExtrasWitness.
Import Clusterer.

Lemma assign_noise_smart_labels_witness :
  nth_error [0; -1; 0]%Z 1 = Some (-1)%Z /\
  nth_error (_assign_noise_smart Qsqrt [0; -1; 0]%Z [[1; 0]; [1; 0]; [1; 0]]%Q) 1 = Some 0%Z /\
  (0%Z = (-1)%Z \/ (0%Z <> (-1)%Z /\ In 0%Z [0; -1; 0]%Z) \/
   (0%Z = 0%Z /\ forallb (fun l => (l =? -1)%Z) [0; -1; 0]%Z = true)).
Proof.
  assert (H1 : nth_error [0; -1; 0]%Z 1 = Some (-1)%Z) by reflexivity.
  assert (H2 : nth_error (_assign_noise_smart Qsqrt [0; -1; 0]%Z [[1; 0]; [1; 0]; [1; 0]]%Q) 1
               = Some 0%Z) by (vm_compute; reflexivity).
  split; [exact H1|]. split; [exact H2|].
  exact (proj2 (ClustererExtras.assign_noise_smart_labels Qsqrt _ _ 1 _ _ H1 H2)).
Defined.

End ClustererExtrasWitness.
